(** * The Wii filesystem device of the IOS HLE layer

    A shallow embedding of [Source/Core/Core/IPC_HLE/WII_IPC_HLE_Device_fs.cpp]:
    the scalar and the vectored command dispatchers ([IOCtl], [ExecuteCommand],
    [IOCtlV]), the opening of the device ([Open]) and the save/restore of the
    scratch directory ([DoState]); and of the start-up and shutdown sequences
    of [Source/Core/Core/HW/HW.cpp].

    Guest memory, the host file system and the snapshot stream are explicit
    state.  Log calls have no effect on that state and are left out; the
    debug-only assertions ([_dbg_assert_]) compile to nothing in a release
    build and are left out as well. *)

From Stdlib Require Import ZArith List Ascii String Lia.
From stdpp Require Import gmap strings list fin_maps sorting.

Local Open Scope Z_scope.

(** ** Fixed-width integers *)

Definition u8 (z : Z) : Z := z mod 2 ^ 8.
Definition u16 (z : Z) : Z := z mod 2 ^ 16.
Definition u32 (z : Z) : Z := z mod 2 ^ 32.
Definition u64 (z : Z) : Z := z mod 2 ^ 64.

(** ** Strings *)

(** [DIR_SEP] of [Common/CommonPaths.h]. *)
Definition DIR_SEP : string := "/".

(** [s.compare(pos, len, t) == 0] for [pos = 0]: the first [len] characters
    of [s] (fewer when [s] is shorter) are compared with the whole of [t]. *)
Definition compare_0 (s : string) (len : nat) (t : string) : comparison :=
  String.compare (String.substring 0 len s) t.

Definition is_Eq (c : comparison) : bool :=
  match c with Eq => true | _ => false end.

(** [name.erase(0, n)] *)
Fixpoint erase_0 (n : nat) (s : string) : string :=
  match n, s with
  | O, _ => s
  | S _, EmptyString => EmptyString
  | S n', String _ s' => erase_0 n' s'
  end.

Definition NUL : ascii := Ascii.zero.

(** [s.c_str()] as [strcpy] sees it: the characters before the first NUL. *)
Fixpoint c_str (s : string) : string :=
  match s with
  | EmptyString => EmptyString
  | String c s' => if Ascii.eqb c NUL then EmptyString else String c (c_str s')
  end.

Definition byte_of_ascii (c : ascii) : Z := Z.of_N (N_of_ascii c).
Definition ascii_of_byte (b : Z) : ascii := ascii_of_N (Z.to_N (u8 b)).

Fixpoint bytes_of_string (s : string) : list Z :=
  match s with
  | EmptyString => []
  | String c s' => byte_of_ascii c :: bytes_of_string s'
  end.

(** ** Guest memory *)

(** Modelled from the spec: the raw guest-memory primitives ([Core/HW/Memmap.h]
    is not under src/).  Memory is a map from addresses to bytes; multi-byte
    values are stored big-endian, as the emulated PowerPC has them. *)
Module Memory.

Definition t : Type := Z → Z.

Definition Read_U8 (m : t) (a : Z) : Z := u8 (m a).

Definition Read_U16 (m : t) (a : Z) : Z :=
  Read_U8 m a * 2 ^ 8 + Read_U8 m (a + 1).

Definition Read_U32 (m : t) (a : Z) : Z :=
  Read_U8 m a * 2 ^ 24 + Read_U8 m (a + 1) * 2 ^ 16
  + Read_U8 m (a + 2) * 2 ^ 8 + Read_U8 m (a + 3).

Definition Write_U8 (v : Z) (a : Z) (m : t) : t :=
  λ x, if x =? a then u8 v else m x.

Definition Write_U16 (v : Z) (a : Z) (m : t) : t :=
  Write_U8 v (a + 1) (Write_U8 (v ≫ 8) a m).

Definition Write_U32 (v : Z) (a : Z) (m : t) : t :=
  Write_U8 v (a + 3) (Write_U8 (v ≫ 8) (a + 2)
    (Write_U8 (v ≫ 16) (a + 1) (Write_U8 (v ≫ 24) a m))).

(** [Memory::Memset(address, value, size)] *)
Definition Memset (a : Z) (v : Z) (size : Z) (m : t) : t :=
  λ x, if (a <=? x) && (x <? a + size) then u8 v else m x.

(** Stores through the host pointer [GetPointer(a)]: [memcpy], [strcpy]. *)
Fixpoint write_bytes (a : Z) (l : list Z) (m : t) : t :=
  match l with
  | [] => m
  | b :: l' => write_bytes (a + 1) l' (Write_U8 b a m)
  end.

Fixpoint read_bytes (m : t) (a : Z) (n : nat) : list Z :=
  match n with
  | O => []
  | S n' => Read_U8 m a :: read_bytes m (a + 1) n'
  end.

(** [Memory::GetString(address, size)]: the characters from [address] up
    to the first NUL, at most [size] of them. *)
Fixpoint GetString_aux (m : t) (a : Z) (n : nat) : string :=
  match n with
  | O => EmptyString
  | S n' =>
      if Read_U8 m a =? 0 then EmptyString
      else String (ascii_of_byte (m a)) (GetString_aux m (a + 1) n')
  end.

Definition GetString (m : t) (a : Z) (size : Z) : string :=
  GetString_aux m a (Z.to_nat size).

End Memory.

(** ** Result codes *)

(** Modelled from the spec: the result codes returned to the guest.  The
    enumerators of [IOSReturnCode] are declared outside src/; the spec lists
    them as distinct codes.  [S32Literal] is a result given as a number in
    the source. *)
Inductive ReturnCode : Type :=
  | IPC_SUCCESS
  | FS_EINVAL
  | FS_EEXIST
  | FS_ENOENT
  | S32Literal (z : Z).

Record IPCCommandResult : Type := mkIPCCommandResult {
  return_value : ReturnCode;
  send_reply : bool;
  reply_delay_ticks : Z
}.

(** ** Requests *)

Record IOSIOCtlRequest : Type := mkIOSIOCtlRequest {
  ioctl_request : Z;
  buffer_in : Z;
  buffer_in_size : Z;
  buffer_out : Z;
  buffer_out_size : Z
}.

Module IOVector.
Record t : Type := mk { address : Z; size : Z }.
End IOVector.

Record IOSIOCtlVRequest : Type := mkIOSIOCtlVRequest {
  ioctlv_request : Z;
  in_vectors : list IOVector.t;
  io_vectors : list IOVector.t
}.

(** The opcodes named in the two dispatchers.  Their numbers are declared
    in the device's header, which is not under src/: the development is
    parametric in the numbering (see [ioctl_of] below). *)
Inductive Ioctl : Type :=
  | IOCTL_GET_STATS
  | IOCTL_CREATE_DIR
  | IOCTLV_READ_DIR
  | IOCTL_SET_ATTR
  | IOCTL_GET_ATTR
  | IOCTL_DELETE_FILE
  | IOCTL_RENAME_FILE
  | IOCTL_CREATE_FILE
  | IOCTLV_GETUSAGE
  | IOCTL_SHUTDOWN.

(** [struct NANDStat]: seven 32-bit fields. *)
Record NANDStat : Type := mkNANDStat {
  BlockSize : Z;
  FreeUserBlocks : Z;
  UsedUserBlocks : Z;
  FreeSysBlocks : Z;
  UsedSysBlocks : Z;
  Free_INodes : Z;
  Used_Inodes : Z
}.

(** The object representation of a [u32] on the (little-endian) host. *)
Definition host_u32_bytes (v : Z) : list Z :=
  [u8 v; u8 (v ≫ 8); u8 (v ≫ 16); u8 (v ≫ 24)].

(** The bytes [memcpy(dst, &fs, sizeof(NANDStat))] copies. *)
Definition NANDStat_bytes (fs : NANDStat) : list Z :=
  host_u32_bytes (BlockSize fs) ++ host_u32_bytes (FreeUserBlocks fs)
  ++ host_u32_bytes (UsedUserBlocks fs) ++ host_u32_bytes (FreeSysBlocks fs)
  ++ host_u32_bytes (UsedSysBlocks fs) ++ host_u32_bytes (Free_INodes fs)
  ++ host_u32_bytes (Used_Inodes fs).

Definition sizeof_NANDStat : Z := 28.

(** The seven words of a GET_STATS reply as the guest reads them from the
    output buffer, with [Read_U32]. *)
Definition stats_words (m : Memory.t) (a : Z) : list Z :=
  map (λ i, Memory.Read_U32 m (a + 4 * i)) [0; 1; 2; 3; 4; 5; 6].

(** ** The host file system *)

(** Modelled from the spec: the host file primitives ([Common/FileUtil.h] is
    not under src/).  The file system is a finite map from path strings to
    entries: a path names the entry stored under exactly that string, and the
    parent of an entry is the one named by the part of its path before the
    last separator. *)
Module File.

Inductive node : Type :=
  | Dir
  | Regular (data : list Byte.byte).

Abbreviation FS := (gmap string node).

(** The part of a path before its last separator, if it has one. *)
Fixpoint dirname (s : string) : option string :=
  match s with
  | EmptyString => None
  | String c s' =>
      match dirname s' with
      | Some d => Some (String c d)
      | None => if Ascii.eqb c "/" then Some EmptyString else None
      end
  end.

(** The part of a path after its last separator. *)
Fixpoint basename (s : string) : string :=
  match s with
  | EmptyString => EmptyString
  | String c s' =>
      match dirname s' with
      | Some _ => basename s'
      | None => if Ascii.eqb c "/" then s' else s
      end
  end.

Definition Exists (fs : FS) (path : string) : bool :=
  match fs !! path with Some _ => true | None => false end.

Definition IsDirectory (fs : FS) (path : string) : bool :=
  match fs !! path with Some Dir => true | _ => false end.

Definition parent_is_directory (fs : FS) (path : string) : bool :=
  match dirname path with
  | Some d => IsDirectory fs d
  | None => true
  end.

(** [File::CreateDir]: makes one directory; an existing entry is left as it
    is, and nothing is made where the parent directory is missing. *)
Definition CreateDir (path : string) (fs : FS) : FS :=
  if Exists fs path then fs
  else if parent_is_directory fs path then <[path := Dir]> fs
  else fs.

(** [path] lies strictly below [directory]: following parents from [path]
  leads to [directory].  A parent is shorter than its child, so the length
  of [path] bounds the walk. *)
Fixpoint below_fuel (fuel : nat) (directory path : string) : bool :=
match fuel with
| O => false
| S fuel' =>
    match dirname path with
    | Some parent =>
        String.eqb parent directory || below_fuel fuel' directory parent
    | None => false
    end
end.

Definition below (directory path : string) : bool :=
below_fuel (String.length path) directory path.

(** The same as a relation. *)
Inductive below_rel (directory : string) : string → Prop :=
| below_child path :
    dirname path = Some directory → below_rel directory path
| below_deeper path parent :
    dirname path = Some parent → below_rel directory parent →
    below_rel directory path.

(** Every entry that has a parent path has a directory there. *)
Definition wf (fs : FS) : Prop :=
∀ path entry parent,
  fs !! path = Some entry → dirname path = Some parent →
  fs !! parent = Some Dir.

(** [File::DeleteDirRecursively] *)
Definition DeleteDirRecursively (directory : string) (fs : FS) : FS :=
  if IsDirectory fs directory
  then filter (λ kn, kn.1 ≠ directory ∧ below directory kn.1 = false) fs
  else fs.

(** [File::FSTEntry].  For a directory [size] counts the entries below it,
    for a file it is the length in bytes. *)
#[warnings="-register-all"]
Inductive FSTEntry : Type := mkFSTEntry {
  isDirectory : bool;
  size : Z;
  physicalName : string;
  virtualName : string;
  children : list FSTEntry
}.

(** The entries directly inside [directory], in the order the host lists
    them. *)
Definition listing (fs : FS) (directory : string) : list (string * node) :=
  filter (λ kn, dirname kn.1 = Some directory) (map_to_list fs).

Definition add_child_size (parent_size : Z) (entry : FSTEntry) : Z :=
  u64 (u64 (parent_size + (if isDirectory entry then size entry else 0)) + 1).

(** [File::ScanDirectoryTree], with the depth of the recursion bounded by
    [fuel]. *)
Fixpoint ScanDirectoryTree_fuel (fuel : nat) (fs : FS) (directory : string)
    (recursive : bool) : FSTEntry :=
  let scan_child (kn : string * node) : FSTEntry :=
    let entry :=
      match kn.2 with
      | Dir =>
          match recursive, fuel with
          | true, S fuel' => ScanDirectoryTree_fuel fuel' fs kn.1 true
          | _, _ => mkFSTEntry true 0 kn.1 EmptyString []
          end
      | Regular data =>
          mkFSTEntry false (u64 (Z.of_nat (length data))) kn.1 EmptyString []
      end in
    mkFSTEntry (isDirectory entry) (size entry) kn.1 (basename kn.1)
      (children entry) in
  let entries := map scan_child (listing fs directory) in
  mkFSTEntry true (fold_left add_child_size entries 0) directory EmptyString
    entries.

(** The entries of [fs] strictly below [directory], their number, and the
  total length of the files among them. *)
Definition entries_below (fs : FS) (directory : string) : list (string * node) :=
filter (λ kn, below directory kn.1 = true) (map_to_list fs).

Definition node_bytes (entry : node) : Z :=
match entry with
| Dir => 0
| Regular data => Z.of_nat (length data)
end.

Definition descendant_count (fs : FS) (directory : string) : Z :=
Z.of_nat (length (entries_below fs directory)).

Definition descendant_bytes (fs : FS) (directory : string) : Z :=
foldr (λ kn acc, node_bytes kn.2 + acc) 0 (entries_below fs directory).

(** The length of the longest path of [fs]: no directory nests deeper. *)
Definition depth_bound (fs : FS) : nat :=
  map_fold (λ k _ acc, Nat.max (String.length k) acc) O fs.

Definition ScanDirectoryTree (fs : FS) (directory : string)
    (recursive : bool) : FSTEntry :=
  ScanDirectoryTree_fuel (depth_bound fs) fs directory recursive.

(** [File::IOFile] opened with ["rb"]: the bytes not read yet, or nothing
    when the file could not be opened. *)
Definition IOFile_rb (fs : FS) (name : string) : option (list Byte.byte) :=
  match fs !! name with
  | Some (Regular data) => Some data
  | _ => None
  end.

(** [IOFile::ReadArray(buf, n)]: the bytes read overwrite the start of
    [buf]. *)
Definition ReadArray (handle : option (list Byte.byte)) (n : nat)
    (buf : list Byte.byte) : list Byte.byte * option (list Byte.byte) :=
  match handle with
  | Some rest =>
      let got := take n rest in
      (got ++ drop (length got) buf, Some (drop n rest))
  | None => (buf, None)
  end.

(** [File::IOFile] opened with ["wb"]: the file is created or truncated;
    the handle is good when that worked. *)
Definition IOFile_wb (name : string) (fs : FS) : FS * bool :=
  if IsDirectory fs name then (fs, false)
  else if parent_is_directory fs name then (<[name := Regular []]> fs, true)
  else (fs, false).

(** [IOFile::WriteArray(buf, n)] on the handle of [name]. *)
Definition WriteArray (name : string) (good : bool) (bytes : list Byte.byte)
    (fs : FS) : FS :=
  if good then
    match fs !! name with
    | Some (Regular data) => <[name := Regular (data ++ bytes)]> fs
    | _ => fs
    end
  else fs.

End File.

(** ** The snapshot stream *)

(** Modelled from the spec: [PointerWrap] ([Common/ChunkFile.h] is not under
    src/).  The stream is the sequence of the values handed to [Do] and
    [DoArray], an array contributing one item per element.  In write mode a
    value is appended; in read mode the next value is taken off the front, and
    a stream that does not hold a value of the expected kind there gives no
    result. *)
Module PointerWrap.

Inductive Mode : Type := MODE_READ | MODE_WRITE.

Inductive item : Type :=
  | Char (c : ascii)
  | Str (s : string)
  | U32 (z : Z)
  | Byte (b : Byte.byte).

Record t : Type := mk { mode : Mode; stream : list item }.

Definition GetMode (p : t) : Mode := mode p.

Definition put (i : item) (p : t) : t := mk (mode p) (stream p ++ [i]).

(** [p.Do(x)] for a [char] *)
Definition DoChar (x : ascii) (p : t) : option (ascii * t) :=
  match mode p with
  | MODE_WRITE => Some (x, put (Char x) p)
  | MODE_READ =>
      match stream p with
      | Char c :: rest => Some (c, mk MODE_READ rest)
      | _ => None
      end
  end.

(** [p.Do(x)] for a [std::string] *)
Definition DoString (x : string) (p : t) : option (string * t) :=
  match mode p with
  | MODE_WRITE => Some (x, put (Str x) p)
  | MODE_READ =>
      match stream p with
      | Str s :: rest => Some (s, mk MODE_READ rest)
      | _ => None
      end
  end.

(** [p.Do(x)] for a [u32] *)
Definition DoU32 (x : Z) (p : t) : option (Z * t) :=
  match mode p with
  | MODE_WRITE => Some (u32 x, put (U32 (u32 x)) p)
  | MODE_READ =>
      match stream p with
      | U32 z :: rest => Some (u32 z, mk MODE_READ rest)
      | _ => None
      end
  end.

Fixpoint take_bytes (n : nat) (s : list item) : option (list Byte.byte * list item) :=
  match n with
  | O => Some ([], s)
  | S n' =>
      match s with
      | Byte b :: rest =>
          match take_bytes n' rest with
          | Some (bs, rest') => Some (b :: bs, rest')
          | None => None
          end
      | _ => None
      end
  end.

(** [p.DoArray(buf, n)] on a [char] array *)
Definition DoArray (buf : list Byte.byte) (n : nat) (p : t)
    : option (list Byte.byte * t) :=
  match mode p with
  | MODE_WRITE => Some (buf, mk MODE_WRITE (stream p ++ map Byte (take n buf)))
  | MODE_READ =>
      match take_bytes n (stream p) with
      | Some (bs, rest) => Some (bs ++ drop n buf, mk MODE_READ rest)
      | None => None
      end
  end.

End PointerWrap.

(** ** Saving and restoring the scratch directory *)

(** What [DoState] takes from the rest of the emulator. *)
Class Session : Type := {
  (** [File::GetUserPath(D_SESSION_WIIROOT_IDX)] *)
  WiiRoot : string;
  (** [DoStateShared] of the device base class, which runs before the
      scratch directory is handled and is defined outside src/. *)
  DoStateShared : PointerWrap.t → PointerWrap.t
}.

Section DoState.

Context `{!Session}.

Definition chunk_size : Z := 65536.
Arguments chunk_size : simpl never.

(** [char buf[65536]] *)
Definition fresh_buf : list Byte.byte := repeat Byte.x00 (Z.to_nat chunk_size).

(** The save side of a file record's payload: the loop over full chunks and
    the last, possibly short, chunk after it. *)
Fixpoint save_chunks (fuel : nat) (count : Z) (handle : option (list Byte.byte))
    (buf : list Byte.byte) (p : PointerWrap.t) : option PointerWrap.t :=
  if count >? chunk_size then
    match fuel with
    | O => None
    | S fuel' =>
        let '(buf, handle) := File.ReadArray handle (Z.to_nat chunk_size) buf in
        '(buf, p) ← PointerWrap.DoArray buf (Z.to_nat chunk_size) p;
        save_chunks fuel' (count - chunk_size) handle buf p
    end
  else
    let '(buf, handle) := File.ReadArray handle (Z.to_nat count) buf in
    '(buf, p) ← PointerWrap.DoArray buf (Z.to_nat count) p;
    Some p.

(** The restore side of a file record's payload. *)
Fixpoint restore_chunks (fuel : nat) (count : Z) (name : string) (good : bool)
    (buf : list Byte.byte) (p : PointerWrap.t) (fs : File.FS)
    : option (PointerWrap.t * File.FS) :=
  if count >? chunk_size then
    match fuel with
    | O => None
    | S fuel' =>
        '(buf, p) ← PointerWrap.DoArray buf (Z.to_nat chunk_size) p;
        let fs := File.WriteArray name good (take (Z.to_nat chunk_size) buf) fs in
        restore_chunks fuel' (count - chunk_size) name good buf p fs
    end
  else
    '(buf, p) ← PointerWrap.DoArray buf (Z.to_nat count) p;
    Some (p, File.WriteArray name good (take (Z.to_nat count) buf) fs).

(** Enough fuel for the chunk loop of a payload of [count] bytes. *)
Definition chunk_fuel (count : Z) : nat := Z.to_nat (count / chunk_size).

(** The restore loop, [while (1)]: one record per iteration. *)
Fixpoint restore_loop (fuel : nat) (Path : string) (p : PointerWrap.t)
    (fs : File.FS) : option (PointerWrap.t * File.FS) :=
  match fuel with
  | O => None
  | S fuel' =>
      '(type, p) ← PointerWrap.DoChar NUL p;
      if Ascii.eqb type NUL then Some (p, fs)
      else
        '(filename, p) ← PointerWrap.DoString EmptyString p;
        let name := (Path ++ DIR_SEP ++ filename)%string in
        if Ascii.eqb type "d" then
          restore_loop fuel' Path p (File.CreateDir name fs)
        else if Ascii.eqb type "f" then
          '(size, p) ← PointerWrap.DoU32 0 p;
          let '(fs, good) := File.IOFile_wb name fs in
          '(p, fs) ← restore_chunks (chunk_fuel size) size name good fresh_buf p fs;
          restore_loop fuel' Path p fs
        else restore_loop fuel' Path p fs
  end.

(** The save loop over the [todo] queue. *)
Fixpoint save_loop (fuel : nat) (Path : string) (fs : File.FS)
    (todo : list File.FSTEntry) (p : PointerWrap.t) : option PointerWrap.t :=
  match todo with
  | [] => Some p
  | entry :: todo_rest =>
      match fuel with
      | O => None
      | S fuel' =>
          let name :=
            erase_0 (String.length Path + 1) (File.physicalName entry) in
          let type : ascii := (if File.isDirectory entry then "d" else "f")%char in
          '(_, p) ← PointerWrap.DoChar type p;
          '(_, p) ← PointerWrap.DoString name p;
          if File.isDirectory entry then
            save_loop fuel' Path fs (todo_rest ++ File.children entry) p
          else
            '(size, p) ← PointerWrap.DoU32 (File.size entry) p;
            let handle := File.IOFile_rb fs (File.physicalName entry) in
            p ← save_chunks (chunk_fuel size) size handle fresh_buf p;
            save_loop fuel' Path fs todo_rest p
      end
  end.

(** The number of entries of a scanned tree, the root included. *)
Fixpoint entry_count (entry : File.FSTEntry) : nat :=
  match entry with
  | File.mkFSTEntry _ _ _ _ kids => S (list_sum (map entry_count kids))
  end.

Definition scratch_path : string := (WiiRoot ++ "/tmp")%string.

(** [CWII_IPC_HLE_Device_fs::DoState] *)
Definition DoState (p : PointerWrap.t) (fs : File.FS)
    : option (PointerWrap.t * File.FS) :=
  let p := DoStateShared p in
  let Path := scratch_path in
  match PointerWrap.GetMode p with
  | PointerWrap.MODE_READ =>
      let fs := File.DeleteDirRecursively Path fs in
      let fs := File.CreateDir Path fs in
      restore_loop (S (length (PointerWrap.stream p))) Path p fs
  | PointerWrap.MODE_WRITE =>
      let parentEntry := File.ScanDirectoryTree fs Path true in
      p ← save_loop (entry_count parentEntry) Path fs
            (File.children parentEntry) p;
      '(_, p) ← PointerWrap.DoChar NUL p;
      Some (p, fs)
  end.

End DoState.

(** ** The command dispatchers *)

(** [IsValidWiiPath]: [path.compare(0, 1, "/") == 0] *)
Definition IsValidWiiPath (path : string) : bool :=
  is_Eq (compare_0 path 1 "/").

(** [ComputeTotalFileSize]: the total size of the files below a directory. *)
Fixpoint ComputeTotalFileSize (parentEntry : File.FSTEntry) : Z :=
  match parentEntry with
  | File.mkFSTEntry _ _ _ _ kids =>
      fold_left
        (λ sizeOfFiles entry,
           if File.isDirectory entry
           then u64 (sizeOfFiles + ComputeTotalFileSize entry)
           else u64 (sizeOfFiles + File.size entry))
        kids 0
  end.

(** [std::sort] with the comparator [one.virtualName < two.virtualName].  The
    source leaves the order among entries of equal name open; only the names
    are used afterwards. *)
Fixpoint sort_insert (x : File.FSTEntry) (l : list File.FSTEntry)
    : list File.FSTEntry :=
  match l with
  | [] => [x]
  | y :: l' =>
      if String.ltb (File.virtualName x) (File.virtualName y) then x :: l
      else y :: sort_insert x l'
  end.

Definition std_sort (l : list File.FSTEntry) : list File.FSTEntry :=
  foldr sort_insert [] l.

Definition set_virtualName (name : string) (e : File.FSTEntry) : File.FSTEntry :=
  File.mkFSTEntry (File.isDirectory e) (File.size e) (File.physicalName e) name
    (File.children e).

(** The loop of READ_DIR that packs the names:
    [for (i = 0; i < entry.children.size() && i < MaxEntries; i++)]. *)
Fixpoint pack_names (kids : list File.FSTEntry) (i MaxEntries : Z)
    (numFiles pFilename : Z) (mem : Memory.t) : Z * Z * Memory.t :=
  match kids with
  | [] => (numFiles, pFilename, mem)
  | child :: rest =>
      if i <? MaxEntries then
        let FileName := File.virtualName child in
        let mem :=
          Memory.write_bytes pFilename (bytes_of_string (c_str FileName) ++ [0])
            mem in
        let pFilename := pFilename + Z.of_nat (String.length FileName) in
        let mem := Memory.Write_U8 0 pFilename mem in
        pack_names rest (i + 1) MaxEntries (numFiles + 1) (pFilename + 1) mem
      else (numFiles, pFilename, mem)
  end.

(** What the dispatchers take from the rest of the emulator.  None of it is
    under src/, and the development is parametric in it. *)
Class Platform : Type := {
  (** [HLE_IPC_BuildFilename]: the host path of a guest path. *)
  HLE_IPC_BuildFilename : string → string;
  (** [Common::UnescapeFileName] *)
  UnescapeFileName : string → string;
  (** [SystemTimers::GetTicksPerSecond()] *)
  TicksPerSecond : Z;
  (** The numbering of the opcodes: which enumerator, if any, a request
      number is. *)
  ioctl_of : Z → option Ioctl;
  (** Host primitives whose effect no property below depends on. *)
  CreateFullPath : string → File.FS → File.FS;
  Delete : string → File.FS → bool * File.FS;
  DeleteDir : string → File.FS → bool * File.FS;
  Rename : string → string → File.FS → bool * File.FS;
  CreateEmptyFile : string → File.FS → bool * File.FS
}.

Section Device.

Context `{!Platform}.

(** [GetFSReply] *)
Definition GetFSReply (return_value : ReturnCode) : IPCCommandResult :=
  mkIPCCommandResult return_value true (TicksPerSecond / 500).

Definition READ_DIR (request : IOSIOCtlVRequest) (mem : Memory.t)
    (fs : File.FS) : option (ReturnCode * Memory.t) :=
  in0 ← in_vectors request !! 0%nat;
  let relative_path :=
    Memory.GetString mem (IOVector.address in0) (IOVector.size in0) in
  if negb (IsValidWiiPath relative_path) then Some (FS_EINVAL, mem)
  else
    let DirName := HLE_IPC_BuildFilename relative_path in
    if negb (File.Exists fs DirName) then Some (FS_ENOENT, mem)
    else if negb (File.IsDirectory fs DirName) then Some (FS_EINVAL, mem)
    else
      let entry := File.ScanDirectoryTree fs DirName false in
      if (length (in_vectors request) =? 1)%nat
         && (length (io_vectors request) =? 1)%nat
      then
        io0 ← io_vectors request !! 0%nat;
        let numFile := Z.of_nat (length (File.children entry)) in
        Some (IPC_SUCCESS, Memory.Write_U32 (u32 numFile) (IOVector.address io0) mem)
      else
        let kids :=
          map (λ child, set_virtualName (UnescapeFileName (File.virtualName child)) child)
            (File.children entry) in
        let kids := std_sort kids in
        let MaxEntries := Memory.Read_U32 mem (IOVector.address in0) in
        io0 ← io_vectors request !! 0%nat;
        let mem := Memory.Memset (IOVector.address io0) 0 (IOVector.size io0) mem in
        let '(numFiles, _, mem) :=
          pack_names kids 0 MaxEntries 0 (IOVector.address io0) mem in
        io1 ← io_vectors request !! 1%nat;
        Some (IPC_SUCCESS, Memory.Write_U32 (u32 numFiles) (IOVector.address io1) mem).

Definition legacy_prefix (relativepath : string) : bool :=
  is_Eq (compare_0 relativepath 16 "/title/00010001")
  || is_Eq (compare_0 relativepath 16 "/title/00010005").

Definition GETUSAGE (request : IOSIOCtlVRequest) (mem : Memory.t)
    (fs : File.FS) : option (ReturnCode * Memory.t) :=
  in0 ← in_vectors request !! 0%nat;
  let relativepath :=
    Memory.GetString mem (IOVector.address in0) (IOVector.size in0) in
  if negb (IsValidWiiPath relativepath) then Some (FS_EINVAL, mem)
  else
    let path := HLE_IPC_BuildFilename relativepath in
    let '(fsBlocks, iNodes) :=
      if File.IsDirectory fs path then
        if legacy_prefix relativepath then (23, 42)
        else
          let parentDir := File.ScanDirectoryTree fs path true in
          let iNodes := u32 (1 + u32 (File.size parentDir)) in
          let totalSize := ComputeTotalFileSize parentDir in
          (u32 (totalSize / (16 * 1024)), iNodes)
      else (0, 0) in
    io0 ← io_vectors request !! 0%nat;
    io1 ← io_vectors request !! 1%nat;
    Some (IPC_SUCCESS,
          Memory.Write_U32 iNodes (IOVector.address io1)
            (Memory.Write_U32 fsBlocks (IOVector.address io0) mem)).

(** [CWII_IPC_HLE_Device_fs::IOCtlV].  [return_value] starts as
    [IPC_SUCCESS]; the default branch only records the unknown command.  An
    index past the end of a vector list is undefined in the source and gives
    no result here. *)
Definition IOCtlV (request : IOSIOCtlVRequest) (mem : Memory.t) (fs : File.FS)
    : option (IPCCommandResult * Memory.t) :=
  '(return_value, mem) ←
    match ioctl_of (ioctlv_request request) with
    | Some IOCTLV_READ_DIR => READ_DIR request mem fs
    | Some IOCTLV_GETUSAGE => GETUSAGE request mem fs
    | _ => Some (IPC_SUCCESS, mem)
    end;
  Some (GetFSReply return_value, mem).

Definition canned_stats : NANDStat :=
  mkNANDStat 0x4000 0x5DEC 0x1DD4 0x10 0x02F0 0x146B 0x0394.

(** [CWII_IPC_HLE_Device_fs::ExecuteCommand] *)
Definition ExecuteCommand (request : IOSIOCtlRequest) (mem : Memory.t)
    (fs : File.FS) : ReturnCode * Memory.t * File.FS :=
  match ioctl_of (ioctl_request request) with
  | Some IOCTL_GET_STATS =>
      if buffer_out_size request <? 0x1c then (S32Literal (-1017), mem, fs)
      else
        let stats := canned_stats in
        (IPC_SUCCESS,
         Memory.write_bytes (buffer_out request) (NANDStat_bytes stats) mem, fs)
  | Some IOCTL_CREATE_DIR =>
      let Addr := u32 (u32 (buffer_in request + 4) + 2) in
      let wii_path := Memory.GetString mem Addr 64 in
      if negb (IsValidWiiPath wii_path) then (FS_EINVAL, mem, fs)
      else
        let DirName := HLE_IPC_BuildFilename wii_path in
        let DirName := (DirName ++ DIR_SEP)%string in
        (IPC_SUCCESS, mem, CreateFullPath DirName fs)
  | Some IOCTL_SET_ATTR =>
      let Addr := u32 (u32 (buffer_in request + 4) + 2) in
      let wii_path := Memory.GetString mem Addr 64 in
      if negb (IsValidWiiPath wii_path) then (FS_EINVAL, mem, fs)
      else (IPC_SUCCESS, mem, fs)
  | Some IOCTL_GET_ATTR =>
      let OwnerID := 0 in
      let GroupID := 0x3031 in
      let wii_path := Memory.GetString mem (buffer_in request) 64 in
      if negb (IsValidWiiPath wii_path) then (FS_EINVAL, mem, fs)
      else
        let Filename := HLE_IPC_BuildFilename wii_path in
        let OwnerPerm := 3 in
        let GroupPerm := 3 in
        let OtherPerm := 3 in
        let Attributes := 0 in
        if negb (File.IsDirectory fs Filename || File.Exists fs Filename)
        then (FS_ENOENT, mem, fs)
        else if buffer_out_size request =? 76 then
          let Addr := buffer_out request in
          let mem := Memory.Write_U32 OwnerID Addr mem in
          let Addr := u32 (Addr + 4) in
          let mem := Memory.Write_U16 GroupID Addr mem in
          let Addr := u32 (Addr + 2) in
          let mem :=
            Memory.write_bytes Addr (Memory.read_bytes mem (buffer_in request) 64)
              mem in
          let Addr := u32 (Addr + 64) in
          let mem := Memory.Write_U8 OwnerPerm Addr mem in
          let Addr := u32 (Addr + 1) in
          let mem := Memory.Write_U8 GroupPerm Addr mem in
          let Addr := u32 (Addr + 1) in
          let mem := Memory.Write_U8 OtherPerm Addr mem in
          let Addr := u32 (Addr + 1) in
          let mem := Memory.Write_U8 Attributes Addr mem in
          (IPC_SUCCESS, mem, fs)
        else (IPC_SUCCESS, mem, fs)
  | Some IOCTL_DELETE_FILE =>
      let wii_path := Memory.GetString mem (u32 (buffer_in request + 0)) 64 in
      if negb (IsValidWiiPath wii_path) then (FS_EINVAL, mem, fs)
      else
        let Filename := HLE_IPC_BuildFilename wii_path in
        let '(deleted, fs) := Delete Filename fs in
        if deleted then (IPC_SUCCESS, mem, fs)
        else
          let '(_, fs) := DeleteDir Filename fs in
          (IPC_SUCCESS, mem, fs)
  | Some IOCTL_RENAME_FILE =>
      let wii_path := Memory.GetString mem (u32 (buffer_in request + 0)) 64 in
      if negb (IsValidWiiPath wii_path) then (FS_EINVAL, mem, fs)
      else
        let Filename := HLE_IPC_BuildFilename wii_path in
        let wii_path_rename :=
          Memory.GetString mem (u32 (buffer_in request + 64)) 64 in
        if negb (IsValidWiiPath wii_path_rename) then (FS_EINVAL, mem, fs)
        else
          let FilenameRename := HLE_IPC_BuildFilename wii_path_rename in
          let fs := CreateFullPath FilenameRename fs in
          let fs :=
            if File.Exists fs Filename && File.Exists fs FilenameRename
            then (Delete FilenameRename fs).2
            else fs in
          let '(renamed, fs) := Rename Filename FilenameRename fs in
          if renamed then (IPC_SUCCESS, mem, fs) else (FS_ENOENT, mem, fs)
  | Some IOCTL_CREATE_FILE =>
      let Addr := u32 (u32 (buffer_in request + 4) + 2) in
      let wii_path := Memory.GetString mem Addr 64 in
      if negb (IsValidWiiPath wii_path) then (FS_EINVAL, mem, fs)
      else
        let Filename := HLE_IPC_BuildFilename wii_path in
        if File.Exists fs Filename then (FS_EEXIST, mem, fs)
        else
          let fs := CreateFullPath Filename fs in
          let '(Result, fs) := CreateEmptyFile Filename fs in
          if negb Result then (FS_EINVAL, mem, fs)
          else (IPC_SUCCESS, mem, fs)
  | Some IOCTL_SHUTDOWN => (FS_EINVAL, mem, fs)
  | _ => (FS_EINVAL, mem, fs)
  end.

(** [CWII_IPC_HLE_Device_fs::IOCtl] *)
Definition IOCtl (request : IOSIOCtlRequest) (mem : Memory.t) (fs : File.FS)
    : IPCCommandResult * Memory.t * File.FS :=
  let mem := Memory.Memset (buffer_out request) 0 (buffer_out_size request) mem in
  let '(return_value, mem, fs) := ExecuteCommand request mem fs in
  (GetFSReply return_value, mem, fs).

End Device.

(** ** A concrete platform for the worked examples *)

(** The numbering of the opcodes used by the examples. *)
Definition example_ioctl_of (n : Z) : option Ioctl :=
  if n =? 0x02 then Some IOCTL_GET_STATS
  else if n =? 0x03 then Some IOCTL_CREATE_DIR
  else if n =? 0x04 then Some IOCTLV_READ_DIR
  else if n =? 0x05 then Some IOCTL_SET_ATTR
  else if n =? 0x06 then Some IOCTL_GET_ATTR
  else if n =? 0x07 then Some IOCTL_DELETE_FILE
  else if n =? 0x08 then Some IOCTL_RENAME_FILE
  else if n =? 0x09 then Some IOCTL_CREATE_FILE
  else if n =? 0x0C then Some IOCTLV_GETUSAGE
  else if n =? 0x0D then Some IOCTL_SHUTDOWN
  else None.

(** Guest paths are resolved under the host directory ["/wii"]; the host
    primitives that no property depends on do nothing. *)
Definition example_platform : Platform := {|
  HLE_IPC_BuildFilename := λ path, ("/wii" ++ path)%string;
  UnescapeFileName := λ name, name;
  TicksPerSecond := 729000000;
  ioctl_of := example_ioctl_of;
  CreateFullPath := λ _ fs, fs;
  Delete := λ _ fs, (false, fs);
  DeleteDir := λ _ fs, (false, fs);
  Rename := λ _ _ fs, (false, fs);
  CreateEmptyFile := λ _ fs, (false, fs)
|}.

(** Guest memory holding the bytes [l] from address [a] on and zero
    elsewhere. *)
Definition memory_with (a : Z) (l : list Z) : Memory.t :=
  Memory.write_bytes a l (λ _, 0).

Definition example_fs : File.FS :=
  list_to_map
    [ (""%string, File.Dir);
      ("/wii"%string, File.Dir);
      ("/wii/tmp"%string, File.Dir);
      ("/wii/tmp/a.bin"%string, File.Regular [Byte.x01; Byte.x02; Byte.x03]);
      ("/wii/tmp/sub"%string, File.Dir);
      ("/wii/tmp/sub/b.bin"%string, File.Regular [Byte.x04]);
      ("/wii/tmp/sub/empty"%string, File.Regular []);
      ("/wii/tmp/sub/deep"%string, File.Dir);
      ("/wii/tmp/sub/deep/c.bin"%string, File.Regular [Byte.x05; Byte.x06]) ].

Definition zero_memory : Memory.t := λ _, 0.

(** The input buffer of a CREATE_FILE request: owner, group, then the guest
    path ["/tmp/a.bin"]. *)
Definition create_file_memory : Memory.t :=
  memory_with 0x100 ([0; 0; 0; 0; 0; 0] ++ bytes_of_string "/tmp/a.bin").

(** The input buffer of a GET_ATTR request: the guest path ["/tmp/sub"]. *)
Definition get_attr_memory : Memory.t :=
  memory_with 0x100 (bytes_of_string "/tmp/sub").

(** ** What a scanned tree says about the file system *)

(** The entry describes what [fs] holds under its physical name. *)
Definition entry_ok (fs : File.FS) (e : File.FSTEntry) : Prop :=
  match fs !! File.physicalName e with
  | Some File.Dir => File.isDirectory e = true
  | Some (File.Regular data) =>
      File.isDirectory e = false
      ∧ File.size e = u64 (Z.of_nat (length data))
      ∧ File.children e = []
  | None => False
  end.

(** The children of [e] are the entries of [fs] directly inside it, and so
    on below every directory among them. *)
#[warnings="-register-all"]
Inductive scan_tree (fs : File.FS) : File.FSTEntry → Prop :=
  | scan_tree_intro e :
      (∀ k v, fs !! k = Some v →
              File.dirname k = Some (File.physicalName e) →
              ∃ c, c ∈ File.children e ∧ File.physicalName c = k) →
      Forall (λ c, entry_ok fs c
                   ∧ File.dirname (File.physicalName c)
                     = Some (File.physicalName e)
                   ∧ (File.isDirectory c = true → scan_tree fs c))
        (File.children e) →
      scan_tree fs e.

(** One child of a scan: the entry made for [kn] of the listing. *)
Definition scan_child (n : nat) (fs : File.FS) (r : bool)
    (kn : string * File.node) : File.FSTEntry :=
  let entry :=
    match kn.2 with
    | File.Dir =>
        match r, n with
        | true, S n' => File.ScanDirectoryTree_fuel n' fs kn.1 true
        | _, _ => File.mkFSTEntry true 0 kn.1 EmptyString []
        end
    | File.Regular data =>
        File.mkFSTEntry false (u64 (Z.of_nat (length data))) kn.1 EmptyString []
    end in
  File.mkFSTEntry (File.isDirectory entry) (File.size entry) kn.1
    (File.basename kn.1) (File.children entry).

(** ** The records of a snapshot stream *)

(** A record of the scratch part of the stream: a directory, a file with its
    declared length and its bytes, or the sentinel that ends the stream. *)
Inductive record : Type :=
  | Record_dir (name : string)
  | Record_file (name : string) (size : Z) (payload : list Byte.byte)
  | Sentinel.

Definition type_tag (r : record) : ascii :=
  match r with
  | Record_dir _ => "d"
  | Record_file _ _ _ => "f"
  | Sentinel => NUL
  end.

Definition record_items (r : record) : list PointerWrap.item :=
  match r with
  | Record_dir name => [PointerWrap.Char "d"; PointerWrap.Str name]
  | Record_file name size payload =>
      [PointerWrap.Char "f"; PointerWrap.Str name; PointerWrap.U32 size]
      ++ map PointerWrap.Byte payload
  | Sentinel => [PointerWrap.Char NUL]
  end.

Definition encode (recs : list record) : list PointerWrap.item :=
  recs ≫= record_items.

(** A file record declares the length of its payload, which fits 32 bits. *)
Definition record_wf (r : record) : Prop :=
  match r with
  | Record_file _ size payload =>
      size = Z.of_nat (length payload) ∧ 0 ≤ size < 2 ^ 32
  | Record_dir _ => True
  | Sentinel => False
  end.

(** The record the save loop writes for a scanned entry. *)
Definition record_of_entry (fs : File.FS) (Path : string) (e : File.FSTEntry)
    : record :=
  let name := erase_0 (String.length Path + 1) (File.physicalName e) in
  if File.isDirectory e then Record_dir name
  else
    let size := u32 (File.size e) in
    Record_file name size
      (take (Z.to_nat size) (default [] (File.IOFile_rb fs (File.physicalName e)))).

(** The order in which the save loop takes the entries off its queue. *)
Fixpoint bfs (fuel : nat) (todo : list File.FSTEntry) : list File.FSTEntry :=
  match todo with
  | [] => []
  | entry :: todo_rest =>
      match fuel with
      | O => []
      | S fuel' =>
          entry :: bfs fuel'
            (todo_rest ++ if File.isDirectory entry then File.children entry else [])
      end
  end.

(** What restoring one record does to the file system. *)
Definition apply_record (Path : string) (fs : File.FS) (r : record) : File.FS :=
  match r with
  | Record_dir name => File.CreateDir (Path ++ DIR_SEP ++ name) fs
  | Record_file name _ payload =>
      let name := (Path ++ DIR_SEP ++ name)%string in
      let '(fs, good) := File.IOFile_wb name fs in
      File.WriteArray name good payload fs
  | Sentinel => fs
  end.

(** A file as the stream carries it: the length field has 32 bits. *)
Definition trunc32 (v : File.node) : File.node :=
  match v with
  | File.Dir => File.Dir
  | File.Regular data =>
      File.Regular (take (Z.to_nat (u32 (u64 (Z.of_nat (length data))))) data)
  end.

(** Every entry of the list has its parent directory among [known] or among
    the directories before it in the list. *)
Fixpoint ordered (known : list string) (es : list File.FSTEntry) : Prop :=
  match es with
  | [] => True
  | e :: es' =>
      (∃ d, File.dirname (File.physicalName e) = Some d ∧ d ∈ known)
      ∧ ordered (if File.isDirectory e then File.physicalName e :: known else known) es'
  end.

(** The entries waiting in the queue of the save loop, with all below them. *)
Definition queue_count (todo : list File.FSTEntry) : nat :=
  list_sum (map entry_count todo).

(** What the save loop relies on for an entry of its queue. *)
Definition queue_ok (fs : File.FS) (e : File.FSTEntry) : Prop :=
  entry_ok fs e ∧ (File.isDirectory e = true → scan_tree fs e).

(** Below [Path], [fs'] holds nothing but what the stream carries of
    [fs]. *)
Definition agrees (fs : File.FS) (Path : string) (fs' : File.FS) : Prop :=
  ∀ k, File.below_rel Path k →
       fs' !! k = None ∨ fs' !! k = trunc32 <$> fs !! k.

(** An entry waiting in the queue: it describes [fs], it lies below [Path],
    and its parent is known to have been written already. *)
Definition pending (fs : File.FS) (Path : string) (known : list string)
    (e : File.FSTEntry) : Prop :=
  queue_ok fs e ∧ File.below_rel Path (File.physicalName e)
  ∧ ∃ d, File.dirname (File.physicalName e) = Some d ∧ d ∈ known.

(** The records [DoState] writes for the scratch directory of [fs], before
    the sentinel. *)
Definition scratch_records `{!Session} (fs : File.FS) : list record :=
  let parentEntry := File.ScanDirectoryTree fs scratch_path true in
  map (record_of_entry fs scratch_path)
    (bfs (entry_count parentEntry) (File.children parentEntry)).

(** The state in which the restore loop starts. *)
Definition wiped `{!Session} (fs : File.FS) : File.FS :=
  File.CreateDir scratch_path (File.DeleteDirRecursively scratch_path fs).

(** A check of [File.wf] that runs. *)
Definition wf_check (fs : File.FS) : bool :=
  forallb (λ kn, File.parent_is_directory fs kn.1) (map_to_list fs).

(** A check that no file of [fs] reaches 4 GiB. *)
Definition sizes_check (fs : File.FS) : bool :=
  forallb (λ kn, File.node_bytes kn.2 <? 2 ^ 32) (map_to_list fs).

(** A session rooted at ["/wii"] whose shared part of the stream is the
    device name. *)
Definition example_session : Session := {|
  WiiRoot := "/wii";
  DoStateShared := λ p,
    match PointerWrap.DoString "/dev/fs" p with
    | Some (_, p') => p'
    | None => p
    end
|}.

(** A scratch directory holding stale entries, as a restore may find it. *)
Definition stale_fs : File.FS :=
  list_to_map
    [ (""%string, File.Dir);
      ("/wii"%string, File.Dir);
      ("/wii/title"%string, File.Dir);
      ("/wii/tmp"%string, File.Dir);
      ("/wii/tmp/old.bin"%string, File.Regular [Byte.xff]);
      ("/wii/tmp/sub"%string, File.Dir);
      ("/wii/tmp/sub/b.bin"%string, File.Regular [Byte.xaa; Byte.xbb]) ].

(** A scratch directory with one file of the given content. *)
Definition big_fs (data : list Byte.byte) : File.FS :=
  list_to_map
    [ (""%string, File.Dir);
      ("/wii"%string, File.Dir);
      ("/wii/tmp"%string, File.Dir);
      ("/wii/tmp/big"%string, File.Regular data) ].

(** 4 GiB of zero bytes. *)
Definition four_GiB : list Byte.byte := repeat Byte.x00 (Z.to_nat (2 ^ 32)).

(** A scratch directory with files around the chunk size: 0, 1, 65536, 65537
    and 131072 bytes. *)
Definition chunky_fs : File.FS :=
  list_to_map
    [ (""%string, File.Dir);
      ("/wii"%string, File.Dir);
      ("/wii/tmp"%string, File.Dir);
      ("/wii/tmp/s0"%string, File.Regular []);
      ("/wii/tmp/s1"%string, File.Regular [Byte.x07]);
      ("/wii/tmp/d"%string, File.Dir);
      ("/wii/tmp/d/s65536"%string,
       File.Regular (repeat Byte.x2a (Z.to_nat 65536)));
      ("/wii/tmp/d/s65537"%string,
       File.Regular (repeat Byte.x2b (Z.to_nat 65537)));
      ("/wii/tmp/d/s131072"%string,
       File.Regular (repeat Byte.x2c (Z.to_nat 131072))) ].

(** Save [fs], then restore the stream into [fs']. *)
Definition save_then_restore `{!Session} (fs fs' : File.FS)
    : option (PointerWrap.t * File.FS) :=
  '(pw', _) ← DoState (PointerWrap.mk PointerWrap.MODE_WRITE []) fs;
  DoState (PointerWrap.mk PointerWrap.MODE_READ (PointerWrap.stream pw')) fs'.

(** The entries of [fs] below the scratch directory. *)
Definition scratch_entries `{!Session} (fs : File.FS) : File.FS :=
  filter (λ kn, File.below scratch_path kn.1 = true) fs.

(** Equality of entry lists, as a function that runs. *)
Definition node_eqb (a b : File.node) : bool :=
  match a, b with
  | File.Dir, File.Dir => true
  | File.Regular x, File.Regular y =>
      (length x =? length y)%nat
      && forallb (λ xy, Strings.Byte.eqb xy.1 xy.2) (combine x y)
  | _, _ => false
  end.

Definition entries_eqb (l1 l2 : list (string * File.node)) : bool :=
  (length l1 =? length l2)%nat
  && forallb (λ ab, String.eqb ab.1.1 ab.2.1 && node_eqb ab.1.2 ab.2.2)
       (combine l1 l2).

(** Both totals of one scanned child agree with the entries of [fs]. *)
Definition child_totals_ok (fs : File.FS) (e : File.FSTEntry)
    (kn : string * File.node) : Prop :=
  (if File.isDirectory e then File.size e else 0)
  = u64 (Z.of_nat (length (File.entries_below fs kn.1)))
  ∧ (if File.isDirectory e then ComputeTotalFileSize e else File.size e)
    = u64 (File.node_bytes kn.2 + File.descendant_bytes fs kn.1).

(** The input of a GETUSAGE or READ_DIR request for the guest path [path]:
    the path at address 0x100 and two four-byte outputs. *)
Definition path_memory (path : string) : Memory.t :=
  memory_with 0x100 (bytes_of_string path).

Definition usage_request : IOSIOCtlVRequest :=
  mkIOSIOCtlVRequest 0x0C [IOVector.mk 0x100 64]
    [IOVector.mk 0x200 4; IOVector.mk 0x204 4].

(** The two numbers a GETUSAGE reply leaves in the output buffers. *)
Definition usage_reply `{!Platform} (request : IOSIOCtlVRequest)
    (mem : Memory.t) (fs : File.FS) : option (ReturnCode * Z * Z) :=
  '(r, mem') ← IOCtlV request mem fs;
  io0 ← io_vectors request !! 0%nat;
  io1 ← io_vectors request !! 1%nat;
  Some (return_value r,
        Memory.Read_U32 mem' (IOVector.address io0),
        Memory.Read_U32 mem' (IOVector.address io1)).

(** A title directory below a legacy prefix, holding one file. *)
Definition title_fs : File.FS :=
  list_to_map
    [ (""%string, File.Dir);
      ("/wii"%string, File.Dir);
      ("/wii/title"%string, File.Dir);
      ("/wii/title/00010001"%string, File.Dir);
      ("/wii/title/00010001/data"%string, File.Dir);
      ("/wii/title/00010001/data/save.bin"%string,
       File.Regular [Byte.x01; Byte.x02]) ].

(** 64 TiB of zero bytes. *)
Definition sixty_four_TiB : list Byte.byte :=
  repeat Byte.x00 (Z.to_nat (2 ^ 46)).

(** ** What READ_DIR leaves in the names buffer *)

(** The names, each followed by a NUL, one after the other. *)
Definition packed (names : list string) : list Z :=
  names ≫= (λ name, bytes_of_string name ++ [0]).

(** The string holds no NUL character. *)
Definition no_NUL (s : string) : Prop := c_str s = s.

(** The unescaped names of the entries directly inside [directory]. *)
Definition child_names `{!Platform} (fs : File.FS) (directory : string)
    : list string :=
  map (λ kn, UnescapeFileName (File.basename kn.1)) (File.listing fs directory).

(** A directory whose entries are not listed in order by the host. *)
Definition listing_fs : File.FS :=
  list_to_map
    [ (""%string, File.Dir);
      ("/wii"%string, File.Dir);
      ("/wii/tmp"%string, File.Dir);
      ("/wii/tmp/delta"%string, File.Regular []);
      ("/wii/tmp/alpha"%string, File.Dir);
      ("/wii/tmp/alpha/inner"%string, File.Regular [Byte.x01]);
      ("/wii/tmp/charlie"%string, File.Regular [Byte.x02]);
      ("/wii/tmp/bravo"%string, File.Dir) ].

(** A READ_DIR request in listing mode: the path at 0x100, the names buffer
    of 64 bytes at 0x200 and the count at 0x300. *)
Definition listing_request : IOSIOCtlVRequest :=
  mkIOSIOCtlVRequest 0x04 [IOVector.mk 0x100 64]
    [IOVector.mk 0x200 64; IOVector.mk 0x300 4].

(** The bytes a READ_DIR reply leaves in its names buffer and the count in
    its second output. *)
Definition listing_reply `{!Platform} (request : IOSIOCtlVRequest)
    (mem : Memory.t) (fs : File.FS) (n : nat)
    : option (ReturnCode * list Z * Z) :=
  '(r, mem') ← IOCtlV request mem fs;
  io0 ← io_vectors request !! 0%nat;
  io1 ← io_vectors request !! 1%nat;
  Some (return_value r,
        Memory.read_bytes mem' (IOVector.address io0) n,
        Memory.Read_U32 mem' (IOVector.address io1)).
(** ** Opening the device *)

(** [CWII_IPC_HLE_Device_fs::Open]: the scratch directory of the guest is
    cleared and the device becomes active ([m_is_active]).  The request is
    not looked at. *)
Definition Open `{!Platform} (fs : File.FS) : ReturnCode * bool * File.FS :=
  let Path := HLE_IPC_BuildFilename "/tmp" in
  let fs := File.DeleteDirRecursively Path fs in
  let fs := File.CreateDir Path fs in
  let m_is_active := true in
  (IPC_SUCCESS, m_is_active, fs).

(** ** The guest path of a scalar command *)

(** The guest path [ExecuteCommand] reads first, for the commands that take
    one: behind the owner and group identifiers for CREATE_DIR, SET_ATTR and
    CREATE_FILE, at the start of the input buffer for the others. *)
Definition wii_path_of (op : Ioctl) (request : IOSIOCtlRequest)
    (mem : Memory.t) : option string :=
  match op with
  | IOCTL_CREATE_DIR | IOCTL_SET_ATTR | IOCTL_CREATE_FILE =>
      Some (Memory.GetString mem (u32 (u32 (buffer_in request + 4) + 2)) 64)
  | IOCTL_GET_ATTR => Some (Memory.GetString mem (buffer_in request) 64)
  | IOCTL_DELETE_FILE | IOCTL_RENAME_FILE =>
      Some (Memory.GetString mem (u32 (buffer_in request + 0)) 64)
  | _ => None
  end.

(** The input buffer of a scalar command whose guest path, ["tmp/a.bin"],
    lacks the leading separator. *)
Definition bad_path_memory : Memory.t :=
  memory_with 0x100 (bytes_of_string "tmp/a.bin").

(** The input buffer of a RENAME_FILE request: the source ["/tmp/a.bin"] and,
    64 bytes on, the destination ["b.bin"]. *)
Definition rename_memory : Memory.t :=
  Memory.write_bytes 0x140 (bytes_of_string "b.bin")
    (memory_with 0x100 (bytes_of_string "/tmp/a.bin")).

(** The input buffer of a SET_ATTR request for a path the host does not
    have. *)
Definition set_attr_memory : Memory.t :=
  memory_with 0x100 ([0; 0; 0; 0; 0; 0] ++ bytes_of_string "/tmp/nothing").

(** A READ_DIR request in counting mode: one input with the path at 0x100,
    one four-byte output at 0x200. *)
Definition count_request : IOSIOCtlVRequest :=
  mkIOSIOCtlVRequest 0x04 [IOVector.mk 0x100 64] [IOVector.mk 0x200 4].

(** A READ_DIR request in listing mode that names a cap: the path at 0x100,
    the cap in a second input at 0x180, the names buffer of 64 bytes at 0x200
    and the count at 0x300. *)
Definition capped_request : IOSIOCtlVRequest :=
  mkIOSIOCtlVRequest 0x04 [IOVector.mk 0x100 64; IOVector.mk 0x180 4]
    [IOVector.mk 0x200 64; IOVector.mk 0x300 4].

(** Guest memory for [capped_request]: the path ["/tmp"] and the cap 2. *)
Definition capped_memory : Memory.t :=
  Memory.write_bytes 0x180 [0; 0; 0; 2] (path_memory "/tmp").

(** ** The files of a scanned tree *)

(** The sizes of the files of a scanned tree, at any depth, in the order in
    which [ComputeTotalFileSize] meets them. *)
Fixpoint file_sizes (parentEntry : File.FSTEntry) : list Z :=
  match parentEntry with
  | File.mkFSTEntry _ _ _ _ kids =>
      flat_map
        (λ entry,
           if File.isDirectory entry then file_sizes entry
           else [File.size entry])
        kids
  end.

(** A scanned tree as GETUSAGE may be handed one: two files at the top and
    one inside a directory whose own size field is not their sum. *)
Definition example_tree : File.FSTEntry :=
  File.mkFSTEntry true 4 "/wii/tmp" ""
    [ File.mkFSTEntry false 3 "/wii/tmp/a.bin" "a.bin" [];
      File.mkFSTEntry true 99 "/wii/tmp/sub" "sub"
        [ File.mkFSTEntry false 16384 "/wii/tmp/sub/b.bin" "b.bin" [] ];
      File.mkFSTEntry false 5 "/wii/tmp/c.bin" "c.bin" [] ].

(** ** What the records of a snapshot say *)

(** The name a record carries, relative to the scratch directory. *)
Definition record_name (r : record) : string :=
  match r with
  | Record_dir name => name
  | Record_file name _ _ => name
  | Sentinel => EmptyString
  end.

(** The record is the one of the entry of [fs] it names: a directory
    record for a directory; for a file the length, as far as 32 bits hold
    it, and that many of the first bytes of the file. *)
Definition record_describes (fs : File.FS) (Path : string) (r : record) : Prop :=
  match r with
  | Record_dir name => fs !! (Path ++ DIR_SEP ++ name)%string = Some File.Dir
  | Record_file name size payload =>
      ∃ data,
        fs !! (Path ++ DIR_SEP ++ name)%string = Some (File.Regular data)
        ∧ size = u32 (Z.of_nat (length data))
        ∧ payload = take (Z.to_nat size) data
  | Sentinel => False
  end.

(** What a file system holds under a path after a save and a restore: a
    directory as it is, a file cut to its length modulo 2^32. *)
Definition carried (entry : option File.node) : option File.node :=
  match entry with
  | Some File.Dir => Some File.Dir
  | Some (File.Regular data) =>
      Some (File.Regular (take (Z.to_nat (Z.of_nat (length data) mod 2 ^ 32)) data))
  | None => None
  end.

(** ** Bringing the hardware up and down *)

(** [HW::Init] and [HW::Shutdown] of [Core/HW/HW.cpp] do nothing but call
    into the subsystems of the emulator, none of which is under src/.  A run
    of either is the sequence of the calls it makes, each with the argument
    it is given. *)
Module HW.

Inductive Subsystem : Type :=
  | CoreTiming
  | SystemTimers
  | State
  | AudioInterface
  | VideoInterface
  | SerialInterface
  | ProcessorInterface
  | ExpansionInterface
  | Memory
  | DSP
  | DVDInterface
  | GPFifo
  | CPU
  | WiiRoot
  | cUIDsys
  | CSharedContent
  | IOS
  | IOS_HLE.

Inductive Action : Type :=
  | CallInit
  | CallPreInit
  | CallUpdateLocation
  | CallShutdown.

Inductive Argument : Type :=
  | NoArgument
  | Flag (b : bool)
  | Number (z : Z).

Record Call : Type := mkCall {
  target : Subsystem;
  action : Action;
  argument : Argument
}.

#[global] Instance Subsystem_eq_dec : EqDecision Subsystem.
Proof. solve_decision. Defined.

#[global] Instance Action_eq_dec : EqDecision Action.
Proof. solve_decision. Defined.

(** What the two functions read of [SConfig::GetInstance()]. *)
Record SConfig : Type := mkSConfig {
  bDSPHLE : bool;
  iCPUCore : Z;
  bWii : bool
}.

(** [HW::Init] *)
Definition Init (config : SConfig) (g_want_determinism : bool) : list Call :=
  [ mkCall CoreTiming CallInit NoArgument;
    mkCall SystemTimers CallPreInit NoArgument;
    mkCall State CallInit NoArgument;
    mkCall AudioInterface CallInit NoArgument;
    mkCall VideoInterface CallInit NoArgument;
    mkCall SerialInterface CallInit NoArgument;
    mkCall ProcessorInterface CallInit NoArgument;
    mkCall ExpansionInterface CallInit NoArgument;
    mkCall Memory CallInit NoArgument;
    mkCall DSP CallInit (Flag (bDSPHLE config));
    mkCall DVDInterface CallInit NoArgument;
    mkCall GPFifo CallInit NoArgument;
    mkCall CPU CallInit (Number (iCPUCore config));
    mkCall SystemTimers CallInit NoArgument ]
  ++ (if bWii config then
        [ mkCall WiiRoot CallInit (Flag g_want_determinism);
          mkCall cUIDsys CallUpdateLocation NoArgument;
          mkCall CSharedContent CallUpdateLocation NoArgument;
          mkCall IOS CallInit NoArgument;
          mkCall IOS_HLE CallInit NoArgument ]
      else []).

(** [HW::Shutdown] *)
Definition Shutdown (config : SConfig) : list Call :=
  (if bWii config then
     [ mkCall IOS_HLE CallShutdown NoArgument;
       mkCall IOS CallShutdown NoArgument;
       mkCall WiiRoot CallShutdown NoArgument ]
   else [])
  ++ [ mkCall SystemTimers CallShutdown NoArgument;
       mkCall CPU CallShutdown NoArgument;
       mkCall DVDInterface CallShutdown NoArgument;
       mkCall DSP CallShutdown NoArgument;
       mkCall Memory CallShutdown NoArgument;
       mkCall ExpansionInterface CallShutdown NoArgument;
       mkCall SerialInterface CallShutdown NoArgument;
       mkCall AudioInterface CallShutdown NoArgument;
       mkCall State CallShutdown NoArgument;
       mkCall CoreTiming CallShutdown NoArgument ].

(** The subsystems a run initialises, in order. *)
Definition initialised (calls : list Call) : list Subsystem :=
  map target (filter (λ c, action c = CallInit) calls).

End HW.


(** * Properties *)

(** ** Guest memory *)

Lemma u8_range (z : Z) : 0 ≤ u8 z < 256.
Proof. unfold u8. apply Z.mod_pos_bound. lia. Qed.

Lemma u8_u8 (z : Z) : u8 (u8 z) = u8 z.
Proof. unfold u8. apply Zmod_mod. Qed.

Lemma u8_small (z : Z) : 0 ≤ z < 256 → u8 z = z.
Proof. intros. unfold u8. apply Z.mod_small. lia. Qed.

Lemma write_bytes_below (l : list Z) (a x : Z) (m : Memory.t) :
  x < a → Memory.write_bytes a l m x = m x.
Proof.
  revert a m. induction l as [|b l IH]; intros a m Hx; simpl; [done|].
  rewrite IH by lia. unfold Memory.Write_U8.
  destruct (Z.eqb_spec x a); [lia|done].
Qed.

Lemma write_bytes_above (l : list Z) (a x : Z) (m : Memory.t) :
  a + Z.of_nat (length l) ≤ x → Memory.write_bytes a l m x = m x.
Proof.
  revert a m. induction l as [|b l IH]; intros a m Hx; simpl in *; [done|].
  rewrite IH by lia. unfold Memory.Write_U8.
  destruct (Z.eqb_spec x a); [lia|done].
Qed.

Lemma read_write_bytes (l : list Z) (a : Z) (m : Memory.t) :
  Memory.read_bytes (Memory.write_bytes a l m) a (length l) = map u8 l.
Proof.
  revert a m. induction l as [|b l IH]; intros a m; simpl; [done|].
  f_equal.
  - unfold Memory.Read_U8. rewrite write_bytes_below by lia.
    unfold Memory.Write_U8. rewrite Z.eqb_refl. apply u8_u8.
  - apply IH.
Qed.

Lemma read_bytes_app (m : Memory.t) (a : Z) (n k : nat) :
  Memory.read_bytes m a (n + k) =
  Memory.read_bytes m a n ++ Memory.read_bytes m (a + Z.of_nat n) k.
Proof.
  revert a. induction n as [|n IH]; intros a; simpl.
  - by rewrite Z.add_0_r.
  - f_equal. rewrite IH. do 2 f_equal. lia.
Qed.

Lemma read_bytes_length (m : Memory.t) (a : Z) (n : nat) :
  length (Memory.read_bytes m a n) = n.
Proof. revert a. induction n; intros; simpl; auto. Qed.

Lemma read_write_bytes_slice (l : list Z) (a : Z) (m : Memory.t) (i n : nat) :
  (i + n ≤ length l)%nat →
  Memory.read_bytes (Memory.write_bytes a l m) (a + Z.of_nat i) n =
  map u8 (take n (drop i l)).
Proof.
  intros Hin.
  pose proof (read_write_bytes l a m) as Hall.
  replace (length l) with (i + (n + (length l - i - n)))%nat in Hall by lia.
  rewrite !read_bytes_app in Hall.
  apply (f_equal (λ x, take n (drop i x))) in Hall.
  rewrite drop_app_length' in Hall by (symmetry; apply read_bytes_length).
  rewrite take_app_length' in Hall by (symmetry; apply read_bytes_length).
  rewrite Hall. by rewrite <- fmap_drop, <- fmap_take.
Qed.

(** A word as [Read_U32] reads it, from its four bytes. *)
Lemma Read_U32_read_bytes (m : Memory.t) (a : Z) :
  Memory.Read_U32 m a =
  match Memory.read_bytes m a 4 with
  | [b0; b1; b2; b3] => b0 * 2 ^ 24 + b1 * 2 ^ 16 + b2 * 2 ^ 8 + b3
  | _ => 0
  end.
Proof.
  cbn [Memory.read_bytes]. unfold Memory.Read_U32.
  replace (a + 1 + 1) with (a + 2) by lia.
  replace (a + 2 + 1) with (a + 3) by lia. reflexivity.
Qed.

(** ** The scalar dispatcher *)

Section ScalarDispatcher.

Context `{!Platform}.

Lemma IOCtl_unfold (request : IOSIOCtlRequest) (mem : Memory.t) (fs : File.FS) :
  IOCtl request mem fs =
  let mem1 :=
    Memory.Memset (buffer_out request) 0 (buffer_out_size request) mem in
  let r := ExecuteCommand request mem1 fs in
  (GetFSReply r.1.1, r.1.2, r.2).
Proof. unfold IOCtl. simpl. by destruct (ExecuteCommand _ _ _) as [[??]?]. Qed.

(** C7 (the code at a GET_STATS request).  An output buffer of fewer than 28
    bytes gives the code -1017 and only the zero fill reaches memory.  With 28
    bytes or more the command succeeds, whatever the file system holds, and
    copies the record blockSize=0x4000, freeUserBlocks=0x5DEC,
    usedUserBlocks=0x1DD4, freeSysBlocks=0x10, usedSysBlocks=0x02F0,
    freeInodes=0x146B, usedInodes=0x0394 to the output buffer as the host
    holds it in its own memory, every field with its least significant byte
    first.  The guest reads a word with its most significant byte first, as
    [Read_U32] does and as every other reply of this device is written: it
    finds every field with its bytes reversed, blockSize as 0x00400000 and
    not as 0x4000. *)
Theorem GET_STATS_reply (request : IOSIOCtlRequest) (mem : Memory.t)
    (fs : File.FS) :
  ioctl_of (ioctl_request request) = Some IOCTL_GET_STATS →
  (buffer_out_size request < 28 →
     IOCtl request mem fs =
     (GetFSReply (S32Literal (-1017)),
      Memory.Memset (buffer_out request) 0 (buffer_out_size request) mem, fs))
  ∧ (28 ≤ buffer_out_size request →
     ∃ mem',
       IOCtl request mem fs = (GetFSReply IPC_SUCCESS, mem', fs)
       ∧ Memory.read_bytes mem' (buffer_out request) 28 =
         [ 0x00; 0x40; 0x00; 0x00;  0xEC; 0x5D; 0x00; 0x00;
           0xD4; 0x1D; 0x00; 0x00;  0x10; 0x00; 0x00; 0x00;
           0xF0; 0x02; 0x00; 0x00;  0x6B; 0x14; 0x00; 0x00;
           0x94; 0x03; 0x00; 0x00 ]
       ∧ stats_words mem' (buffer_out request) =
         [ 0x00400000; 0xEC5D0000; 0xD41D0000; 0x10000000; 0xF0020000;
           0x6B140000; 0x94030000 ]
       ∧ stats_words mem' (buffer_out request) ≠
         [ 0x4000; 0x5DEC; 0x1DD4; 0x10; 0x02F0; 0x146B; 0x0394 ]
       ∧ (∀ x, x < buffer_out request ∨ buffer_out request + 28 ≤ x →
            mem' x =
            Memory.Memset (buffer_out request) 0 (buffer_out_size request) mem x)).
Proof.
  intros Hop. rewrite IOCtl_unfold. unfold ExecuteCommand. rewrite Hop.
  cbv beta iota zeta.
  split; intros Hsize.
  - destruct (Z.ltb_spec (buffer_out_size request) 28); [done|lia].
  - destruct (Z.ltb_spec (buffer_out_size request) 28); [lia|]. cbn [fst snd].
    set (mem1 := Memory.Memset _ _ _ mem).
    set (mem' := Memory.write_bytes (buffer_out request)
                   (NANDStat_bytes canned_stats) mem1).
    assert (Hwords : stats_words mem' (buffer_out request) =
                     [ 0x00400000; 0xEC5D0000; 0xD41D0000; 0x10000000;
                       0xF0020000; 0x6B140000; 0x94030000 ]).
    { unfold stats_words. cbn [map].
      change (4 * 0) with (Z.of_nat 0). change (4 * 1) with (Z.of_nat 4).
      change (4 * 2) with (Z.of_nat 8). change (4 * 3) with (Z.of_nat 12).
      change (4 * 4) with (Z.of_nat 16). change (4 * 5) with (Z.of_nat 20).
      change (4 * 6) with (Z.of_nat 24).
      rewrite !Read_U32_read_bytes. subst mem'.
      rewrite !read_write_bytes_slice by (simpl; lia). reflexivity. }
    exists mem'. split; [reflexivity|]. split; [|split; [|split]].
    + subst mem'.
      change 28%nat with (length (NANDStat_bytes canned_stats)).
      rewrite read_write_bytes. reflexivity.
    + exact Hwords.
    + rewrite Hwords. discriminate.
    + intros x Hx. subst mem'. destruct Hx.
      * by apply write_bytes_below.
      * apply write_bytes_above. simpl. lia.
Qed.

(** C8 (the code at a SHUTDOWN request).  The SHUTDOWN case leaves the
    switch without a result of its own and reaches the final
    [return FS_EINVAL]: the reply carries the invalid-argument code. *)
Theorem SHUTDOWN_result (request : IOSIOCtlRequest) (mem : Memory.t)
    (fs : File.FS) :
  ioctl_of (ioctl_request request) = Some IOCTL_SHUTDOWN →
  IOCtl request mem fs =
  (GetFSReply FS_EINVAL,
   Memory.Memset (buffer_out request) 0 (buffer_out_size request) mem, fs)
  ∧ return_value (GetFSReply FS_EINVAL) ≠ IPC_SUCCESS.
Proof.
  intros Hop. rewrite IOCtl_unfold. unfold ExecuteCommand. rewrite Hop.
  split; [reflexivity|discriminate].
Qed.

(** C9. CREATE_FILE on a valid guest path whose host path exists: the result
    is FS_EEXIST and the host file system is returned as it was. *)
Theorem CREATE_FILE_exists (request : IOSIOCtlRequest) (mem : Memory.t)
    (fs : File.FS) :
  let mem1 :=
    Memory.Memset (buffer_out request) 0 (buffer_out_size request) mem in
  let wii_path :=
    Memory.GetString mem1 (u32 (u32 (buffer_in request + 4) + 2)) 64 in
  ioctl_of (ioctl_request request) = Some IOCTL_CREATE_FILE →
  IsValidWiiPath wii_path = true →
  File.Exists fs (HLE_IPC_BuildFilename wii_path) = true →
  IOCtl request mem fs = (GetFSReply FS_EEXIST, mem1, fs).
Proof.
  intros mem1 wii_path Hop Hvalid Hex. rewrite IOCtl_unfold.
  unfold ExecuteCommand. rewrite Hop. cbv beta iota zeta.
  fold mem1. fold wii_path. rewrite Hvalid, Hex. reflexivity.
Qed.

(** C10. GET_ATTR on a valid guest path of an existing file or directory
    with an output buffer that is not 76 bytes long: the command succeeds and
    nothing but the zero fill made before the dispatch reaches memory. *)
Theorem GET_ATTR_wrong_size (request : IOSIOCtlRequest) (mem : Memory.t)
    (fs : File.FS) :
  let mem1 :=
    Memory.Memset (buffer_out request) 0 (buffer_out_size request) mem in
  let wii_path := Memory.GetString mem1 (buffer_in request) 64 in
  ioctl_of (ioctl_request request) = Some IOCTL_GET_ATTR →
  IsValidWiiPath wii_path = true →
  File.Exists fs (HLE_IPC_BuildFilename wii_path) = true →
  buffer_out_size request ≠ 76 →
  IOCtl request mem fs = (GetFSReply IPC_SUCCESS, mem1, fs).
Proof.
  intros mem1 wii_path Hop Hvalid Hex Hsize. rewrite IOCtl_unfold.
  unfold ExecuteCommand. rewrite Hop. cbv beta iota zeta.
  fold mem1. fold wii_path. rewrite Hvalid, Hex, orb_true_r.
  destruct (Z.eqb_spec (buffer_out_size request) 76); [lia|reflexivity].
Qed.

End ScalarDispatcher.

(** ** Unknown opcodes *)

(** C3 (the code at an unknown opcode).  For a request number that is none
    of the opcodes, the scalar dispatcher answers FS_EINVAL.  The vectored
    dispatcher does not: its default branch only records the unknown command
    and sets no result, so the reply carries the IPC_SUCCESS its result
    starts from. *)
Theorem unknown_opcode_results `{!Platform} (request : IOSIOCtlRequest)
    (vrequest : IOSIOCtlVRequest) (mem : Memory.t) (fs : File.FS) :
  ioctl_of (ioctl_request request) = None →
  ioctl_of (ioctlv_request vrequest) = None →
  IOCtl request mem fs =
  (GetFSReply FS_EINVAL,
   Memory.Memset (buffer_out request) 0 (buffer_out_size request) mem, fs)
  ∧ IOCtlV vrequest mem fs = Some (GetFSReply IPC_SUCCESS, mem).
Proof.
  intros Hs Hv. split.
  - rewrite IOCtl_unfold. unfold ExecuteCommand. by rewrite Hs.
  - unfold IOCtlV. by rewrite Hv.
Qed.

(** ** Worked examples for the dispatchers *)

Lemma unknown_opcode_results_witness :
  IOCtl (H := example_platform) (mkIOSIOCtlRequest 0xFF 0 0 0 0) zero_memory ∅ =
  (GetFSReply (H := example_platform) FS_EINVAL,
   Memory.Memset 0 0 0 zero_memory, ∅)
  ∧ IOCtlV (H := example_platform) (mkIOSIOCtlVRequest 0xFF [] []) zero_memory ∅ =
    Some (GetFSReply (H := example_platform) IPC_SUCCESS, zero_memory).
Proof.
  apply (unknown_opcode_results (H := example_platform)
           (mkIOSIOCtlRequest 0xFF 0 0 0 0) (mkIOSIOCtlVRequest 0xFF [] []));
    reflexivity.
Defined.

(** On the request number 0xFF, which is no opcode, the vectored dispatcher
    returns IPC_SUCCESS, not FS_EINVAL. *)
Lemma IOCtlV_unknown_opcode_not_EINVAL :
  @ioctl_of example_platform 0xFF = None
  ∧ (IOCtlV (H := example_platform) (mkIOSIOCtlVRequest 0xFF [] [])
       zero_memory ∅) ≫= (λ r, Some (return_value r.1)) = Some IPC_SUCCESS
  ∧ IPC_SUCCESS ≠ FS_EINVAL.
Proof. split; [reflexivity|]. split; [reflexivity|discriminate]. Qed.

Lemma GET_STATS_reply_witness :
  IOCtl (H := example_platform) (mkIOSIOCtlRequest 0x02 0 0 0x1000 10)
    zero_memory ∅ =
  (GetFSReply (H := example_platform) (S32Literal (-1017)),
   Memory.Memset 0x1000 0 10 zero_memory, ∅)
  ∧ ∃ mem',
      IOCtl (H := example_platform) (mkIOSIOCtlRequest 0x02 0 0 0x1000 28)
        zero_memory ∅ =
      (GetFSReply (H := example_platform) IPC_SUCCESS, mem', ∅)
      ∧ stats_words mem' 0x1000 =
        [ 0x00400000; 0xEC5D0000; 0xD41D0000; 0x10000000; 0xF0020000;
          0x6B140000; 0x94030000 ]
      ∧ Memory.Read_U32 mem' 0x1000 = 0x00400000.
Proof.
  split.
  - apply (GET_STATS_reply (H := example_platform)
             (mkIOSIOCtlRequest 0x02 0 0 0x1000 10) zero_memory ∅);
      [reflexivity | simpl; lia].
  - destruct (GET_STATS_reply (H := example_platform)
                (mkIOSIOCtlRequest 0x02 0 0 0x1000 28) zero_memory ∅ eq_refl)
      as [_ Hge].
    destruct Hge as (mem' & Hrun & _ & Hwords & _); [simpl; lia|].
    exists mem'. split; [exact Hrun|]. split; [exact Hwords|].
    injection Hwords as Hword _. simpl in Hword.
    replace (4096 + 0) with 4096 in Hword by reflexivity. exact Hword.
Defined.

Lemma SHUTDOWN_result_witness :
  IOCtl (H := example_platform) (mkIOSIOCtlRequest 0x0D 0 0 0 0) zero_memory ∅ =
  (GetFSReply (H := example_platform) FS_EINVAL,
   Memory.Memset 0 0 0 zero_memory, ∅)
  ∧ return_value (GetFSReply (H := example_platform) FS_EINVAL) ≠ IPC_SUCCESS.
Proof.
  apply (SHUTDOWN_result (H := example_platform)
           (mkIOSIOCtlRequest 0x0D 0 0 0 0) zero_memory ∅).
  reflexivity.
Defined.

Lemma CREATE_FILE_exists_witness :
  IOCtl (H := example_platform) (mkIOSIOCtlRequest 0x09 0x100 76 0 0)
    create_file_memory example_fs =
  (GetFSReply (H := example_platform) FS_EEXIST,
   Memory.Memset 0 0 0 create_file_memory, example_fs).
Proof.
  apply (CREATE_FILE_exists (H := example_platform)
           (mkIOSIOCtlRequest 0x09 0x100 76 0 0) create_file_memory example_fs);
    vm_compute; reflexivity.
Defined.

Lemma GET_ATTR_wrong_size_witness :
  IOCtl (H := example_platform) (mkIOSIOCtlRequest 0x06 0x100 64 0x200 32)
    get_attr_memory example_fs =
  (GetFSReply (H := example_platform) IPC_SUCCESS,
   Memory.Memset 0x200 0 32 get_attr_memory, example_fs).
Proof.
  apply (GET_ATTR_wrong_size (H := example_platform)
           (mkIOSIOCtlRequest 0x06 0x100 64 0x200 32) get_attr_memory example_fs);
    [vm_compute; reflexivity | vm_compute; reflexivity
    | vm_compute; reflexivity | simpl; lia].
Defined.

(** ** Paths *)

Lemma append_nil_l (b : string) : (EmptyString ++ b)%string = b.
Proof. reflexivity. Qed.

Lemma append_cons (c : ascii) (a b : string) :
  (String c a ++ b)%string = String c (a ++ b).
Proof. reflexivity. Qed.

Lemma append_assoc (a b c : string) :
  ((a ++ b) ++ c)%string = (a ++ b ++ c)%string.
Proof.
  induction a as [|x a IH]; [done|]. rewrite !append_cons. by rewrite IH.
Qed.

Lemma dirname_length (s d : string) :
  File.dirname s = Some d → (String.length d < String.length s)%nat.
Proof.
  revert d. induction s as [|c s IH]; intros d; simpl; [done|].
  destruct (File.dirname s) as [d'|].
  - intros [= <-]. simpl. specialize (IH d' eq_refl). lia.
  - destruct (Ascii.eqb c "/"); [|done]. intros [= <-]. simpl. lia.
Qed.

Lemma dirname_basename (s d : string) :
  File.dirname s = Some d → s = (d ++ DIR_SEP ++ File.basename s)%string.
Proof.
  revert d. induction s as [|c s IH]; intros d; simpl; [done|].
  destruct (File.dirname s) as [d'|].
  - intros [= <-]. rewrite append_cons. f_equal. by apply IH.
  - destruct (Ascii.eqb_spec c "/") as [->|]; [|done]. by intros [= <-].
Qed.

Lemma dirname_join (d b : string) :
  File.dirname b = None → File.dirname (d ++ DIR_SEP ++ b) = Some d.
Proof.
  intros Hb. induction d as [|c d IH].
  - unfold DIR_SEP. rewrite append_nil_l, append_cons, append_nil_l. simpl.
    by rewrite Hb.
  - rewrite append_cons. simpl. by rewrite IH.
Qed.

Lemma erase_0_app (P r : string) :
  erase_0 (String.length P + 1) (P ++ DIR_SEP ++ r) = r.
Proof.
  induction P as [|c P IH]; [done|]. rewrite append_cons. apply IH.
Qed.

Lemma below_rel_length (d k : string) :
  File.below_rel d k → (String.length d < String.length k)%nat.
Proof.
  induction 1 as [k Hk|k p Hk _ IH].
  - by apply dirname_length.
  - apply dirname_length in Hk. lia.
Qed.

Lemma below_rel_irrefl (d : string) : ¬ File.below_rel d d.
Proof. intros H%below_rel_length. lia. Qed.

Lemma below_fuel_rel (n : nat) (d k : string) :
  File.below_fuel n d k = true → File.below_rel d k.
Proof.
  revert k. induction n as [|n IH]; intros k; simpl; [done|].
  destruct (File.dirname k) as [p|] eqn:Hk; [|done].
  intros [Hp%String.eqb_eq | Hp]%orb_true_iff.
  - subst. by constructor.
  - eapply File.below_deeper; eauto.
Qed.

Lemma below_rel_fuel (n : nat) (d k : string) :
  File.below_rel d k → (String.length k ≤ n)%nat →
  File.below_fuel n d k = true.
Proof.
  intros H. revert n. induction H as [k Hk|k p Hk _ IH]; intros n Hn.
  - destruct n as [|n]; [apply dirname_length in Hk; lia|]. simpl.
    rewrite Hk. by rewrite String.eqb_refl.
  - destruct n as [|n]; [apply dirname_length in Hk; lia|]. simpl.
    rewrite Hk. rewrite IH; [by rewrite orb_true_r|].
    apply dirname_length in Hk. lia.
Qed.

Lemma below_iff (d k : string) : File.below d k = true ↔ File.below_rel d k.
Proof.
  split; [apply below_fuel_rel|]. intros H. by apply below_rel_fuel.
Qed.

Lemma below_false_iff (d k : string) :
  File.below d k = false ↔ ¬ File.below_rel d k.
Proof.
  rewrite <- below_iff. by destruct (File.below d k).
Qed.

Lemma below_rel_prefix (P k : string) :
  File.below_rel P k → ∃ r, k = (P ++ DIR_SEP ++ r)%string.
Proof.
  induction 1 as [k Hk|k p Hk _ [r Hr]].
  - eexists. by apply dirname_basename.
  - apply dirname_basename in Hk. subst p.
    exists (r ++ DIR_SEP ++ File.basename k)%string. rewrite Hk at 1.
    by rewrite !append_assoc.
Qed.

(** The name written to the stream and the path rebuilt from it at restore
    time give back the physical name. *)
Lemma rebuilt_name (P k : string) :
  File.below_rel P k →
  (P ++ DIR_SEP ++ erase_0 (String.length P + 1) k)%string = k.
Proof.
  intros [r ->]%below_rel_prefix. by rewrite erase_0_app.
Qed.

Lemma below_rel_trans (a b c : string) :
  File.below_rel a b → File.below_rel b c → File.below_rel a c.
Proof.
  intros Hab Hbc. induction Hbc as [k Hk|k p Hk _ IH].
  - eapply File.below_deeper; eauto.
  - eapply File.below_deeper; eauto.
Qed.

(** The first step on the way down from [d] to [k]. *)
Lemma below_rel_first (d k : string) :
  File.below_rel d k →
  ∃ c, File.dirname c = Some d ∧ (k = c ∨ File.below_rel c k).
Proof.
  induction 1 as [k Hk|k p Hk _ (c & Hc & IH)].
  - exists k. auto.
  - exists c. split; [done|]. right. destruct IH as [->|IH].
    + by constructor.
    + eapply File.below_deeper; eauto.
Qed.

Lemma wf_ancestor (fs : File.FS) (k c : string) (v : File.node) :
  File.wf fs → fs !! k = Some v → File.below_rel c k →
  fs !! c = Some File.Dir.
Proof.
  intros Hwf Hk Hb. revert v Hk.
  induction Hb as [k Hd|k p Hd _ IH]; intros v Hk.
  - eapply Hwf; eauto.
  - eapply IH. eapply Hwf; eauto.
Qed.

(** ** Scanning the host file system *)

Lemma elem_of_listing (fs : File.FS) (d : string) (kn : string * File.node) :
  kn ∈ File.listing fs d ↔ fs !! kn.1 = Some kn.2 ∧ File.dirname kn.1 = Some d.
Proof.
  unfold File.listing. rewrite list_elem_of_filter.
  destruct kn as [k v]. rewrite elem_of_map_to_list. simpl. tauto.
Qed.

Lemma depth_bound_ge (fs : File.FS) (k : string) (v : File.node) :
  fs !! k = Some v → (String.length k ≤ File.depth_bound fs)%nat.
Proof.
  unfold File.depth_bound. revert k v.
  apply (map_fold_weak_ind
           (λ r (m : File.FS), ∀ k v, m !! k = Some v → (String.length k ≤ r)%nat)).
  - intros k v. by rewrite lookup_empty.
  - intros i x m r Hi IH k v. rewrite lookup_insert.
    case_decide as Hik.
    + intros _. subst. lia.
    + intros Hk. specialize (IH k v Hk). lia.
Qed.

Lemma scan_physicalName (n : nat) (fs : File.FS) (d : string) (r : bool) :
  File.physicalName (File.ScanDirectoryTree_fuel n fs d r) = d.
Proof. by destruct n. Qed.

Lemma scan_isDirectory (n : nat) (fs : File.FS) (d : string) (r : bool) :
  File.isDirectory (File.ScanDirectoryTree_fuel n fs d r) = true.
Proof. by destruct n. Qed.

Lemma scan_children (n : nat) (fs : File.FS) (d : string) (r : bool) :
  File.children (File.ScanDirectoryTree_fuel n fs d r) =
  map (scan_child n fs r) (File.listing fs d).
Proof. by destruct n. Qed.

Lemma scan_size (n : nat) (fs : File.FS) (d : string) (r : bool) :
  File.size (File.ScanDirectoryTree_fuel n fs d r) =
  fold_left File.add_child_size (map (scan_child n fs r) (File.listing fs d)) 0.
Proof. by destruct n. Qed.

Lemma scan_child_physicalName n fs r kn :
  File.physicalName (scan_child n fs r kn) = kn.1.
Proof. done. Qed.

Lemma scan_child_entry_ok n fs r d kn :
  kn ∈ File.listing fs d → entry_ok fs (scan_child n fs r kn).
Proof.
  intros [Hk _]%elem_of_listing. unfold entry_ok.
  rewrite scan_child_physicalName, Hk. unfold scan_child.
  destruct kn as [k [|data]]; simpl; [|done].
  destruct r, n; simpl; try done. apply scan_isDirectory.
Qed.

Lemma scan_tree_fuel (n : nat) (fs : File.FS) (d : string) :
  (File.depth_bound fs ≤ n + String.length d)%nat →
  scan_tree fs (File.ScanDirectoryTree_fuel n fs d true).
Proof.
  revert d. induction n as [|n IH]; intros d Hn.
  - constructor; rewrite scan_physicalName, scan_children.
    + intros k v Hk Hd. exists (scan_child 0 fs true (k, v)). split; [|done].
      apply list_elem_of_fmap. exists (k, v). split; [done|].
      by apply elem_of_listing.
    + apply Forall_fmap, Forall_forall. intros kn Hkn. simpl.
      split; [by eapply scan_child_entry_ok|].
      pose proof Hkn as [Hk Hd]%elem_of_listing. split; [done|].
      apply depth_bound_ge in Hk. apply dirname_length in Hd. lia.
  - constructor; rewrite scan_physicalName, scan_children.
    + intros k v Hk Hd. exists (scan_child (S n) fs true (k, v)). split; [|done].
      apply list_elem_of_fmap. exists (k, v). split; [done|].
      by apply elem_of_listing.
    + apply Forall_fmap, Forall_forall. intros kn Hkn. simpl.
      split; [by eapply scan_child_entry_ok|].
      pose proof Hkn as [Hk Hd]%elem_of_listing. split; [done|].
      intros Hdir. destruct kn as [k [|data]]; [|done]. simpl in *.
      assert (Hsub : scan_tree fs (File.ScanDirectoryTree_fuel n fs k true)).
      { apply IH. apply dirname_length in Hd. lia. }
      inversion Hsub as [e Hc Hf]. subst e.
      rewrite scan_physicalName in Hc, Hf.
      constructor; simpl; done.
Qed.

Lemma scan_tree_ScanDirectoryTree (fs : File.FS) (d : string) :
  scan_tree fs (File.ScanDirectoryTree fs d true).
Proof. apply scan_tree_fuel. lia. Qed.

(** ** Payload chunks *)

Lemma chunk_size_pos : 0 < chunk_size.
Proof. done. Qed.

Lemma chunk_fuel_zero (count : Z) :
  chunk_size < count → (Z.to_nat (count / chunk_size) ≤ 0)%nat → False.
Proof.
  intros Hgt Hfuel. pose proof chunk_size_pos.
  assert (1 ≤ count / chunk_size) by (apply Z.div_le_lower_bound; lia). lia.
Qed.

Lemma chunk_fuel_step (count : Z) (fuel : nat) :
  chunk_size < count → (Z.to_nat (count / chunk_size) ≤ S fuel)%nat →
  (Z.to_nat ((count - chunk_size) / chunk_size) ≤ fuel)%nat.
Proof.
  intros Hgt Hfuel. pose proof chunk_size_pos.
  replace (count - chunk_size) with (count + (-1) * chunk_size) by lia.
  rewrite Z.div_add by lia. lia.
Qed.

Lemma fresh_buf_length : length fresh_buf = Z.to_nat chunk_size.
Proof. apply repeat_length. Qed.

Lemma save_chunks_last (fuel : nat) (count : Z) (data buf : list Byte.byte)
    (s : list PointerWrap.item) :
  count ≤ chunk_size →
  save_chunks fuel count (Some data) buf (PointerWrap.mk PointerWrap.MODE_WRITE s) =
  Some (PointerWrap.mk PointerWrap.MODE_WRITE
          (s ++ map PointerWrap.Byte
                  (take (Z.to_nat count)
                     (take (Z.to_nat count) data
                      ++ drop (length (take (Z.to_nat count) data)) buf)))).
Proof.
  intros Hle. destruct fuel; simpl;
    destruct (Z.gtb_spec count chunk_size); (lia || reflexivity).
Qed.

Lemma save_chunks_full (fuel : nat) (count : Z) (data buf : list Byte.byte)
    (s : list PointerWrap.item) :
  chunk_size < count →
  save_chunks (S fuel) count (Some data) buf
    (PointerWrap.mk PointerWrap.MODE_WRITE s) =
  let got := take (Z.to_nat chunk_size) data in
  let buf := got ++ drop (length got) buf in
  save_chunks fuel (count - chunk_size) (Some (drop (Z.to_nat chunk_size) data))
    buf
    (PointerWrap.mk PointerWrap.MODE_WRITE
       (s ++ map PointerWrap.Byte (take (Z.to_nat chunk_size) buf))).
Proof.
  intros Hgt. simpl. destruct (Z.gtb_spec count chunk_size); [|lia]. reflexivity.
Qed.

Lemma save_chunks_spec (fuel : nat) (count : Z) (data buf : list Byte.byte)
    (s : list PointerWrap.item) :
  0 ≤ count ≤ Z.of_nat (length data) →
  length buf = Z.to_nat chunk_size →
  (Z.to_nat (count / chunk_size) ≤ fuel)%nat →
  save_chunks fuel count (Some data) buf (PointerWrap.mk PointerWrap.MODE_WRITE s) =
  Some (PointerWrap.mk PointerWrap.MODE_WRITE
          (s ++ map PointerWrap.Byte (take (Z.to_nat count) data))).
Proof.
  revert count data buf s.
  induction fuel as [|fuel IH]; intros count data buf s Hcount Hbuf Hfuel;
    destruct (Z.le_gt_cases count chunk_size) as [Hle|Hgt].
  - rewrite save_chunks_last by done.
    rewrite take_app_le by (rewrite length_take; lia).
    by rewrite take_take, Nat.min_id.
  - exfalso. eauto using chunk_fuel_zero.
  - rewrite save_chunks_last by done.
    rewrite take_app_le by (rewrite length_take; lia).
    by rewrite take_take, Nat.min_id.
  - pose proof chunk_size_pos as Hpos.
    rewrite save_chunks_full by done. cbv zeta.
    rewrite IH.
    + rewrite <- app_assoc, <- map_app.
      rewrite take_app_le by (rewrite length_take; lia).
      rewrite take_take, Nat.min_id, take_take_drop.
      replace (Z.to_nat chunk_size + Z.to_nat (count - chunk_size))%nat
        with (Z.to_nat count) by lia.
      reflexivity.
    + rewrite length_drop. lia.
    + rewrite length_app, length_drop, !length_take. lia.
    + by apply chunk_fuel_step.
Qed.

Lemma take_bytes_app (payload : list Byte.byte) (rest : list PointerWrap.item)
    (n : nat) :
  (n ≤ length payload)%nat →
  PointerWrap.take_bytes n (map PointerWrap.Byte payload ++ rest) =
  Some (take n payload, map PointerWrap.Byte (drop n payload) ++ rest).
Proof.
  revert payload. induction n as [|n IH]; intros payload Hn; [done|].
  destruct payload as [|b payload]; [simpl in Hn; lia|]. simpl.
  rewrite IH by (simpl in Hn; lia). done.
Qed.

Lemma DoArray_read (buf payload : list Byte.byte) (n : nat)
    (rest : list PointerWrap.item) :
  (n ≤ length payload)%nat →
  PointerWrap.DoArray buf n
    (PointerWrap.mk PointerWrap.MODE_READ (map PointerWrap.Byte payload ++ rest)) =
  Some (take n payload ++ drop n buf,
        PointerWrap.mk PointerWrap.MODE_READ
          (map PointerWrap.Byte (drop n payload) ++ rest)).
Proof.
  intros Hn. unfold PointerWrap.DoArray. simpl. by rewrite take_bytes_app.
Qed.

Lemma restore_chunks_last (fuel : nat) (count : Z) (name : string)
    (good : bool) (buf : list Byte.byte) (p : PointerWrap.t) (fs : File.FS) :
  count ≤ chunk_size →
  restore_chunks fuel count name good buf p fs =
  '(buf, p) ← PointerWrap.DoArray buf (Z.to_nat count) p;
  Some (p, File.WriteArray name good (take (Z.to_nat count) buf) fs).
Proof.
  intros Hle. destruct fuel; simpl;
    destruct (Z.gtb_spec count chunk_size); (lia || reflexivity).
Qed.

Lemma restore_chunks_full (fuel : nat) (count : Z) (name : string)
    (good : bool) (buf : list Byte.byte) (p : PointerWrap.t) (fs : File.FS) :
  chunk_size < count →
  restore_chunks (S fuel) count name good buf p fs =
  '(buf, p) ← PointerWrap.DoArray buf (Z.to_nat chunk_size) p;
  restore_chunks fuel (count - chunk_size) name good buf p
    (File.WriteArray name good (take (Z.to_nat chunk_size) buf) fs).
Proof.
  intros Hgt. simpl. destruct (Z.gtb_spec count chunk_size); [|lia]. reflexivity.
Qed.

Lemma WriteArray_good (name : string) (acc bytes : list Byte.byte)
    (fs : File.FS) :
  fs !! name = Some (File.Regular acc) →
  File.WriteArray name true bytes fs = <[name := File.Regular (acc ++ bytes)]> fs.
Proof. intros Hfs. unfold File.WriteArray. by rewrite Hfs. Qed.

(** Reading a payload back: the stream is consumed up to the end of the
    payload, and with a good handle the bytes are appended to the file. *)
Lemma restore_chunks_spec (fuel : nat) (count : Z) (name : string)
    (good : bool) (payload buf acc : list Byte.byte)
    (rest : list PointerWrap.item) (fs : File.FS) :
  count = Z.of_nat (length payload) →
  length buf = Z.to_nat chunk_size →
  (Z.to_nat (count / chunk_size) ≤ fuel)%nat →
  (good = true → fs !! name = Some (File.Regular acc)) →
  restore_chunks fuel count name good buf
    (PointerWrap.mk PointerWrap.MODE_READ (map PointerWrap.Byte payload ++ rest)) fs =
  Some (PointerWrap.mk PointerWrap.MODE_READ rest,
        if good then <[name := File.Regular (acc ++ payload)]> fs else fs).
Proof.
  revert count payload buf acc fs.
  induction fuel as [|fuel IH]; intros count payload buf acc fs Hcount Hbuf Hfuel Hfs;
    destruct (Z.le_gt_cases count chunk_size) as [Hle|Hgt].
  - rewrite restore_chunks_last by done. rewrite DoArray_read by lia. simpl.
    replace (Z.to_nat count) with (length payload) by lia.
    rewrite drop_all, firstn_all, take_app_length. simpl.
    destruct good; [|done]. by rewrite (WriteArray_good _ acc) by auto.
  - exfalso. eauto using chunk_fuel_zero.
  - rewrite restore_chunks_last by done. rewrite DoArray_read by lia. simpl.
    replace (Z.to_nat count) with (length payload) by lia.
    rewrite drop_all, firstn_all, take_app_length. simpl.
    destruct good; [|done]. by rewrite (WriteArray_good _ acc) by auto.
  - pose proof chunk_size_pos as Hpos.
    rewrite restore_chunks_full by done. rewrite DoArray_read by lia. simpl.
    rewrite take_app_le by (rewrite length_take; lia).
    rewrite take_take, Nat.min_id.
    destruct good.
    + rewrite (WriteArray_good _ acc) by auto.
      rewrite (IH _ _ _ (acc ++ take (Z.to_nat chunk_size) payload)).
      * by rewrite insert_insert_eq, <- app_assoc, take_drop.
      * rewrite length_drop. lia.
      * rewrite length_app, length_drop, length_take. lia.
      * by apply chunk_fuel_step.
      * intros _. by rewrite lookup_insert_eq.
    + rewrite (IH _ _ _ acc).
      * done.
      * rewrite length_drop. lia.
      * rewrite length_app, length_drop, length_take. lia.
      * by apply chunk_fuel_step.
      * done.
Qed.

(** ** The save loop and the restore loop *)

Lemma encode_cons (r : record) (recs : list record) :
  encode (r :: recs) = record_items r ++ encode recs.
Proof. reflexivity. Qed.

Lemma encode_app (recs1 recs2 : list record) :
  encode (recs1 ++ recs2) = encode recs1 ++ encode recs2.
Proof. unfold encode. apply bind_app. Qed.

Lemma entry_count_unfold (e : File.FSTEntry) :
  entry_count e = S (queue_count (File.children e)).
Proof. by destruct e. Qed.

Lemma queue_count_app (q1 q2 : list File.FSTEntry) :
  queue_count (q1 ++ q2) = (queue_count q1 + queue_count q2)%nat.
Proof. unfold queue_count. by rewrite map_app, list_sum_app. Qed.

Lemma queue_count_cons (e : File.FSTEntry) (q : list File.FSTEntry) :
  queue_count (e :: q) = (entry_count e + queue_count q)%nat.
Proof. reflexivity. Qed.

Lemma u32_range (z : Z) : 0 ≤ u32 z < 2 ^ 32.
Proof. unfold u32. apply Z.mod_pos_bound. lia. Qed.

Lemma u32_u64_le (n : Z) : 0 ≤ n → 0 ≤ u32 (u64 n) ≤ n.
Proof.
  intros Hn. unfold u32, u64. split; [apply Z.mod_pos_bound; lia|].
  etrans; [apply Z.mod_le; [apply Z.mod_pos_bound|]; lia|].
  apply Z.mod_le; lia.
Qed.

Lemma u32_small (z : Z) : 0 ≤ z < 2 ^ 32 → u32 z = z.
Proof. intros. unfold u32. by apply Z.mod_small. Qed.

Lemma queue_ok_children (fs : File.FS) (e : File.FSTEntry) :
  queue_ok fs e → File.isDirectory e = true →
  Forall (queue_ok fs) (File.children e).
Proof.
  intros [_ Hscan] Hdir. specialize (Hscan Hdir). inversion Hscan as [e' _ Hf].
  subst e'. eapply Forall_impl; [exact Hf|]. intros c (Hok & _ & Hc). by split.
Qed.

Section Loops.

Context `{!Session}.

Lemma save_loop_spec (fuel : nat) (Path : string) (fs : File.FS)
    (todo : list File.FSTEntry) (s : list PointerWrap.item) :
  Forall (queue_ok fs) todo →
  (queue_count todo ≤ fuel)%nat →
  save_loop fuel Path fs todo (PointerWrap.mk PointerWrap.MODE_WRITE s) =
  Some (PointerWrap.mk PointerWrap.MODE_WRITE
          (s ++ encode (map (record_of_entry fs Path) (bfs fuel todo)))).
Proof.
  revert todo s. induction fuel as [|fuel IH]; intros todo s Hok Hfuel.
  - destruct todo as [|e rest].
    + simpl. by rewrite app_nil_r.
    + rewrite queue_count_cons, entry_count_unfold in Hfuel. lia.
  - destruct todo as [|e rest]; [simpl; by rewrite app_nil_r|].
    rewrite queue_count_cons, entry_count_unfold in Hfuel.
    apply Forall_cons in Hok as [He Hrest].
    cbn [save_loop bfs map]. rewrite encode_cons.
    unfold PointerWrap.DoChar, PointerWrap.DoString, PointerWrap.put.
    cbn [PointerWrap.mode PointerWrap.stream mbind option_bind].
    unfold record_of_entry at 1.
    destruct (File.isDirectory e) eqn:Hdir.
    + rewrite IH.
      * by rewrite <- !app_assoc.
      * apply Forall_app. split; [done|]. by apply queue_ok_children.
      * rewrite queue_count_app. lia.
    + destruct He as [He _]. unfold entry_ok in He.
      destruct (fs !! File.physicalName e) as [[|data]|] eqn:Hfs;
        [congruence| |done].
      destruct He as (_ & Hsize & _).
      unfold PointerWrap.DoU32, PointerWrap.put.
      cbn [PointerWrap.mode PointerWrap.stream mbind option_bind].
      unfold File.IOFile_rb. rewrite Hfs. cbn [default].
      assert (Hrange : 0 ≤ u32 (File.size e) ≤ Z.of_nat (length data)).
      { rewrite Hsize. apply u32_u64_le. lia. }
      rewrite save_chunks_spec;
        [|done|apply fresh_buf_length|unfold chunk_fuel; lia].
      cbn [mbind option_bind]. rewrite app_nil_r. rewrite IH.
      * rewrite <- !app_assoc. done.
      * done.
      * lia.
Qed.

Lemma IOFile_wb_good (name : string) (fs fs1 : File.FS) :
  File.IOFile_wb name fs = (fs1, true) →
  fs1 !! name = Some (File.Regular []).
Proof.
  unfold File.IOFile_wb.
  destruct (File.IsDirectory fs name); [done|].
  destruct (File.parent_is_directory fs name); [|done].
  intros [= <-]. by rewrite lookup_insert_eq.
Qed.

Lemma restore_loop_spec (fuel : nat) (Path : string) (recs : list record)
    (rest : list PointerWrap.item) (fs : File.FS) :
  Forall record_wf recs →
  (length recs < fuel)%nat →
  restore_loop fuel Path
    (PointerWrap.mk PointerWrap.MODE_READ
       (encode recs ++ PointerWrap.Char NUL :: rest)) fs =
  Some (PointerWrap.mk PointerWrap.MODE_READ rest,
        fold_left (apply_record Path) recs fs).
Proof.
  revert fuel fs. induction recs as [|r recs IH]; intros fuel fs Hwf Hfuel.
  - destruct fuel as [|fuel]; [simpl in Hfuel; lia|]. reflexivity.
  - destruct fuel as [|fuel]; [simpl in Hfuel; lia|].
    apply Forall_cons in Hwf as [Hr Hwf]. simpl in Hfuel.
    rewrite encode_cons. destruct r as [name|name size payload|]; [| |done].
    + cbn [restore_loop record_items app PointerWrap.DoChar PointerWrap.DoString
           PointerWrap.mode PointerWrap.stream mbind option_bind fold_left
           apply_record].
      change (Ascii.eqb "d" NUL) with false.
      change (Ascii.eqb "d" "d") with true. cbv iota.
      apply IH; [done|lia].
    + destruct Hr as [Hsize Hrange].
      cbn [restore_loop record_items app PointerWrap.DoChar PointerWrap.DoString
           PointerWrap.DoU32 PointerWrap.mode PointerWrap.stream mbind
           option_bind fold_left apply_record].
      change (Ascii.eqb "f" NUL) with false.
      change (Ascii.eqb "f" "d") with false.
      change (Ascii.eqb "f" "f") with true. cbv iota.
      rewrite (u32_small size) by done.
      destruct (File.IOFile_wb (Path ++ DIR_SEP ++ name) fs) as [fs1 good] eqn:Hwb.
      rewrite <- app_assoc.
      rewrite (restore_chunks_spec _ _ _ _ payload _ []);
        [|done|apply fresh_buf_length|unfold chunk_fuel; lia|].
      * cbn [mbind option_bind]. rewrite IH by (done || lia). do 2 f_equal.
        destruct good; [|done].
        apply IOFile_wb_good in Hwb. by rewrite (WriteArray_good _ []).
      * intros ->. by eapply IOFile_wb_good.
Qed.

End Loops.

(** ** The order of the records *)

Lemma ordered_mono (known known' : list string) (es : list File.FSTEntry) :
  known ⊆ known' → ordered known es → ordered known' es.
Proof.
  revert known known'. induction es as [|e es IH]; intros known known' Hsub; [done|].
  simpl. intros [(d & Hd & Hin) Hes]. split; [eauto|].
  eapply IH; [|exact Hes].
  destruct (File.isDirectory e); [by apply list_subseteq_skip|done].
Qed.

Section Queue.

Variable fs : File.FS.
Variable Path : string.

Lemma pending_mono (known known' : list string) (e : File.FSTEntry) :
  known ⊆ known' → pending fs Path known e → pending fs Path known' e.
Proof.
  intros Hsub (Hq & Hb & d & Hd & Hin). split; [done|]. split; [done|].
  exists d. split; [done|]. by apply Hsub.
Qed.

Lemma pending_children (known : list string) (e : File.FSTEntry) :
  pending fs Path known e → File.isDirectory e = true →
  Forall (pending fs Path (File.physicalName e :: known)) (File.children e).
Proof.
  intros ([_ Hscan] & Hbelow & _) Hdir. specialize (Hscan Hdir).
  inversion Hscan as [e' _ Hf]. subst e'.
  eapply Forall_impl; [exact Hf|]. intros c (Hok & Hd & Hc).
  split; [by split|]. split.
  - eapply File.below_deeper; eauto.
  - exists (File.physicalName e). split; [done|apply list_elem_of_here].
Qed.

Lemma bfs_ordered (fuel : nat) (todo : list File.FSTEntry) (known : list string) :
  Forall (pending fs Path known) todo →
  Forall (λ e, entry_ok fs e ∧ File.below_rel Path (File.physicalName e))
    (bfs fuel todo)
  ∧ ordered known (bfs fuel todo).
Proof.
  revert todo known. induction fuel as [|fuel IH]; intros todo known Hp.
  - destruct todo; simpl; auto.
  - destruct todo as [|e rest]; [simpl; auto|].
    apply Forall_cons in Hp as [He Hrest]. cbn [bfs].
    set (known' := if File.isDirectory e then File.physicalName e :: known else known).
    assert (Hsub : known ⊆ known').
    { subst known'. destruct (File.isDirectory e); [|done].
      by apply list_subseteq_cons. }
    destruct (IH (rest ++ if File.isDirectory e then File.children e else [])
                known') as [IH1 IH2].
    { apply Forall_app. split.
      - eapply Forall_impl; [exact Hrest|]. intros c. by apply pending_mono.
      - subst known'. destruct (File.isDirectory e) eqn:Hdir; [|constructor].
        by apply pending_children. }
    split.
    + constructor; [|done]. destruct He as ([? _] & ? & _). done.
    + simpl. split; [|done]. destruct He as (_ & _ & d & ? & ?). eauto.
Qed.

(** Every entry of [fs] that the queue reaches is taken off it. *)
Lemma bfs_covers (fuel : nat) (todo : list File.FSTEntry) (k : string)
    (v : File.node) :
  File.wf fs →
  Forall (queue_ok fs) todo →
  (queue_count todo ≤ fuel)%nat →
  fs !! k = Some v →
  (∃ e, e ∈ todo
        ∧ (File.physicalName e = k ∨ File.below_rel (File.physicalName e) k)) →
  ∃ e, e ∈ bfs fuel todo ∧ File.physicalName e = k.
Proof.
  intros Hwf. revert todo.
  induction fuel as [|fuel IH]; intros todo Hok Hfuel Hk (e & He & Hcov).
  - destruct todo as [|e' rest]; [by apply not_elem_of_nil in He|].
    rewrite queue_count_cons, entry_count_unfold in Hfuel. lia.
  - destruct todo as [|e' rest]; [by apply not_elem_of_nil in He|].
    rewrite queue_count_cons, entry_count_unfold in Hfuel.
    apply Forall_cons in Hok as [He' Hrest]. cbn [bfs].
    assert (Hnext : Forall (queue_ok fs)
              (rest ++ if File.isDirectory e' then File.children e' else [])).
    { apply Forall_app. split; [done|].
      destruct (File.isDirectory e') eqn:Hdir; [|constructor].
      by apply queue_ok_children. }
    assert (Hcount : (queue_count
              (rest ++ if File.isDirectory e' then File.children e' else [])
              ≤ fuel)%nat).
    { rewrite queue_count_app. destruct (File.isDirectory e'); [lia|].
      unfold queue_count at 2. simpl. lia. }
    apply elem_of_cons in He as [->|He].
    + destruct Hcov as [Hcov|Hcov].
      * exists e'. split; [apply elem_of_cons; auto|done].
      * (* [k] lies below the head: one of its children reaches it *)
        pose proof (wf_ancestor _ _ _ _ Hwf Hk Hcov) as Hdir.
        destruct He' as [Hentry Hscan]. unfold entry_ok in Hentry.
        rewrite Hdir in Hentry. specialize (Hscan Hentry).
        inversion Hscan as [e0 Hcomplete _]. subst e0.
        destruct (below_rel_first _ _ Hcov) as (ck & Hck & Hstep).
        assert (Hckfs : ∃ cv, fs !! ck = Some cv).
        { destruct Hstep as [->|Hstep]; [eauto|].
          exists File.Dir. exact (wf_ancestor fs k ck v Hwf Hk Hstep). }
        destruct Hckfs as [cv Hckfs].
        destruct (Hcomplete ck cv Hckfs Hck) as (c & Hc & Hcname).
        destruct (IH _ Hnext Hcount Hk) as (e & Hin & Hname).
        { exists c. split.
          - apply elem_of_app. right. by rewrite Hentry.
          - rewrite Hcname. destruct Hstep as [->|?]; auto. }
        exists e. split; [apply elem_of_cons; auto|done].
    + destruct (IH _ Hnext Hcount Hk) as (e0 & Hin & Hname).
      { exists e. split; [apply elem_of_app; auto|done]. }
      exists e0. split; [apply elem_of_cons; auto|done].
Qed.

(** Restoring the record of an entry whose parent directory is there. *)
Lemma apply_record_entry (S : File.FS) (e : File.FSTEntry) (v : File.node)
    (d : string) :
  fs !! File.physicalName e = Some v →
  entry_ok fs e →
  File.below_rel Path (File.physicalName e) →
  File.dirname (File.physicalName e) = Some d →
  S !! d = Some File.Dir →
  agrees fs Path S →
  apply_record Path S (record_of_entry fs Path e) =
  <[File.physicalName e := trunc32 v]> S.
Proof.
  intros Hv Hok Hbelow Hd HSd Hagree.
  unfold entry_ok in Hok. rewrite Hv in Hok.
  destruct (Hagree _ Hbelow) as [HS|HS]; [|rewrite Hv in HS; simpl in HS].
  all: unfold record_of_entry, apply_record.
  all: destruct v as [|data].
  - rewrite Hok, rebuilt_name by done.
    unfold File.CreateDir, File.Exists, File.parent_is_directory, File.IsDirectory.
    by rewrite HS, Hd, HSd.
  - destruct Hok as (-> & Hsize & _). rewrite rebuilt_name by done.
    unfold File.IOFile_wb, File.parent_is_directory, File.IsDirectory.
    rewrite HS, Hd, HSd.
    unfold File.IOFile_rb. rewrite Hv. simpl.
    by rewrite lookup_insert_eq, insert_insert_eq, Hsize.
  - rewrite Hok, rebuilt_name by done.
    unfold File.CreateDir, File.Exists. rewrite HS. simpl.
    symmetry. by apply insert_id.
  - destruct Hok as (-> & Hsize & _). rewrite rebuilt_name by done.
    unfold File.IOFile_wb, File.parent_is_directory, File.IsDirectory.
    rewrite HS, Hd, HSd. simpl.
    unfold File.IOFile_rb. rewrite Hv. simpl.
    by rewrite lookup_insert_eq, insert_insert_eq, Hsize.
Qed.

Lemma restore_fold (es : list File.FSTEntry) (known : list string)
    (S : File.FS) :
  Forall (λ e, entry_ok fs e ∧ File.below_rel Path (File.physicalName e)) es →
  ordered known es →
  (∀ d, d ∈ known → S !! d = Some File.Dir) →
  agrees fs Path S →
  let S' := fold_left (apply_record Path) (map (record_of_entry fs Path) es) S in
  agrees fs Path S'
  ∧ (∀ k, is_Some (S !! k) → S' !! k = S !! k)
  ∧ (∀ e, e ∈ es →
       S' !! File.physicalName e = trunc32 <$> fs !! File.physicalName e)
  ∧ (∀ k, ¬ File.below_rel Path k → S' !! k = S !! k).
Proof.
  revert known S. induction es as [|e es IH]; intros known S Hes Hord Hknown Hagree.
  - cbv zeta. simpl. split; [done|]. split; [done|]. split; [|done].
    intros e He. by apply not_elem_of_nil in He.
  - apply Forall_cons in Hes as [[Hok Hbelow] Hes].
    destruct Hord as [(d & Hd & Hin) Hord].
    assert (Hv : ∃ v, fs !! File.physicalName e = Some v).
    { unfold entry_ok in Hok. destruct (fs !! File.physicalName e); [eauto|done]. }
    destruct Hv as [v Hv].
    cbv zeta. cbn [map fold_left].
    rewrite (apply_record_entry S e v d) by auto.
    set (S1 := <[File.physicalName e := trunc32 v]> S).
    assert (Hkeep : ∀ k, is_Some (S !! k) → S1 !! k = S !! k).
    { intros k [x Hx]. subst S1. rewrite lookup_insert. case_decide as Hk; [|done].
      subst k. destruct (Hagree _ Hbelow) as [HS|HS]; [congruence|].
      rewrite HS, Hv. done. }
    assert (Hagree1 : agrees fs Path S1).
    { intros k Hk. subst S1. rewrite lookup_insert. case_decide as Hke.
      - subst k. right. by rewrite Hv.
      - by apply Hagree. }
    destruct (IH (if File.isDirectory e then File.physicalName e :: known else known)
                S1 Hes Hord) as (H1 & H2 & H3 & H4); [|done|].
    { intros d' Hd'. destruct (File.isDirectory e) eqn:Hdir.
      - apply elem_of_cons in Hd' as [->|Hd'].
        + subst S1. rewrite lookup_insert_eq. unfold entry_ok in Hok.
          rewrite Hv in Hok. destruct v; [done|]. destruct Hok. congruence.
        + rewrite Hkeep; eauto.
      - rewrite Hkeep; eauto. }
    split; [done|]. split; [|split].
    + intros k Hk. rewrite H2; [by apply Hkeep|]. rewrite Hkeep; done.
    + intros e' [->|He']%elem_of_cons; [|by apply H3].
      rewrite H2; subst S1; rewrite lookup_insert_eq; [by rewrite Hv|eauto].
    + intros k Hk. rewrite H4 by done. subst S1. rewrite lookup_insert_ne; [done|].
      intros <-. done.
Qed.

End Queue.

(** ** The state before the records are restored *)

Lemma wf_check_correct (fs : File.FS) : wf_check fs = true → File.wf fs.
Proof.
  unfold wf_check. intros Hall path entry parent Hp Hd.
  rewrite forallb_forall in Hall.
  specialize (Hall (path, entry)). unfold File.parent_is_directory in Hall.
  simpl in Hall. rewrite Hd in Hall. unfold File.IsDirectory in Hall.
  assert (Hin : In (path, entry) (map_to_list fs)).
  { apply list_elem_of_In. by apply elem_of_map_to_list. }
  specialize (Hall Hin). by destruct (fs !! parent) as [[|?]|].
Qed.

Section Wiped.

Context `{!Session}.

Lemma scratch_path_dirname : File.dirname scratch_path = Some WiiRoot.
Proof. apply (dirname_join WiiRoot "tmp"). reflexivity. Qed.

Lemma scratch_path_below_WiiRoot : File.below_rel WiiRoot scratch_path.
Proof. constructor. apply scratch_path_dirname. Qed.

Lemma DeleteDirRecursively_lookup (d k : string) (fs : File.FS) :
  File.IsDirectory fs d = true →
  File.DeleteDirRecursively d fs !! k =
  if decide (k = d) then None
  else if File.below d k then None else fs !! k.
Proof.
  intros Hd. unfold File.DeleteDirRecursively. rewrite Hd.
  destruct (filter _ fs !! k) as [x|] eqn:Hf.
  - apply map_lookup_filter_Some in Hf as [Hk [Hne Hb]]. simpl in *.
    rewrite decide_False by done. by rewrite Hb.
  - apply map_lookup_filter_None in Hf. case_decide as Hkd; [done|].
    destruct (File.below d k) eqn:Hb; [done|].
    destruct Hf as [Hf|Hf]; [done|]. destruct (fs !! k) as [x|] eqn:Hk; [|done].
    exfalso. apply (Hf x eq_refl). simpl. done.
Qed.

Lemma wiped_scratch (fs : File.FS) :
  File.IsDirectory fs WiiRoot = true →
  File.Exists fs scratch_path = File.IsDirectory fs scratch_path →
  wiped fs !! scratch_path = Some File.Dir.
Proof.
  intros Hroot Hscratch. unfold wiped, File.CreateDir.
  pose proof scratch_path_below_WiiRoot as Hb.
  destruct (File.IsDirectory fs scratch_path) eqn:Hdir.
  - assert (Hwii : File.DeleteDirRecursively scratch_path fs !! WiiRoot
                   = Some File.Dir).
    { rewrite DeleteDirRecursively_lookup by done.
      rewrite decide_False.
      - destruct (File.below scratch_path WiiRoot) eqn:Hbb.
        + apply below_iff, below_rel_length in Hbb.
          apply below_rel_length in Hb. lia.
        + unfold File.IsDirectory in Hroot.
          by destruct (fs !! WiiRoot) as [[|?]|].
      - intros Heq. apply below_rel_length in Hb. rewrite Heq in Hb. lia. }
    unfold File.Exists. rewrite DeleteDirRecursively_lookup by done.
    rewrite decide_True by done.
    unfold File.parent_is_directory, File.IsDirectory.
    rewrite scratch_path_dirname, Hwii. by rewrite lookup_insert_eq.
  - unfold File.DeleteDirRecursively. rewrite Hdir.
    rewrite Hscratch. unfold File.parent_is_directory.
    rewrite scratch_path_dirname, Hroot. by rewrite lookup_insert_eq.
Qed.

Lemma wiped_below (fs : File.FS) (k : string) :
  File.wf fs → File.below_rel scratch_path k → wiped fs !! k = None.
Proof.
  intros Hwf Hk. unfold wiped, File.CreateDir.
  assert (Hne : scratch_path ≠ k).
  { intros Heq. rewrite Heq in Hk. by apply below_rel_irrefl in Hk. }
  assert (Hdel : File.DeleteDirRecursively scratch_path fs !! k = None).
  { destruct (File.IsDirectory fs scratch_path) eqn:Hdir.
    - rewrite DeleteDirRecursively_lookup by done.
      rewrite decide_False by done.
      apply below_iff in Hk. by rewrite Hk.
    - unfold File.DeleteDirRecursively. rewrite Hdir.
      destruct (fs !! k) as [x|] eqn:Hfk; [|done].
      pose proof (wf_ancestor _ _ _ _ Hwf Hfk Hk) as Hs.
      unfold File.IsDirectory in Hdir. by rewrite Hs in Hdir. }
  destruct (File.Exists _ _); [done|].
  destruct (File.parent_is_directory _ _); [|done].
  by rewrite lookup_insert_ne.
Qed.

Lemma wiped_frame (fs : File.FS) (k : string) :
  k ≠ scratch_path → File.below scratch_path k = false →
  wiped fs !! k = fs !! k.
Proof.
  intros Hne Hb. unfold wiped, File.CreateDir.
  assert (Hdel : File.DeleteDirRecursively scratch_path fs !! k = fs !! k).
  { destruct (File.IsDirectory fs scratch_path) eqn:Hdir.
    - rewrite DeleteDirRecursively_lookup by done.
      by rewrite decide_False, Hb by done.
    - unfold File.DeleteDirRecursively. by rewrite Hdir. }
  destruct (File.Exists _ _); [done|].
  destruct (File.parent_is_directory _ _); [|done].
  by rewrite lookup_insert_ne.
Qed.

End Wiped.

(** ** Saving and restoring the scratch directory *)

Section SaveRestore.

Context `{!Session}.

Lemma scratch_children_pending (fs : File.FS) :
  Forall (pending fs scratch_path [scratch_path])
    (File.children (File.ScanDirectoryTree fs scratch_path true)).
Proof.
  pose proof (scan_tree_ScanDirectoryTree fs scratch_path) as Hscan.
  inversion Hscan as [e _ Hf]. subst e.
  unfold File.ScanDirectoryTree in Hf. rewrite scan_physicalName in Hf.
  eapply Forall_impl; [exact Hf|]. intros c (Hok & Hd & Hc).
  split; [by split|]. split; [by constructor|].
  exists scratch_path. split; [done|]. apply list_elem_of_singleton. done.
Qed.

Lemma scratch_children_queue_ok (fs : File.FS) :
  Forall (queue_ok fs)
    (File.children (File.ScanDirectoryTree fs scratch_path true)).
Proof.
  eapply Forall_impl; [apply scratch_children_pending|]. by intros c [? _].
Qed.

Lemma scratch_queue_count (fs : File.FS) :
  (queue_count (File.children (File.ScanDirectoryTree fs scratch_path true))
   ≤ entry_count (File.ScanDirectoryTree fs scratch_path true))%nat.
Proof. rewrite entry_count_unfold. lia. Qed.

Lemma record_of_entry_wf (fs : File.FS) (Path : string) (e : File.FSTEntry) :
  entry_ok fs e →
  record_wf (record_of_entry fs Path e)
  ∧ type_tag (record_of_entry fs Path e) ≠ NUL.
Proof.
  intros Hok. unfold record_of_entry, entry_ok in *.
  destruct (File.isDirectory e) eqn:Hdir; [done|]. split; [|done].
  destruct (fs !! File.physicalName e) as [[|data]|] eqn:Hfs; [done| |done].
  destruct Hok as (_ & Hsize & _). unfold File.IOFile_rb. rewrite Hfs.
  simpl. pose proof (u32_u64_le (Z.of_nat (length data))) as Hle.
  rewrite <- Hsize in Hle. split; [|apply u32_range].
  rewrite length_take. lia.
Qed.

Lemma scratch_records_wf (fs : File.FS) :
  Forall (λ r, record_wf r ∧ type_tag r ≠ NUL) (scratch_records fs).
Proof.
  unfold scratch_records. cbv zeta. apply Forall_fmap.
  destruct (bfs_ordered fs scratch_path
              (entry_count (File.ScanDirectoryTree fs scratch_path true))
              _ _ (scratch_children_pending fs)) as [Hes _].
  eapply Forall_impl; [exact Hes|]. intros e [Hok _]. simpl.
  by apply record_of_entry_wf.
Qed.

Lemma encode_length (recs : list record) :
  (length recs ≤ length (encode recs))%nat.
Proof.
  induction recs as [|r recs IH]; [done|]. rewrite encode_cons, length_app.
  simpl. destruct r; simpl; lia.
Qed.

(** Saving appends the records of the scratch directory and one sentinel,
    and leaves the file system as it is. *)
Lemma DoState_save (pw : PointerWrap.t) (fs : File.FS) :
  PointerWrap.mode (DoStateShared pw) = PointerWrap.MODE_WRITE →
  DoState pw fs =
  Some (PointerWrap.mk PointerWrap.MODE_WRITE
          (PointerWrap.stream (DoStateShared pw)
           ++ encode (scratch_records fs ++ [Sentinel])), fs).
Proof.
  intros Hmode. unfold DoState, PointerWrap.GetMode.
  destruct (DoStateShared pw) as [m s]. simpl in Hmode. subst m. cbv zeta.
  cbn [PointerWrap.mode PointerWrap.stream].
  rewrite save_loop_spec
    by (apply scratch_children_queue_ok || apply scratch_queue_count).
  cbn [mbind option_bind]. unfold PointerWrap.DoChar, PointerWrap.put.
  cbn [PointerWrap.mode PointerWrap.stream mbind option_bind].
  rewrite encode_app, <- app_assoc. reflexivity.
Qed.

(** Restoring wipes the scratch directory, applies the records in order and
    stops behind the sentinel. *)
Lemma DoState_restore (pr : PointerWrap.t) (fs' : File.FS)
    (recs : list record) (rest : list PointerWrap.item) :
  PointerWrap.mode (DoStateShared pr) = PointerWrap.MODE_READ →
  PointerWrap.stream (DoStateShared pr) = encode (recs ++ [Sentinel]) ++ rest →
  Forall record_wf recs →
  DoState pr fs' =
  Some (PointerWrap.mk PointerWrap.MODE_READ rest,
        fold_left (apply_record scratch_path) recs (wiped fs')).
Proof.
  intros Hmode Hstream Hwf. unfold DoState, PointerWrap.GetMode.
  destruct (DoStateShared pr) as [m s]. simpl in Hmode, Hstream. subst m s.
  cbv zeta. cbn [PointerWrap.mode PointerWrap.stream].
  rewrite encode_app, <- app_assoc.
  change (encode [Sentinel] ++ rest) with (PointerWrap.Char NUL :: rest).
  apply restore_loop_spec; [done|].
  rewrite length_app. pose proof (encode_length recs). lia.
Qed.

(** What the restored file system holds: below the scratch directory exactly
    what the stream carries of the saved one, and outside it what was there
    before. *)
Lemma restored_lookup (fs fs' : File.FS) :
  File.wf fs → File.wf fs' →
  File.IsDirectory fs' WiiRoot = true →
  File.Exists fs' scratch_path = File.IsDirectory fs' scratch_path →
  let fs'' :=
    fold_left (apply_record scratch_path) (scratch_records fs) (wiped fs') in
  (∀ k, File.below scratch_path k = true → fs'' !! k = trunc32 <$> fs !! k)
  ∧ fs'' !! scratch_path = Some File.Dir
  ∧ (∀ k, k ≠ scratch_path → File.below scratch_path k = false →
          fs'' !! k = fs' !! k).
Proof.
  intros Hwf Hwf' Hroot Hscratch. cbv zeta. unfold scratch_records. cbv zeta.
  set (root := File.ScanDirectoryTree fs scratch_path true).
  set (es := bfs (entry_count root) (File.children root)).
  destruct (bfs_ordered fs scratch_path (entry_count root) _ _
              (scratch_children_pending fs)) as [Hes Hord].
  fold root in Hes, Hord. fold es in Hes, Hord.
  destruct (restore_fold fs scratch_path es [scratch_path] (wiped fs') Hes Hord)
    as (Hagree & Hkeep & Hall & Hframe).
  { intros d ->%list_elem_of_singleton. by apply wiped_scratch. }
  { intros k Hk. left. by apply wiped_below. }
  split; [|split].
  - intros k Hk%below_iff. destruct (fs !! k) as [v|] eqn:Hfk.
    + destruct (bfs_covers fs (entry_count root) (File.children root) k v Hwf)
        as (e & He & Hname).
      * apply scratch_children_queue_ok.
      * apply scratch_queue_count.
      * done.
      * pose proof (scan_tree_ScanDirectoryTree fs scratch_path) as Hscan.
        inversion Hscan as [e0 Hcomplete _]. subst e0. fold root in Hcomplete.
        unfold root, File.ScanDirectoryTree in Hcomplete.
        rewrite scan_physicalName in Hcomplete.
        destruct (below_rel_first _ _ Hk) as (ck & Hck & Hstep).
        assert (Hckfs : ∃ cv, fs !! ck = Some cv).
        { destruct Hstep as [->|Hstep]; [eauto|].
          exists File.Dir. exact (wf_ancestor fs k ck v Hwf Hfk Hstep). }
        destruct Hckfs as [cv Hckfs].
        destruct (Hcomplete ck cv Hckfs Hck) as (c & Hc & Hcname).
        exists c. split; [done|]. rewrite Hcname.
        destruct Hstep as [->|?]; auto.
      * fold es in He. rewrite <- Hname, (Hall e He). by rewrite Hname, Hfk.
    + destruct (Hagree k Hk) as [Hn|Hn]; [done|]. by rewrite Hn, Hfk.
  - rewrite Hkeep; by rewrite wiped_scratch.
  - intros k Hne Hb. rewrite Hframe.
    + by apply wiped_frame.
    + by apply below_false_iff.
Qed.

End SaveRestore.

Lemma sizes_check_correct (fs : File.FS) (k : string) (data : list Byte.byte) :
  sizes_check fs = true → fs !! k = Some (File.Regular data) →
  Z.of_nat (length data) < 2 ^ 32.
Proof.
  unfold sizes_check. rewrite forallb_forall. intros Hall Hk.
  specialize (Hall (k, File.Regular data)). simpl in Hall.
  apply Z.ltb_lt, Hall, list_elem_of_In. by apply elem_of_map_to_list.
Qed.

Lemma trunc32_small (v : File.node) :
  File.node_bytes v < 2 ^ 32 → trunc32 v = v.
Proof.
  destruct v as [|data]; [done|]. simpl. intros Hlt.
  unfold u64. rewrite Z.mod_small by lia. rewrite u32_small by lia.
  by rewrite Nat2Z.id, firstn_all.
Qed.

(** C6. The stream a save produces consists of what [DoStateShared] wrote,
    then the records of the scratch directory, none of which has the zero
    type tag, then one sentinel record.  A restore reading that stream stops
    behind the sentinel: whatever follows it is left unread. *)
Theorem snapshot_sentinel `{!Session} (pw : PointerWrap.t) (fs : File.FS) :
  PointerWrap.mode (DoStateShared pw) = PointerWrap.MODE_WRITE →
  ∃ recs,
    DoState pw fs =
    Some (PointerWrap.mk PointerWrap.MODE_WRITE
            (PointerWrap.stream (DoStateShared pw)
             ++ encode (recs ++ [Sentinel])), fs)
    ∧ Forall (λ r, type_tag r ≠ NUL) recs
    ∧ type_tag Sentinel = NUL
    ∧ ∀ pr fs' rest,
        PointerWrap.mode (DoStateShared pr) = PointerWrap.MODE_READ →
        PointerWrap.stream (DoStateShared pr)
        = encode (recs ++ [Sentinel]) ++ rest →
        ∃ fs'',
          DoState pr fs' = Some (PointerWrap.mk PointerWrap.MODE_READ rest, fs'').
Proof.
  intros Hmode. exists (scratch_records fs).
  pose proof (scratch_records_wf fs) as Hwf.
  split; [by apply DoState_save|]. split; [|split; [done|]].
  - eapply Forall_impl; [exact Hwf|]. by intros r [_ ?].
  - intros pr fs' rest Hr Hs. eexists. apply DoState_restore; [done|done|].
    eapply Forall_impl; [exact Hwf|]. by intros r [? _].
Qed.

(** C1, for files shorter than 4 GiB.  A save of a well-formed file system
    whose scratch files are all shorter than 2^32 bytes returns a stream; a
    restore that reads the scratch records of that stream, in whatever state
    the scratch directory is at that time, ends with the scratch directory
    present and, below it, exactly the paths and file contents that were
    saved. *)
Theorem save_restore_round_trip `{!Session} (pw : PointerWrap.t)
    (fs : File.FS) :
  File.wf fs →
  (∀ k data, File.below scratch_path k = true →
             fs !! k = Some (File.Regular data) →
             Z.of_nat (length data) < 2 ^ 32) →
  PointerWrap.mode (DoStateShared pw) = PointerWrap.MODE_WRITE →
  ∃ pw',
    DoState pw fs = Some (pw', fs)
    ∧ ∀ pr fs' rest,
        File.wf fs' →
        File.IsDirectory fs' WiiRoot = true →
        File.Exists fs' scratch_path = File.IsDirectory fs' scratch_path →
        PointerWrap.mode (DoStateShared pr) = PointerWrap.MODE_READ →
        PointerWrap.stream (DoStateShared pr)
        = drop (length (PointerWrap.stream (DoStateShared pw)))
            (PointerWrap.stream pw') ++ rest →
        ∃ fs'',
          DoState pr fs' = Some (PointerWrap.mk PointerWrap.MODE_READ rest, fs'')
          ∧ fs'' !! scratch_path = Some File.Dir
          ∧ ∀ k, File.below scratch_path k = true → fs'' !! k = fs !! k.
Proof.
  intros Hwf Hsizes Hmode. eexists. split; [by apply DoState_save|].
  intros pr fs' rest Hwf' Hroot Hscratch Hr Hs.
  cbn [PointerWrap.stream] in Hs. rewrite drop_app_length in Hs.
  eexists. split.
  - apply DoState_restore; [done|done|].
    eapply Forall_impl; [apply scratch_records_wf|]. by intros r [? _].
  - destruct (restored_lookup fs fs' Hwf Hwf' Hroot Hscratch) as (Hbelow & Hdir & _).
    split; [done|]. intros k Hk. rewrite Hbelow by done.
    destruct (fs !! k) as [v|] eqn:Hfk; [|done]. simpl. f_equal.
    apply trunc32_small. destruct v as [|data]; [done|]. simpl. eauto.
Qed.

(** ** Worked examples for the snapshot *)

Lemma snapshot_sentinel_witness :
  ∃ recs,
    DoState (H := example_session)
      (PointerWrap.mk PointerWrap.MODE_WRITE []) example_fs =
    Some (PointerWrap.mk PointerWrap.MODE_WRITE
            ([PointerWrap.Str "/dev/fs"] ++ encode (recs ++ [Sentinel])),
          example_fs)
    ∧ Forall (λ r, type_tag r ≠ NUL) recs.
Proof.
  destruct (snapshot_sentinel (H := example_session)
              (PointerWrap.mk PointerWrap.MODE_WRITE []) example_fs eq_refl)
    as (recs & Hsave & Htags & _).
  exists recs. split; [exact Hsave|exact Htags].
Defined.

(** The records of the example, in the order the save loop writes them: the
    entries of a directory come after the directory itself. *)
Example example_records :
  scratch_records (H := example_session) example_fs =
  [ Record_dir "sub";
    Record_file "a.bin" 3 [Byte.x01; Byte.x02; Byte.x03];
    Record_file "sub/empty" 0 [];
    Record_file "sub/b.bin" 1 [Byte.x04];
    Record_dir "sub/deep";
    Record_file "sub/deep/c.bin" 2 [Byte.x05; Byte.x06] ].
Proof. vm_compute. reflexivity. Qed.

Lemma save_restore_round_trip_witness :
  ∃ pw' fs'',
    DoState (H := example_session)
      (PointerWrap.mk PointerWrap.MODE_WRITE []) example_fs
    = Some (pw', example_fs)
    ∧ DoState (H := example_session)
        (PointerWrap.mk PointerWrap.MODE_READ (PointerWrap.stream pw')) stale_fs
      = Some (PointerWrap.mk PointerWrap.MODE_READ [], fs'')
    ∧ fs'' !! "/wii/tmp"%string = Some File.Dir
    ∧ ∀ k, File.below "/wii/tmp" k = true → fs'' !! k = example_fs !! k.
Proof.
  destruct (save_restore_round_trip (H := example_session)
              (PointerWrap.mk PointerWrap.MODE_WRITE []) example_fs)
    as (pw' & Hsave & Hrestore).
  - apply wf_check_correct. vm_compute. reflexivity.
  - intros k data _. apply sizes_check_correct. vm_compute. reflexivity.
  - reflexivity.
  - pose proof Hsave as Hpw'.
    rewrite (DoState_save (H := example_session)) in Hpw' by reflexivity.
    injection Hpw' as Hpw'.
    destruct (Hrestore
                (PointerWrap.mk PointerWrap.MODE_READ (PointerWrap.stream pw'))
                stale_fs [])
      as (fs'' & Hrun & Hdir & Hsame).
    + apply wf_check_correct. vm_compute. reflexivity.
    + vm_compute. reflexivity.
    + vm_compute. reflexivity.
    + by rewrite <- Hpw'.
    + rewrite <- Hpw'. by rewrite app_nil_r.
    + exists pw', fs''. auto.
Defined.

(** The model run on files of 0, 1, 65536, 65537 and 131072 bytes, restored
    over a scratch directory that holds other entries. *)
Example chunky_round_trip :
  (save_then_restore (H := example_session) chunky_fs stale_fs
     ≫= λ r, Some (length (PointerWrap.stream r.1),
                   entries_eqb
                     (map_to_list (scratch_entries (H := example_session) r.2))
                     (map_to_list (scratch_entries (H := example_session) chunky_fs))))
  = Some (O, true).
Proof. vm_compute. reflexivity. Qed.

(** C1, as the spec states it, fails for a file of 4 GiB: the length field
    of a file record has 32 bits, so the record declares 0 bytes and the
    restored file is empty. *)
Lemma truncated_file_round_trip (data : list Byte.byte) :
  u32 (u64 (Z.of_nat (length data))) = 0 →
  ∃ fs'',
    save_then_restore (H := example_session) (big_fs data) (big_fs data)
    = Some (PointerWrap.mk PointerWrap.MODE_READ [], fs'')
    ∧ fs'' !! "/wii/tmp/big"%string = Some (File.Regular [])
    ∧ big_fs data !! "/wii/tmp/big"%string = Some (File.Regular data).
Proof.
  intros Hzero. unfold save_then_restore.
  rewrite (DoState_save (H := example_session)) by reflexivity.
  cbn [mbind option_bind PointerWrap.stream].
  assert (Hwf : File.wf (big_fs data)).
  { apply wf_check_correct. vm_compute. reflexivity. }
  eexists. split; [|split].
  - apply (DoState_restore (H := example_session) _ _
             (scratch_records (H := example_session) (big_fs data)) []).
    + reflexivity.
    + by rewrite app_nil_r.
    + eapply Forall_impl; [apply scratch_records_wf|]. by intros r [? _].
  - destruct (restored_lookup (H := example_session) (big_fs data) (big_fs data)
                Hwf Hwf) as (Hbelow & _); [reflexivity|reflexivity|].
    rewrite (Hbelow "/wii/tmp/big"%string) by reflexivity.
    change (big_fs data !! "/wii/tmp/big"%string) with (Some (File.Regular data)).
    simpl. by rewrite Hzero.
  - reflexivity.
Qed.

Lemma four_GiB_length : Z.of_nat (length four_GiB) = 2 ^ 32.
Proof.
  unfold four_GiB. rewrite repeat_length. apply Z2Nat.id.
  apply Z.pow_nonneg. lia.
Qed.

Lemma round_trip_4GiB_counterexample :
  ∃ fs'',
    save_then_restore (H := example_session) (big_fs four_GiB) (big_fs four_GiB)
    = Some (PointerWrap.mk PointerWrap.MODE_READ [], fs'')
    ∧ fs'' !! "/wii/tmp/big"%string = Some (File.Regular [])
    ∧ big_fs four_GiB !! "/wii/tmp/big"%string = Some (File.Regular four_GiB)
    ∧ File.below "/wii/tmp" "/wii/tmp/big" = true
    ∧ Z.of_nat (length four_GiB) = 2 ^ 32.
Proof.
  destruct (truncated_file_round_trip four_GiB) as (fs'' & Hrun & Hnew & Hold).
  { rewrite four_GiB_length. reflexivity. }
  exists fs''. split; [exact Hrun|]. split; [exact Hnew|].
  split; [exact Hold|]. split; [vm_compute; reflexivity|].
  apply four_GiB_length.
Qed.

(** ** Counting what lies below a directory *)

Lemma elem_of_entries_below (fs : File.FS) (d : string) (kn : string * File.node) :
  kn ∈ File.entries_below fs d ↔
  fs !! kn.1 = Some kn.2 ∧ File.below_rel d kn.1.
Proof.
  unfold File.entries_below. rewrite list_elem_of_filter, below_iff.
  destruct kn as [k v]. rewrite elem_of_map_to_list. simpl. tauto.
Qed.

Lemma NoDup_entries_below (fs : File.FS) (d : string) :
  NoDup (File.entries_below fs d).
Proof. apply NoDup_filter, NoDup_map_to_list. Qed.

Lemma NoDup_listing (fs : File.FS) (d : string) : NoDup (File.listing fs d).
Proof. apply NoDup_filter, NoDup_map_to_list. Qed.

Lemma entries_below_file (fs : File.FS) (k : string) (data : list Byte.byte) :
  File.wf fs → fs !! k = Some (File.Regular data) →
  File.entries_below fs k = [].
Proof.
  intros Hwf Hk. apply elem_of_nil_inv. intros [k' v'] [Hk' Hb]%elem_of_entries_below.
  simpl in *. pose proof (wf_ancestor _ _ _ _ Hwf Hk' Hb). congruence.
Qed.

Lemma siblings_not_below (d x y : string) :
  File.dirname x = Some d → File.dirname y = Some d → ¬ File.below_rel y x.
Proof.
  intros Hx Hy Hb. pose proof (dirname_length _ _ Hy) as Hlen.
  inversion Hb as [? Hxy|? p Hxp Hyp]; subst.
  - rewrite Hx in Hxy. injection Hxy as ->. lia.
  - rewrite Hx in Hxp. injection Hxp as <-.
    apply below_rel_length in Hyp. lia.
Qed.

Lemma ancestors_chain (a b z : string) :
  File.below_rel a z → File.below_rel b z →
  a = b ∨ File.below_rel a b ∨ File.below_rel b a.
Proof.
  intros Ha. revert b. induction Ha as [z Hz|z p Hz Ha IH]; intros b Hb.
  - inversion Hb as [? Hzb|? p Hzp Hbp]; subst.
    + left. congruence.
    + right. right. congruence.
  - inversion Hb as [? Hzb|? p' Hzp Hbp]; subst.
    + right. left. congruence.
    + apply IH. congruence.
Qed.

Lemma siblings_disjoint (d x y z : string) :
  File.dirname x = Some d → File.dirname y = Some d →
  z = x ∨ File.below_rel x z → z = y ∨ File.below_rel y z → x = y.
Proof.
  intros Hx Hy [->|Hxz] [Hzy|Hyz].
  - done.
  - exfalso. by eapply (siblings_not_below d x y).
  - subst z. exfalso. by eapply (siblings_not_below d y x).
  - destruct (ancestors_chain _ _ _ Hxz Hyz) as [?|[?|?]]; [done|exfalso..].
    + by eapply (siblings_not_below d y x).
    + by eapply (siblings_not_below d x y).
Qed.

(** The entries below a directory are its direct entries, each with what lies
    below it. *)
Lemma entries_below_partition (fs : File.FS) (d : string) :
  File.wf fs →
  File.entries_below fs d ≡ₚ
  File.listing fs d ≫= (λ kn, kn :: File.entries_below fs kn.1).
Proof.
  intros Hwf. apply NoDup_Permutation.
  - apply NoDup_entries_below.
  - apply NoDup_bind; [| |apply NoDup_listing].
    + intros [k1 v1] [k2 v2] [k v] [H1 Hd1]%elem_of_listing
        [H2 Hd2]%elem_of_listing Hin1 Hin2. simpl in *.
      assert (k1 = k2) as ->.
      { apply (siblings_disjoint d k1 k2 k Hd1 Hd2).
        - apply elem_of_cons in Hin1 as [[= -> _]|[_ ?]%elem_of_entries_below]; auto.
        - apply elem_of_cons in Hin2 as [[= -> _]|[_ ?]%elem_of_entries_below]; auto. }
      congruence.
    + intros [k v] _. apply NoDup_cons. split; [|apply NoDup_entries_below].
      intros [_ Hb]%elem_of_entries_below. by apply below_rel_irrefl in Hb.
  - intros [k v]. rewrite elem_of_entries_below, list_elem_of_bind. simpl. split.
    + intros [Hk Hb]. destruct (below_rel_first _ _ Hb) as (ck & Hck & Hstep).
      destruct Hstep as [->|Hstep].
      * exists (ck, v). split; [apply elem_of_cons; auto|].
        by apply elem_of_listing.
      * exists (ck, File.Dir). split.
        -- apply elem_of_cons. right. by apply elem_of_entries_below.
        -- apply elem_of_listing. split; [|done]. simpl.
           exact (wf_ancestor fs k ck v Hwf Hk Hstep).
    + intros ([ck cv] & Hin & [Hck Hd]%elem_of_listing). simpl in *.
      apply elem_of_cons in Hin as [[= -> ->]|[Hk Hb]%elem_of_entries_below].
      * split; [done|]. by constructor.
      * simpl in *. split; [done|].
        eapply below_rel_trans; [|exact Hb]. by constructor.
Qed.

Lemma total_bytes_perm (l1 l2 : list (string * File.node)) :
  l1 ≡ₚ l2 →
  foldr (λ kn acc, File.node_bytes kn.2 + acc) 0 l1
  = foldr (λ kn acc, File.node_bytes kn.2 + acc) 0 l2.
Proof. induction 1; simpl; lia. Qed.

Lemma total_bytes_app (l1 l2 : list (string * File.node)) :
  foldr (λ kn acc, File.node_bytes kn.2 + acc) 0 (l1 ++ l2)
  = foldr (λ kn acc, File.node_bytes kn.2 + acc) 0 l1
    + foldr (λ kn acc, File.node_bytes kn.2 + acc) 0 l2.
Proof. induction l1; simpl; lia. Qed.

Lemma u64_add_l (a b : Z) : u64 (u64 a + b) = u64 (a + b).
Proof. unfold u64. apply Zplus_mod_idemp_l. Qed.

Lemma u64_add_r (a b : Z) : u64 (a + u64 b) = u64 (a + b).
Proof. unfold u64. apply Zplus_mod_idemp_r. Qed.

Lemma u64_step (a x : Z) : u64 (u64 (u64 a + u64 x) + 1) = u64 (a + x + 1).
Proof.
  rewrite u64_add_l, <- Z.add_assoc, u64_add_l.
  rewrite (Z.add_comm (u64 x) 1), Z.add_assoc, u64_add_r. f_equal. lia.
Qed.

Lemma u64_u64 (a : Z) : u64 (u64 a) = u64 a.
Proof. unfold u64. apply Zmod_mod. Qed.

Lemma ComputeTotalFileSize_unfold (e : File.FSTEntry) :
  ComputeTotalFileSize e =
  fold_left
    (λ sizeOfFiles entry,
       if File.isDirectory entry
       then u64 (sizeOfFiles + ComputeTotalFileSize entry)
       else u64 (sizeOfFiles + File.size entry))
    (File.children e) 0.
Proof. by destruct e. Qed.

Section Totals.

Variable fs : File.FS.
Hypothesis Hwf : File.wf fs.

Lemma fold_children_totals (L : list (string * File.node))
    (f : string * File.node → File.FSTEntry) (a b : Z) :
  Forall (λ kn, child_totals_ok fs (f kn) kn) L →
  fold_left File.add_child_size (map f L) (u64 a)
  = u64 (a + Z.of_nat (length (L ≫= λ kn, kn :: File.entries_below fs kn.1)))
  ∧ fold_left
      (λ sizeOfFiles entry,
         if File.isDirectory entry
         then u64 (sizeOfFiles + ComputeTotalFileSize entry)
         else u64 (sizeOfFiles + File.size entry))
      (map f L) (u64 b)
    = u64 (b + foldr (λ kn acc, File.node_bytes kn.2 + acc) 0
                 (L ≫= λ kn, kn :: File.entries_below fs kn.1)).
Proof.
  revert a b. induction L as [|kn L IH]; intros a b HL.
  - simpl. by rewrite !Z.add_0_r.
  - apply Forall_cons in HL as [[Hc Hb] HL].
    rewrite bind_cons. cbn [map fold_left].
    rewrite length_app, total_bytes_app. cbn [length foldr].
    destruct (IH (a + Z.of_nat (length (File.entries_below fs kn.1)) + 1)
                (b + (File.node_bytes kn.2 + File.descendant_bytes fs kn.1)) HL)
      as [IH1 IH2].
    split.
    + unfold File.add_child_size at 2. rewrite Hc.
      rewrite u64_step, IH1. f_equal. lia.
    + assert (Hstep : (if File.isDirectory (f kn)
                       then u64 (u64 b + ComputeTotalFileSize (f kn))
                       else u64 (u64 b + File.size (f kn)))
                      = u64 (b + (File.node_bytes kn.2
                                  + File.descendant_bytes fs kn.1))).
      { destruct (File.isDirectory (f kn)); rewrite Hb;
          by rewrite u64_add_r, u64_add_l. }
      rewrite Hstep, IH2. unfold File.descendant_bytes. f_equal. lia.
Qed.

Lemma scan_totals (n : nat) (d : string) :
  (File.depth_bound fs ≤ n + String.length d)%nat →
  File.size (File.ScanDirectoryTree_fuel n fs d true)
  = u64 (File.descendant_count fs d)
  ∧ ComputeTotalFileSize (File.ScanDirectoryTree_fuel n fs d true)
    = u64 (File.descendant_bytes fs d).
Proof.
  revert d. induction n as [|n IH]; intros d Hn.
  all: rewrite scan_size, ComputeTotalFileSize_unfold, scan_children.
  all: unfold File.descendant_count, File.descendant_bytes.
  all: rewrite (total_bytes_perm _ _ (entries_below_partition fs d Hwf)).
  all: rewrite (Permutation_length (entries_below_partition fs d Hwf)).
  all: match goal with
       | |- context [map ?f (File.listing fs ?d')] =>
           destruct (fold_children_totals (File.listing fs d') f 0 0) as [H1 H2]
       end.
  all: try (change (u64 0) with 0 in H1, H2; rewrite !Z.add_0_l in H1, H2;
            by split).
  all: apply Forall_forall; intros [k v] [Hk Hd]%elem_of_listing; simpl in *.
  - apply depth_bound_ge in Hk. apply dirname_length in Hd. lia.
  - unfold child_totals_ok, scan_child. simpl. destruct v as [|data]; simpl.
    + rewrite scan_isDirectory, <- ComputeTotalFileSize_unfold.
      destruct (IH k) as [IH1 IH2]; [apply dirname_length in Hd; lia|].
      by rewrite IH1, IH2.
    + unfold File.descendant_bytes.
      rewrite (entries_below_file fs k data) by done. simpl.
      by rewrite Z.add_0_r.
Qed.

End Totals.

(** ** The vectored dispatcher: GETUSAGE *)

Lemma string_compare_refl (s : string) : String.compare s s = Eq.
Proof.
  induction s as [|c s IH]; [done|]. simpl.
  unfold Ascii.compare. by rewrite N.compare_refl.
Qed.

Lemma is_Eq_compare (a b : string) : is_Eq (String.compare a b) = true ↔ a = b.
Proof.
  split.
  - intros H. apply String.compare_eq_iff. by destruct (String.compare a b).
  - intros ->. by rewrite string_compare_refl.
Qed.

Lemma substring_0_short (s t : string) (n : nat) :
  (String.length t < n)%nat → String.substring 0 n s = t → s = t.
Proof.
  revert t n. induction s as [|c s IH]; intros t n Hlen Hsub.
  - destruct n; simpl in Hsub; by subst.
  - destruct n as [|n]; [lia|]. simpl in Hsub. subst t. f_equal.
    simpl in Hlen. apply (IH _ n); [lia|done].
Qed.

Lemma substring_0_all (t : string) (n : nat) :
  (String.length t ≤ n)%nat → String.substring 0 n t = t.
Proof.
  revert n. induction t as [|c t IH]; intros n Hlen.
  - by destruct n.
  - destruct n as [|n]; [simpl in Hlen; lia|]. simpl. f_equal.
    apply IH. simpl in Hlen. lia.
Qed.

(** The legacy test succeeds on the two paths themselves and on nothing
    else: the sixteen characters compared are one more than the paths
    have. *)
Lemma legacy_prefix_iff (relativepath : string) :
  legacy_prefix relativepath = true ↔
  relativepath = "/title/00010001"%string ∨ relativepath = "/title/00010005"%string.
Proof.
  unfold legacy_prefix, compare_0. rewrite orb_true_iff, !is_Eq_compare. split.
  - intros [H|H]; [left|right];
      apply (substring_0_short _ _ 16); (done || simpl; lia).
  - intros [-> | ->]; [left|right]; reflexivity.
Qed.

Lemma u32_u64 (z : Z) : u32 (u64 z) = u32 z.
Proof.
  unfold u32, u64. apply Z.mod_mod_divide. exists (2 ^ 32). reflexivity.
Qed.

Lemma u32_add_r (a b : Z) : u32 (a + u32 b) = u32 (a + b).
Proof. unfold u32. apply Zplus_mod_idemp_r. Qed.

Section Usage.

Context `{!Platform}.

Lemma GETUSAGE_run (request : IOSIOCtlVRequest) (mem : Memory.t) (fs : File.FS)
    (in0 io0 io1 : IOVector.t) :
  ioctl_of (ioctlv_request request) = Some IOCTLV_GETUSAGE →
  in_vectors request !! 0%nat = Some in0 →
  io_vectors request !! 0%nat = Some io0 →
  io_vectors request !! 1%nat = Some io1 →
  let relativepath :=
    Memory.GetString mem (IOVector.address in0) (IOVector.size in0) in
  let path := HLE_IPC_BuildFilename relativepath in
  IsValidWiiPath relativepath = true →
  File.wf fs →
  IOCtlV request mem fs =
  let '(fsBlocks, iNodes) :=
    if File.IsDirectory fs path then
      if legacy_prefix relativepath then (23, 42)
      else (u32 (u64 (File.descendant_bytes fs path) / 16384),
            u32 (1 + File.descendant_count fs path))
    else (0, 0) in
  Some (GetFSReply IPC_SUCCESS,
        Memory.Write_U32 iNodes (IOVector.address io1)
          (Memory.Write_U32 fsBlocks (IOVector.address io0) mem)).
Proof.
  intros Hop Hin0 Hio0 Hio1 relativepath path Hvalid Hwf.
  unfold IOCtlV, GETUSAGE. rewrite Hop, Hin0. cbn [mbind option_bind].
  fold relativepath. rewrite Hvalid. cbn [negb]. fold path.
  rewrite Hio0, Hio1.
  destruct (File.IsDirectory fs path); [|reflexivity].
  destruct (legacy_prefix relativepath); [reflexivity|].
  destruct (scan_totals fs Hwf (File.depth_bound fs) path) as [Hsize Hbytes];
    [lia|].
  unfold File.ScanDirectoryTree. rewrite Hsize, Hbytes.
  cbn [mbind option_bind]. by rewrite u32_u64, u32_add_r.
Qed.

(** C2, as the code has it.  A GETUSAGE request whose guest path is one of
    the two legacy paths themselves succeeds and answers blocks=23, inodes=42
    when the host path is a directory, whatever the directory holds, and
    blocks=0, inodes=0 when it is not. *)
Theorem GETUSAGE_legacy (request : IOSIOCtlVRequest) (mem : Memory.t)
    (fs : File.FS) (in0 io0 io1 : IOVector.t) :
  ioctl_of (ioctlv_request request) = Some IOCTLV_GETUSAGE →
  in_vectors request !! 0%nat = Some in0 →
  io_vectors request !! 0%nat = Some io0 →
  io_vectors request !! 1%nat = Some io1 →
  let relativepath :=
    Memory.GetString mem (IOVector.address in0) (IOVector.size in0) in
  relativepath = "/title/00010001"%string
  ∨ relativepath = "/title/00010005"%string →
  IOCtlV request mem fs =
  Some (GetFSReply IPC_SUCCESS,
        if File.IsDirectory fs (HLE_IPC_BuildFilename relativepath)
        then Memory.Write_U32 42 (IOVector.address io1)
               (Memory.Write_U32 23 (IOVector.address io0) mem)
        else Memory.Write_U32 0 (IOVector.address io1)
               (Memory.Write_U32 0 (IOVector.address io0) mem)).
Proof.
  intros Hop Hin0 Hio0 Hio1 relativepath Hpath.
  assert (Hvalid : IsValidWiiPath relativepath = true).
  { by destruct Hpath as [-> | ->]. }
  apply legacy_prefix_iff in Hpath.
  unfold IOCtlV, GETUSAGE. rewrite Hop, Hin0. cbn [mbind option_bind].
  fold relativepath. rewrite Hvalid, Hpath, Hio0, Hio1. cbn [negb].
  by destruct (File.IsDirectory fs _).
Qed.

(** C4, with the width of the reply.  A GETUSAGE request with a valid guest
    path that fails the legacy test succeeds.  For a directory the reply is
    inodes = 1 + the number of entries below it and blocks = the bytes of the
    files below it divided by 16384, the sum taken in 64 bits and both
    numbers cut to the 32 bits of the reply: the plain values whenever these
    fit.  An empty directory gives inodes=1, blocks=0; a path that is no
    directory gives blocks=0, inodes=0. *)
Theorem GETUSAGE_usage (request : IOSIOCtlVRequest) (mem : Memory.t)
    (fs : File.FS) (in0 io0 io1 : IOVector.t) :
  ioctl_of (ioctlv_request request) = Some IOCTLV_GETUSAGE →
  in_vectors request !! 0%nat = Some in0 →
  io_vectors request !! 0%nat = Some io0 →
  io_vectors request !! 1%nat = Some io1 →
  let relativepath :=
    Memory.GetString mem (IOVector.address in0) (IOVector.size in0) in
  let path := HLE_IPC_BuildFilename relativepath in
  IsValidWiiPath relativepath = true →
  legacy_prefix relativepath = false →
  File.wf fs →
  ∃ fsBlocks iNodes,
    IOCtlV request mem fs =
    Some (GetFSReply IPC_SUCCESS,
          Memory.Write_U32 iNodes (IOVector.address io1)
            (Memory.Write_U32 fsBlocks (IOVector.address io0) mem))
    ∧ (File.IsDirectory fs path = true →
         iNodes = u32 (1 + File.descendant_count fs path)
         ∧ fsBlocks = u32 (u64 (File.descendant_bytes fs path) / 16384)
         ∧ (1 + File.descendant_count fs path < 2 ^ 32 →
            File.descendant_bytes fs path < 2 ^ 46 →
            iNodes = 1 + File.descendant_count fs path
            ∧ fsBlocks = File.descendant_bytes fs path / 16384)
         ∧ (File.entries_below fs path = [] → iNodes = 1 ∧ fsBlocks = 0))
    ∧ (File.IsDirectory fs path = false → iNodes = 0 ∧ fsBlocks = 0).
Proof.
  intros Hop Hin0 Hio0 Hio1 relativepath path Hvalid Hlegacy Hwf.
  rewrite (GETUSAGE_run request mem fs in0 io0 io1) by done.
  fold relativepath. fold path. rewrite Hlegacy.
  destruct (File.IsDirectory fs path).
  - eexists _, _. split; [reflexivity|]. split; [|done]. intros _.
    split; [done|]. split; [done|]. split.
    + intros Hcount Hbytes.
      assert (0 ≤ File.descendant_count fs path)
        by (unfold File.descendant_count; lia).
      assert (0 ≤ File.descendant_bytes fs path).
      { unfold File.descendant_bytes.
        induction (File.entries_below fs path) as [|[k [|data]] l IH];
          simpl; lia. }
      rewrite u32_small by lia. unfold u64. rewrite Z.mod_small by lia.
      rewrite u32_small; [done|]. split; [apply Z.div_pos; lia|].
      apply Z.div_lt_upper_bound; lia.
    + intros Hempty. unfold File.descendant_count, File.descendant_bytes.
      by rewrite Hempty.
  - eexists _, _. split; [reflexivity|]. by split.
Qed.

End Usage.

(** ** Worked examples for GETUSAGE *)

Lemma GETUSAGE_legacy_witness :
  IOCtlV (H := example_platform) usage_request
    (path_memory "/title/00010001") title_fs =
  Some (GetFSReply (H := example_platform) IPC_SUCCESS,
        Memory.Write_U32 42 0x204
          (Memory.Write_U32 23 0x200 (path_memory "/title/00010001"))).
Proof.
  apply (GETUSAGE_legacy (H := example_platform) usage_request
           (path_memory "/title/00010001") title_fs
           (IOVector.mk 0x100 64) (IOVector.mk 0x200 4) (IOVector.mk 0x204 4));
    try reflexivity.
  left. vm_compute. reflexivity.
Defined.

(** C2, as the spec states it, fails twice.  The legacy path itself, where
    the host has no such directory, answers blocks=0, inodes=0; and a path
    that only begins with the legacy path, here a directory holding one
    file, is accounted like any other: blocks=0, inodes=2. *)
Lemma GETUSAGE_prefix_counterexample :
  String.prefix "/title/00010001" "/title/00010001" = true
  ∧ usage_reply (H := example_platform) usage_request
      (path_memory "/title/00010001") example_fs
    = Some (IPC_SUCCESS, 0, 0)
  ∧ String.prefix "/title/00010001" "/title/00010001/data" = true
  ∧ usage_reply (H := example_platform) usage_request
      (path_memory "/title/00010001/data") title_fs
    = Some (IPC_SUCCESS, 0, 2).
Proof. repeat split; vm_compute; reflexivity. Qed.

Lemma GETUSAGE_usage_witness :
  ∃ fsBlocks iNodes,
    IOCtlV (H := example_platform) usage_request (path_memory "/tmp") example_fs
    = Some (GetFSReply (H := example_platform) IPC_SUCCESS,
            Memory.Write_U32 iNodes 0x204
              (Memory.Write_U32 fsBlocks 0x200 (path_memory "/tmp")))
    ∧ iNodes = 7 ∧ fsBlocks = 0.
Proof.
  destruct (GETUSAGE_usage (H := example_platform) usage_request
              (path_memory "/tmp") example_fs
              (IOVector.mk 0x100 64) (IOVector.mk 0x200 4) (IOVector.mk 0x204 4))
    as (fsBlocks & iNodes & Hrun & Hdir & _); try reflexivity.
  - apply wf_check_correct. vm_compute. reflexivity.
  - exists fsBlocks, iNodes. split; [exact Hrun|].
    destruct Hdir as (Hi & Hb & _); [vm_compute; reflexivity|].
    split; [rewrite Hi|rewrite Hb]; vm_compute; reflexivity.
Defined.

Lemma GETUSAGE_large_file (data : list Byte.byte) (blocks : Z) :
  u32 (u64 (Z.of_nat (length data)) / 16384) = blocks →
  IOCtlV (H := example_platform) usage_request (path_memory "/tmp") (big_fs data)
  = Some (GetFSReply (H := example_platform) IPC_SUCCESS,
          Memory.Write_U32 2 0x204
            (Memory.Write_U32 blocks 0x200 (path_memory "/tmp")))
  ∧ File.descendant_bytes (big_fs data) "/wii/tmp" = Z.of_nat (length data).
Proof.
  intros Hblocks.
  assert (Hbelow : File.entries_below (big_fs data) "/wii/tmp"
                   = [("/wii/tmp/big"%string, File.Regular data)]).
  { vm_compute. reflexivity. }
  assert (Hbytes : File.descendant_bytes (big_fs data) "/wii/tmp"
                   = Z.of_nat (length data)).
  { unfold File.descendant_bytes. rewrite Hbelow. simpl. lia. }
  split; [|exact Hbytes].
  rewrite (GETUSAGE_run (H := example_platform) usage_request
             (path_memory "/tmp") (big_fs data)
             (IOVector.mk 0x100 64) (IOVector.mk 0x200 4) (IOVector.mk 0x204 4));
    try reflexivity.
  - change (Memory.GetString _ _ _) with "/tmp"%string.
    change (HLE_IPC_BuildFilename "/tmp") with "/wii/tmp"%string.
    change (File.IsDirectory (big_fs data) "/wii/tmp") with true.
    change (legacy_prefix "/tmp") with false. cbv iota.
    rewrite Hbytes, Hblocks. unfold File.descendant_count. rewrite Hbelow.
    reflexivity.
  - apply wf_check_correct. vm_compute. reflexivity.
Qed.

Lemma sixty_four_TiB_length : Z.of_nat (length sixty_four_TiB) = 2 ^ 46.
Proof.
  unfold sixty_four_TiB. rewrite repeat_length. apply Z2Nat.id.
  apply Z.pow_nonneg. lia.
Qed.

(** C4, as the spec states it, fails once the numbers outgrow the reply:
    below a directory holding one file of 64 TiB the bytes divided by 16384
    are 2^32, and the reply carries blocks=0. *)
Lemma GETUSAGE_overflow_counterexample :
  IOCtlV (H := example_platform) usage_request (path_memory "/tmp")
    (big_fs sixty_four_TiB)
  = Some (GetFSReply (H := example_platform) IPC_SUCCESS,
          Memory.Write_U32 2 0x204
            (Memory.Write_U32 0 0x200 (path_memory "/tmp")))
  ∧ File.descendant_bytes (big_fs sixty_four_TiB) "/wii/tmp" / 16384 = 2 ^ 32.
Proof.
  destruct (GETUSAGE_large_file sixty_four_TiB 0) as [Hrun Hbytes].
  { rewrite sixty_four_TiB_length. reflexivity. }
  split; [exact Hrun|]. rewrite Hbytes, sixty_four_TiB_length. reflexivity.
Qed.

(** ** The vectored dispatcher: READ_DIR *)

Lemma ltb_le (a b : string) : String.ltb a b = true → String.le a b.
Proof.
  unfold String.ltb, String.le, String.leb.
  by destruct (String.compare a b).
Qed.

Lemma not_ltb_le (a b : string) : String.ltb a b = false → String.le b a.
Proof.
  unfold String.ltb, String.le, String.leb.
  rewrite (String.compare_antisym a b).
  by destruct (String.compare b a).
Qed.

Lemma sort_insert_perm (x : File.FSTEntry) (l : list File.FSTEntry) :
  sort_insert x l ≡ₚ x :: l.
Proof.
  induction l as [|y l IH]; [done|]. simpl.
  destruct (String.ltb _ _); [done|]. rewrite IH. apply Permutation_swap.
Qed.

Lemma std_sort_perm (l : list File.FSTEntry) : std_sort l ≡ₚ l.
Proof.
  induction l as [|x l IH]; [done|]. simpl.
  by rewrite sort_insert_perm, IH.
Qed.

Lemma sort_insert_sorted (x : File.FSTEntry) (l : list File.FSTEntry) :
  Sorted (λ a b, String.le (File.virtualName a) (File.virtualName b)) l →
  Sorted (λ a b, String.le (File.virtualName a) (File.virtualName b))
    (sort_insert x l).
Proof.
  induction 1 as [|y l Hl IH Hhd]; simpl.
  - repeat constructor.
  - destruct (String.ltb _ _) eqn:Hlt.
    + constructor; [by constructor|]. constructor. by apply ltb_le.
    + constructor; [done|].
      destruct l as [|z l]; simpl in *.
      * constructor. by apply not_ltb_le.
      * destruct (String.ltb (File.virtualName x) (File.virtualName z));
          constructor; [by apply not_ltb_le|by inversion Hhd].
Qed.

Lemma std_sort_sorted (l : list File.FSTEntry) :
  StronglySorted String.le (map File.virtualName (std_sort l)).
Proof.
  assert (Hs : Sorted (λ a b, String.le (File.virtualName a) (File.virtualName b))
                 (std_sort l)).
  { induction l as [|x l IH]; [constructor|]. by apply sort_insert_sorted. }
  apply Sorted_StronglySorted; [apply _|].
  induction Hs as [|y k Hk IH Hhd]; [constructor|]. simpl.
  constructor; [done|]. destruct Hhd; simpl; by constructor.
Qed.

Lemma bytes_of_string_length (s : string) :
  length (bytes_of_string s) = String.length s.
Proof. induction s; simpl; auto. Qed.

Lemma write_bytes_app (a : Z) (l1 l2 : list Z) (m : Memory.t) :
  Memory.write_bytes a (l1 ++ l2) m =
  Memory.write_bytes (a + Z.of_nat (length l1)) l2 (Memory.write_bytes a l1 m).
Proof.
  revert a m. induction l1 as [|b l1 IH]; intros a m; simpl.
  - by rewrite Z.add_0_r.
  - rewrite IH. f_equal. lia.
Qed.

Lemma write_bytes_ext (a : Z) (l : list Z) (m1 m2 : Memory.t) :
  (∀ x, m1 x = m2 x) →
  ∀ x, Memory.write_bytes a l m1 x = Memory.write_bytes a l m2 x.
Proof.
  revert a m1 m2. induction l as [|b l IH]; intros a m1 m2 Hm x; simpl; [done|].
  apply IH. intros y. unfold Memory.Write_U8. by destruct (y =? a).
Qed.

Lemma Write_U32_ext (v a : Z) (m1 m2 : Memory.t) :
  (∀ x, m1 x = m2 x) →
  ∀ x, Memory.Write_U32 v a m1 x = Memory.Write_U32 v a m2 x.
Proof.
  intros Hm x. unfold Memory.Write_U32, Memory.Write_U8.
  repeat (destruct (x =? _); [done|]). done.
Qed.

Lemma Read_U32_range (m : Memory.t) (a : Z) : 0 ≤ Memory.Read_U32 m a < 2 ^ 32.
Proof.
  unfold Memory.Read_U32, Memory.Read_U8.
  pose proof (u8_range (m a)). pose proof (u8_range (m (a + 1))).
  pose proof (u8_range (m (a + 2))). pose proof (u8_range (m (a + 3))). lia.
Qed.

(** One name stored by the loop: [strcpy], then the terminator. *)
Lemma store_name (p : Z) (name : string) (m : Memory.t) (x : Z) :
  no_NUL name →
  Memory.Write_U8 0 (p + Z.of_nat (String.length name))
    (Memory.write_bytes p (bytes_of_string (c_str name) ++ [0]) m) x
  = Memory.write_bytes p (bytes_of_string name ++ [0]) m x.
Proof.
  intros Hname. rewrite Hname. unfold Memory.Write_U8 at 1.
  destruct (Z.eqb_spec x (p + Z.of_nat (String.length name))) as [->|]; [|done].
  rewrite write_bytes_app, bytes_of_string_length. simpl.
  unfold Memory.Write_U8. by rewrite Z.eqb_refl.
Qed.

Lemma pack_names_spec (kids : list File.FSTEntry) (i MaxEntries numFiles p : Z)
    (mem : Memory.t) :
  Forall no_NUL (map File.virtualName kids) →
  let k := Nat.min (Z.to_nat (MaxEntries - i)) (length kids) in
  let r := pack_names kids i MaxEntries numFiles p mem in
  r.1.1 = numFiles + Z.of_nat k
  ∧ ∀ x, r.2 x
         = Memory.write_bytes p (packed (take k (map File.virtualName kids))) mem x.
Proof.
  revert i numFiles p mem.
  induction kids as [|c rest IH]; intros i numFiles p mem Hnames.
  - cbv zeta. simpl. rewrite Nat.min_0_r. simpl. split; [lia|done].
  - apply Forall_cons in Hnames as [Hc Hrest]. cbv zeta. cbn [pack_names].
    destruct (Z.ltb_spec i MaxEntries) as [Hlt|Hge].
    + destruct (IH (i + 1) (numFiles + 1)
                  (p + Z.of_nat (String.length (File.virtualName c)) + 1)
                  (Memory.Write_U8 0
                     (p + Z.of_nat (String.length (File.virtualName c)))
                     (Memory.write_bytes p
                        (bytes_of_string (c_str (File.virtualName c)) ++ [0])
                        mem)) Hrest) as [IH1 IH2].
      replace (Nat.min (Z.to_nat (MaxEntries - i)) (length (c :: rest)))
        with (S (Nat.min (Z.to_nat (MaxEntries - (i + 1))) (length rest)))
        by (simpl; lia).
      split; [rewrite IH1; lia|]. intros x. rewrite IH2.
      cbn [map take]. unfold packed. rewrite bind_cons.
      rewrite (write_bytes_app p (bytes_of_string (File.virtualName c) ++ [0])).
      rewrite length_app, bytes_of_string_length.
      simpl length.
      replace (p + Z.of_nat (String.length (File.virtualName c) + 1))
        with (p + Z.of_nat (String.length (File.virtualName c)) + 1) by lia.
      apply write_bytes_ext. intros y. by apply store_name.
    + replace (Z.to_nat (MaxEntries - i)) with O by lia. simpl.
      split; [lia|done].
Qed.

Section ReadDir.

Context `{!Platform}.

(** A run of READ_DIR in listing mode, in terms of the word that bounds its
    loop: the one at the address of the first input. *)
Lemma READ_DIR_run (request : IOSIOCtlVRequest) (mem : Memory.t)
    (fs : File.FS) (in0 io0 io1 : IOVector.t) :
  ioctl_of (ioctlv_request request) = Some IOCTLV_READ_DIR →
  in_vectors request !! 0%nat = Some in0 →
  io_vectors request !! 0%nat = Some io0 →
  io_vectors request !! 1%nat = Some io1 →
  let relative_path :=
    Memory.GetString mem (IOVector.address in0) (IOVector.size in0) in
  let DirName := HLE_IPC_BuildFilename relative_path in
  let MaxEntries := Memory.Read_U32 mem (IOVector.address in0) in
  let N := Z.of_nat (length (child_names fs DirName)) in
  IsValidWiiPath relative_path = true →
  File.IsDirectory fs DirName = true →
  Forall no_NUL (child_names fs DirName) →
  ∃ sorted mem',
    sorted ≡ₚ child_names fs DirName
    ∧ StronglySorted String.le sorted
    ∧ IOCtlV request mem fs = Some (GetFSReply IPC_SUCCESS, mem')
    ∧ ∀ x,
        mem' x =
        Memory.Write_U32 (Z.min MaxEntries N) (IOVector.address io1)
          (Memory.write_bytes (IOVector.address io0)
             (packed (take (Z.to_nat (Z.min MaxEntries N)) sorted))
             (Memory.Memset (IOVector.address io0) 0 (IOVector.size io0) mem)) x.
Proof.
  intros Hop Hin0 Hio0 Hio1 relative_path DirName MaxEntries N Hvalid Hdir Hnames.
  set (kids := std_sort
         (map (λ child, set_virtualName (UnescapeFileName (File.virtualName child)) child)
            (File.children (File.ScanDirectoryTree fs DirName false)))).
  assert (Hkids : map File.virtualName kids ≡ₚ child_names fs DirName).
  { subst kids. rewrite std_sort_perm. unfold File.ScanDirectoryTree.
    rewrite scan_children. unfold child_names.
    rewrite !map_map. done. }
  assert (Hlen : length kids = length (child_names fs DirName)).
  { by rewrite <- (Permutation_length Hkids), length_map. }
  exists (map File.virtualName kids).
  unfold IOCtlV, READ_DIR. rewrite Hop, Hin0. cbn [mbind option_bind].
  fold relative_path. rewrite Hvalid. cbn [negb]. fold DirName.
  assert (Hex : File.Exists fs DirName = true).
  { unfold File.Exists, File.IsDirectory in *. by destruct (fs !! DirName). }
  rewrite Hex, Hdir. cbn [negb].
  assert (Hmode : (length (io_vectors request) =? 1)%nat = false).
  { apply Nat.eqb_neq. apply lookup_lt_Some in Hio1. lia. }
  rewrite Hmode, andb_false_r, Hio0. cbn [mbind option_bind]. fold kids.
  fold MaxEntries.
  pose proof (pack_names_spec kids 0 MaxEntries 0 (IOVector.address io0)
                (Memory.Memset (IOVector.address io0) 0 (IOVector.size io0) mem))
    as Hpack.
  destruct (pack_names kids 0 MaxEntries 0 (IOVector.address io0) _)
    as [[numFiles pFilename] mem1].
  destruct Hpack as [Hnum Hmem].
  { eapply Forall_forall. intros name Hname.
    eapply Forall_forall in Hnames; [exact Hnames|]. by rewrite <- Hkids. }
  simpl in Hnum, Hmem. rewrite Hio1. cbn [mbind option_bind].
  pose proof (Read_U32_range mem (IOVector.address in0)) as Hmax.
  fold MaxEntries in Hmax.
  assert (Hmin : Z.of_nat (Nat.min (Z.to_nat (MaxEntries - 0)) (length kids))
                 = Z.min MaxEntries N).
  { subst N. rewrite Hlen. lia. }
  eexists. split; [done|]. split; [apply std_sort_sorted|].
  split; [reflexivity|]. intros x.
  rewrite Hnum, Z.add_0_l, Hmin. rewrite u32_small by lia.
  apply Write_U32_ext. intros y. rewrite Hmem. do 3 f_equal. lia.
Qed.

End ReadDir.

(** ** Worked examples for READ_DIR *)

(** The four names of the example come out in order, whatever the order in
    which the host lists them. *)
Example READ_DIR_example :
  listing_reply (H := example_platform) listing_request (path_memory "/tmp")
    listing_fs 32
  = Some (IPC_SUCCESS,
          bytes_of_string "alpha" ++ [0] ++ bytes_of_string "bravo" ++ [0]
          ++ bytes_of_string "charlie" ++ [0] ++ bytes_of_string "delta" ++ [0]
          ++ [0; 0; 0; 0; 0; 0],
          4).
Proof. vm_compute. reflexivity. Qed.

(** ** Valid guest paths *)

(** A guest path is accepted exactly when its first character is the
    separator; the empty path is not. *)
Theorem IsValidWiiPath_iff (path : string) :
  IsValidWiiPath path = true ↔ ∃ rest, path = String "/" rest.
Proof.
  unfold IsValidWiiPath, compare_0. rewrite is_Eq_compare. split.
  - destruct path as [|c rest]; [done|]. simpl.
    destruct rest; intros [= ->]; eauto.
  - intros [rest ->]. by destruct rest.
Qed.

(** ** The scalar dispatcher: paths, results and what is left alone *)

Lemma Read_Write_U8 (v a : Z) (m : Memory.t) :
  Memory.Read_U8 (Memory.Write_U8 v a m) a = u8 v.
Proof.
  unfold Memory.Read_U8, Memory.Write_U8. rewrite Z.eqb_refl. apply u8_u8.
Qed.

Lemma Write_U8_other (v a x : Z) (m : Memory.t) :
  x ≠ a → Memory.Write_U8 v a m x = m x.
Proof. intros Hx. unfold Memory.Write_U8. by destruct (Z.eqb_spec x a). Qed.

Lemma Write_U16_other (v a x : Z) (m : Memory.t) :
  x < a ∨ a + 2 ≤ x → Memory.Write_U16 v a m x = m x.
Proof.
  intros Hx. unfold Memory.Write_U16. rewrite !Write_U8_other by lia. done.
Qed.

Lemma Write_U32_other (v a x : Z) (m : Memory.t) :
  x < a ∨ a + 4 ≤ x → Memory.Write_U32 v a m x = m x.
Proof.
  intros Hx. unfold Memory.Write_U32. rewrite !Write_U8_other by lia. done.
Qed.

Lemma write_bytes_other (l : list Z) (a x : Z) (m : Memory.t) :
  x < a ∨ a + Z.of_nat (length l) ≤ x → Memory.write_bytes a l m x = m x.
Proof. intros [?|?]; [by apply write_bytes_below|by apply write_bytes_above]. Qed.

Lemma Memset_other (a v size x : Z) (m : Memory.t) :
  ¬ (a ≤ x < a + size) → Memory.Memset a v size m x = m x.
Proof.
  intros Hx. unfold Memory.Memset.
  destruct (Z.leb_spec a x), (Z.ltb_spec x (a + size)); simpl; (done || lia).
Qed.

Lemma Memset_inside (a v size x : Z) (m : Memory.t) :
  a ≤ x < a + size → Memory.Memset a v size m x = u8 v.
Proof.
  intros Hx. unfold Memory.Memset.
  destruct (Z.leb_spec a x), (Z.ltb_spec x (a + size)); simpl; (done || lia).
Qed.

Lemma read_bytes_ext (m1 m2 : Memory.t) (a : Z) (n : nat) :
  (∀ x, a ≤ x < a + Z.of_nat n → m1 x = m2 x) →
  Memory.read_bytes m1 a n = Memory.read_bytes m2 a n.
Proof.
  revert a. induction n as [|n IH]; intros a Hm; simpl; [done|]. f_equal.
  - unfold Memory.Read_U8. rewrite Hm; [done|lia].
  - apply IH. intros x Hx. apply Hm. lia.
Qed.

Lemma read_bytes_u8 (m : Memory.t) (a : Z) (n : nat) :
  map u8 (Memory.read_bytes m a n) = Memory.read_bytes m a n.
Proof.
  revert a. induction n as [|n IH]; intros a; simpl; [done|].
  rewrite IH. f_equal. unfold Memory.Read_U8. apply u8_u8.
Qed.

Section ScalarCommands.

Context `{!Platform}.

(** Every scalar command that takes a guest path answers FS_EINVAL when the
    path does not begin with the separator, and then leaves the host file
    system as it was and guest memory with nothing but the zero fill. *)
Theorem invalid_path_rejected (request : IOSIOCtlRequest) (mem : Memory.t)
    (fs : File.FS) (op : Ioctl) (wii_path : string) :
  let mem1 :=
    Memory.Memset (buffer_out request) 0 (buffer_out_size request) mem in
  ioctl_of (ioctl_request request) = Some op →
  wii_path_of op request mem1 = Some wii_path →
  IsValidWiiPath wii_path = false →
  IOCtl request mem fs = (GetFSReply FS_EINVAL, mem1, fs).
Proof.
  intros mem1 Hop Hpath Hbad. rewrite IOCtl_unfold. unfold ExecuteCommand.
  rewrite Hop. cbv beta iota zeta. fold mem1.
  destruct op; simpl in Hpath; try discriminate; injection Hpath as Hpath;
    rewrite Hpath, Hbad; reflexivity.
Qed.

(** RENAME_FILE checks the destination before it touches the host: a
    destination that does not begin with the separator gives FS_EINVAL, and
    neither a parent path is created nor anything deleted or renamed. *)
Theorem RENAME_FILE_invalid_destination (request : IOSIOCtlRequest)
    (mem : Memory.t) (fs : File.FS) :
  let mem1 :=
    Memory.Memset (buffer_out request) 0 (buffer_out_size request) mem in
  ioctl_of (ioctl_request request) = Some IOCTL_RENAME_FILE →
  IsValidWiiPath (Memory.GetString mem1 (u32 (buffer_in request + 64)) 64)
  = false →
  IOCtl request mem fs = (GetFSReply FS_EINVAL, mem1, fs).
Proof.
  intros mem1 Hop Hbad. rewrite IOCtl_unfold. unfold ExecuteCommand.
  rewrite Hop. cbv beta iota zeta. fold mem1.
  set (source := Memory.GetString mem1 (u32 (buffer_in request + 0)) 64).
  set (destination := Memory.GetString mem1 (u32 (buffer_in request + 64)) 64) in *.
  destruct (IsValidWiiPath source); [|done]. cbn [negb].
  destruct (IsValidWiiPath destination); [done|]. done.
Qed.

(** SET_ATTR looks at nothing but the first character of the path: on every
    valid path, whether the host has it or not, it answers IPC_SUCCESS and
    stores no attribute: the file system is returned as it was. *)
Theorem SET_ATTR_changes_nothing (request : IOSIOCtlRequest) (mem : Memory.t)
    (fs : File.FS) :
  let mem1 :=
    Memory.Memset (buffer_out request) 0 (buffer_out_size request) mem in
  ioctl_of (ioctl_request request) = Some IOCTL_SET_ATTR →
  IsValidWiiPath
    (Memory.GetString mem1 (u32 (u32 (buffer_in request + 4) + 2)) 64) = true →
  IOCtl request mem fs = (GetFSReply IPC_SUCCESS, mem1, fs).
Proof.
  intros mem1 Hop Hvalid. rewrite IOCtl_unfold. unfold ExecuteCommand.
  rewrite Hop. cbv beta iota zeta. fold mem1. by rewrite Hvalid.
Qed.

(** CREATE_DIR on a valid path always answers IPC_SUCCESS, whether the
    directory is there already or could not be made; the one host call is
    [CreateFullPath] on the host path with a separator appended. *)
Theorem CREATE_DIR_always_succeeds (request : IOSIOCtlRequest) (mem : Memory.t)
    (fs : File.FS) :
  let mem1 :=
    Memory.Memset (buffer_out request) 0 (buffer_out_size request) mem in
  let wii_path :=
    Memory.GetString mem1 (u32 (u32 (buffer_in request + 4) + 2)) 64 in
  ioctl_of (ioctl_request request) = Some IOCTL_CREATE_DIR →
  IsValidWiiPath wii_path = true →
  IOCtl request mem fs =
  (GetFSReply IPC_SUCCESS, mem1,
   CreateFullPath (HLE_IPC_BuildFilename wii_path ++ "/") fs).
Proof.
  intros mem1 wii_path Hop Hvalid. rewrite IOCtl_unfold. unfold ExecuteCommand.
  rewrite Hop. cbv beta iota zeta. fold mem1. fold wii_path. by rewrite Hvalid.
Qed.

(** DELETE_FILE on a valid path always answers IPC_SUCCESS, also when
    neither the file nor the directory could be deleted.  The directory is
    tried only after the file delete failed. *)
Theorem DELETE_FILE_always_succeeds (request : IOSIOCtlRequest) (mem : Memory.t)
    (fs : File.FS) :
  let mem1 :=
    Memory.Memset (buffer_out request) 0 (buffer_out_size request) mem in
  let wii_path := Memory.GetString mem1 (u32 (buffer_in request + 0)) 64 in
  let Filename := HLE_IPC_BuildFilename wii_path in
  ioctl_of (ioctl_request request) = Some IOCTL_DELETE_FILE →
  IsValidWiiPath wii_path = true →
  IOCtl request mem fs =
  (GetFSReply IPC_SUCCESS, mem1,
   if (Delete Filename fs).1 then (Delete Filename fs).2
   else (DeleteDir Filename (Delete Filename fs).2).2).
Proof.
  intros mem1 wii_path Filename Hop Hvalid. rewrite IOCtl_unfold.
  unfold ExecuteCommand. rewrite Hop. cbv beta iota zeta. fold mem1.
  fold wii_path. rewrite Hvalid. cbn [negb]. fold Filename.
  destruct (Delete Filename fs) as [[|] fs1]; [done|]. cbn [fst snd].
  by destruct (DeleteDir Filename fs1).
Qed.

(** Only CREATE_DIR, DELETE_FILE, RENAME_FILE and CREATE_FILE can change the
    host file system: every other request, known or not, returns it as it
    was, whatever guest memory holds. *)
Theorem read_only_commands (request : IOSIOCtlRequest) (mem : Memory.t)
    (fs : File.FS) :
  ioctl_of (ioctl_request request) ≠ Some IOCTL_CREATE_DIR →
  ioctl_of (ioctl_request request) ≠ Some IOCTL_DELETE_FILE →
  ioctl_of (ioctl_request request) ≠ Some IOCTL_RENAME_FILE →
  ioctl_of (ioctl_request request) ≠ Some IOCTL_CREATE_FILE →
  (IOCtl request mem fs).2 = fs.
Proof.
  intros H1 H2 H3 H4. rewrite IOCtl_unfold. cbv zeta. cbn [snd].
  unfold ExecuteCommand.
  destruct (ioctl_of (ioctl_request request)) as [[]|]; try done.
  - by destruct (_ <? _).
  - by destruct (negb _).
  - destruct (negb (IsValidWiiPath _)); [done|].
    destruct (negb _); [done|]. by destruct (_ =? _).
Qed.

(** The result codes of the scalar dispatcher: FS_EEXIST comes from
    CREATE_FILE only, FS_ENOENT from GET_ATTR and RENAME_FILE only, -1017
    from GET_STATS only, and IPC_SUCCESS never from SHUTDOWN or from a request
    that is no scalar command. *)
Theorem scalar_result_codes (request : IOSIOCtlRequest) (mem : Memory.t)
    (fs : File.FS) :
  let op := ioctl_of (ioctl_request request) in
  let r := return_value (IOCtl request mem fs).1.1 in
  (r = IPC_SUCCESS ∨ r = FS_EINVAL ∨ r = FS_EEXIST ∨ r = FS_ENOENT
   ∨ r = S32Literal (-1017))
  ∧ (r = FS_EEXIST → op = Some IOCTL_CREATE_FILE)
  ∧ (r = FS_ENOENT → op = Some IOCTL_GET_ATTR ∨ op = Some IOCTL_RENAME_FILE)
  ∧ (r = S32Literal (-1017) → op = Some IOCTL_GET_STATS)
  ∧ (r = IPC_SUCCESS →
     op ≠ None ∧ op ≠ Some IOCTL_SHUTDOWN ∧ op ≠ Some IOCTLV_READ_DIR
     ∧ op ≠ Some IOCTLV_GETUSAGE).
Proof.
  cbv zeta. rewrite IOCtl_unfold. cbv zeta. cbn [fst snd return_value GetFSReply].
  unfold ExecuteCommand.
  destruct (ioctl_of (ioctl_request request)) as [[]|].
  all: repeat match goal with
       | |- context [if ?b then _ else _] => destruct b
       | |- context [let '(_, _) := ?p in _] => destruct p
       end.
  all: cbn [fst snd]; repeat split; (discriminate || tauto || eauto 6).
Qed.

End ScalarCommands.

(** ** The scalar dispatcher: what reaches guest memory *)

Lemma Read_U32_ext (m1 m2 : Memory.t) (a : Z) :
  (∀ x, a ≤ x < a + 4 → m1 x = m2 x) →
  Memory.Read_U32 m1 a = Memory.Read_U32 m2 a.
Proof.
  intros Hm. unfold Memory.Read_U32, Memory.Read_U8.
  rewrite !Hm by lia. done.
Qed.

Lemma Read_U16_ext (m1 m2 : Memory.t) (a : Z) :
  (∀ x, a ≤ x < a + 2 → m1 x = m2 x) →
  Memory.Read_U16 m1 a = Memory.Read_U16 m2 a.
Proof.
  intros Hm. unfold Memory.Read_U16, Memory.Read_U8.
  rewrite !Hm by lia. done.
Qed.

Lemma u8_shiftr (v k : Z) : 0 ≤ k → u8 (v ≫ k) = (v / 2 ^ k) mod 2 ^ 8.
Proof. intros Hk. unfold u8. by rewrite Z.shiftr_div_pow2. Qed.

(** A 32-bit value is its four bytes, the most significant first. *)
Lemma u32_bytes (v : Z) :
  u8 (v ≫ 24) * 2 ^ 24 + u8 (v ≫ 16) * 2 ^ 16 + u8 (v ≫ 8) * 2 ^ 8 + u8 v
  = u32 v.
Proof.
  rewrite !u8_shiftr by lia. unfold u8, u32.
  pose proof (Z.div_mod v (2 ^ 8) ltac:(lia)) as H0.
  pose proof (Z.div_mod (v / 2 ^ 8) (2 ^ 8) ltac:(lia)) as H1.
  pose proof (Z.div_mod (v / 2 ^ 16) (2 ^ 8) ltac:(lia)) as H2.
  pose proof (Z.div_mod (v / 2 ^ 24) (2 ^ 8) ltac:(lia)) as H3.
  replace (v / 2 ^ 8 / 2 ^ 8) with (v / 2 ^ 16) in H1
    by (rewrite Z.div_div by lia; reflexivity).
  replace (v / 2 ^ 16 / 2 ^ 8) with (v / 2 ^ 24) in H2
    by (rewrite Z.div_div by lia; reflexivity).
  pose proof (Z.mod_pos_bound v (2 ^ 8) ltac:(lia)).
  pose proof (Z.mod_pos_bound (v / 2 ^ 8) (2 ^ 8) ltac:(lia)).
  pose proof (Z.mod_pos_bound (v / 2 ^ 16) (2 ^ 8) ltac:(lia)).
  pose proof (Z.mod_pos_bound (v / 2 ^ 24) (2 ^ 8) ltac:(lia)).
  apply (Z.mod_unique v (2 ^ 32) (v / 2 ^ 24 / 2 ^ 8)); lia.
Qed.

Lemma u16_bytes (v : Z) : u8 (v ≫ 8) * 2 ^ 8 + u8 v = u16 v.
Proof.
  rewrite !u8_shiftr by lia. unfold u8, u16.
  pose proof (Z.div_mod v (2 ^ 8) ltac:(lia)) as H0.
  pose proof (Z.div_mod (v / 2 ^ 8) (2 ^ 8) ltac:(lia)) as H1.
  pose proof (Z.mod_pos_bound v (2 ^ 8) ltac:(lia)).
  pose proof (Z.mod_pos_bound (v / 2 ^ 8) (2 ^ 8) ltac:(lia)).
  apply (Z.mod_unique v (2 ^ 16) (v / 2 ^ 8 / 2 ^ 8)); lia.
Qed.

(** What [Write_U32] stores, [Read_U32] reads back. *)
Lemma Read_Write_U32 (v a : Z) (m : Memory.t) :
  Memory.Read_U32 (Memory.Write_U32 v a m) a = u32 v.
Proof.
  rewrite <- u32_bytes. unfold Memory.Read_U32, Memory.Write_U32.
  unfold Memory.Read_U8.
  rewrite (Write_U8_other _ _ a), (Write_U8_other _ _ a),
    (Write_U8_other _ _ a) by lia.
  rewrite (Write_U8_other _ _ (a + 1)), (Write_U8_other _ _ (a + 1)) by lia.
  rewrite (Write_U8_other _ _ (a + 2)) by lia.
  unfold Memory.Write_U8. rewrite !Z.eqb_refl. by rewrite !u8_u8.
Qed.

Lemma Read_Write_U16 (v a : Z) (m : Memory.t) :
  Memory.Read_U16 (Memory.Write_U16 v a m) a = u16 v.
Proof.
  rewrite <- u16_bytes. unfold Memory.Read_U16, Memory.Write_U16.
  unfold Memory.Read_U8. rewrite (Write_U8_other _ _ a) by lia.
  unfold Memory.Write_U8. rewrite !Z.eqb_refl. by rewrite !u8_u8.
Qed.

Section ScalarMemory.

Context `{!Platform}.

(** The scalar dispatcher writes guest memory nowhere but inside the output
    buffer of the request, whatever the command and however it ends. *)
Theorem IOCtl_writes_output_buffer_only (request : IOSIOCtlRequest)
    (mem : Memory.t) (fs : File.FS) (x : Z) :
  0 ≤ buffer_out request →
  buffer_out request + buffer_out_size request ≤ 2 ^ 32 →
  ¬ (buffer_out request ≤ x < buffer_out request + buffer_out_size request) →
  (IOCtl request mem fs).1.2 x = mem x.
Proof.
  intros Hlo Hhi Hx. rewrite IOCtl_unfold. cbv zeta. cbn [fst snd].
  rewrite <- (Memset_other (buffer_out request) 0 (buffer_out_size request) x mem)
    by done.
  set (mem1 := Memory.Memset _ _ _ mem). unfold ExecuteCommand.
  destruct (ioctl_of (ioctl_request request)) as [[]|].
  - (* GET_STATS *)
    destruct (Z.ltb_spec (buffer_out_size request) 28); [done|]. cbn [fst snd].
    apply write_bytes_other. simpl. lia.
  - by destruct (negb _).
  - done.
  - by destruct (negb _).
  - (* GET_ATTR *)
    destruct (negb (IsValidWiiPath _)); [done|].
    destruct (negb _); [done|].
    destruct (Z.eqb_spec (buffer_out_size request) 76) as [Hsize|]; [|done].
    cbn [fst snd].
    assert (E1 : u32 (buffer_out request + 4) = buffer_out request + 4)
      by (apply u32_small; lia).
    rewrite E1.
    assert (E2 : u32 (buffer_out request + 4 + 2) = buffer_out request + 6)
      by (rewrite u32_small; lia).
    rewrite E2.
    assert (E3 : u32 (buffer_out request + 6 + 64) = buffer_out request + 70)
      by (rewrite u32_small; lia).
    rewrite E3.
    assert (E4 : u32 (buffer_out request + 70 + 1) = buffer_out request + 71)
      by (rewrite u32_small; lia).
    rewrite E4.
    assert (E5 : u32 (buffer_out request + 71 + 1) = buffer_out request + 72)
      by (rewrite u32_small; lia).
    rewrite E5.
    assert (E6 : u32 (buffer_out request + 72 + 1) = buffer_out request + 73)
      by (rewrite u32_small; lia).
    rewrite E6.
    rewrite !Write_U8_other by lia.
    rewrite write_bytes_other by (rewrite read_bytes_length; lia).
    rewrite Write_U16_other by lia. apply Write_U32_other. lia.
  - destruct (negb _); [done|]. destruct (Delete _ _) as [[|] ?]; [done|].
    by destruct (DeleteDir _ _).
  - set (source := Memory.GetString mem1 (u32 (buffer_in request + 0)) 64).
    set (destination := Memory.GetString mem1 (u32 (buffer_in request + 64)) 64).
    destruct (IsValidWiiPath source); [|done].
    destruct (IsValidWiiPath destination); [|done]. cbn [negb].
    by destruct (Rename _ _ _) as [[|] ?].
  - destruct (negb _); [done|]. destruct (File.Exists _ _); [done|].
    by destruct (CreateEmptyFile _ _) as [[|] ?].
  - done.
  - done.
  - done.
Qed.

(** GET_ATTR on a valid path the host has, with an output buffer of 76 bytes
    that does not overlap the input: the reply is owner 0, group 0x3031, the
    64 bytes of the input path as they were given, the three permissions 3
    and the attributes 0; the last two bytes of the buffer stay zero. *)
Theorem GET_ATTR_record (request : IOSIOCtlRequest) (mem : Memory.t)
    (fs : File.FS) :
  let mem1 :=
    Memory.Memset (buffer_out request) 0 (buffer_out_size request) mem in
  let wii_path := Memory.GetString mem1 (buffer_in request) 64 in
  let out := buffer_out request in
  ioctl_of (ioctl_request request) = Some IOCTL_GET_ATTR →
  IsValidWiiPath wii_path = true →
  File.Exists fs (HLE_IPC_BuildFilename wii_path) = true →
  buffer_out_size request = 76 →
  0 ≤ out → out + 76 ≤ 2 ^ 32 →
  buffer_in request + 64 ≤ out ∨ out + 76 ≤ buffer_in request →
  ∃ mem',
    IOCtl request mem fs = (GetFSReply IPC_SUCCESS, mem', fs)
    ∧ Memory.Read_U32 mem' out = 0
    ∧ Memory.Read_U16 mem' (out + 4) = 0x3031
    ∧ Memory.read_bytes mem' (out + 6) 64
      = Memory.read_bytes mem (buffer_in request) 64
    ∧ Memory.read_bytes mem' (out + 70) 6 = [3; 3; 3; 0; 0; 0].
Proof.
  intros mem1 wii_path out Hop Hvalid Hex Hsize Hlo Hhi Hdisj.
  rewrite IOCtl_unfold. unfold ExecuteCommand. rewrite Hop.
  cbv beta iota zeta. fold mem1. fold wii_path. rewrite Hvalid, Hex, orb_true_r.
  rewrite Hsize. cbn [negb fst snd Z.eqb Pos.eqb]. fold out.
  assert (E1 : u32 (out + 4) = out + 4) by (apply u32_small; lia).
  rewrite E1.
  assert (E2 : u32 (out + 4 + 2) = out + 6) by (rewrite u32_small; lia).
  rewrite E2.
  assert (E3 : u32 (out + 6 + 64) = out + 70) by (rewrite u32_small; lia).
  rewrite E3.
  assert (E4 : u32 (out + 70 + 1) = out + 71) by (rewrite u32_small; lia).
  rewrite E4.
  assert (E5 : u32 (out + 71 + 1) = out + 72) by (rewrite u32_small; lia).
  rewrite E5.
  assert (E6 : u32 (out + 72 + 1) = out + 73) by (rewrite u32_small; lia).
  rewrite E6.
  set (m2 := Memory.Write_U32 0 out mem1).
  set (m3 := Memory.Write_U16 12337 (out + 4) m2).
  set (src := Memory.read_bytes m3 (buffer_in request) 64).
  set (m4 := Memory.write_bytes (out + 6) src m3).
  assert (Hsrc : length src = 64%nat) by apply read_bytes_length.
  eexists. split; [reflexivity|]. split; [|split; [|split]].
  - rewrite (Read_U32_ext _ m2).
    + apply Read_Write_U32.
    + intros x Hx. rewrite !Write_U8_other by lia. subst m4.
      rewrite write_bytes_other by lia. subst m3.
      apply Write_U16_other. lia.
  - rewrite (Read_U16_ext _ m3).
    + apply Read_Write_U16.
    + intros x Hx. rewrite !Write_U8_other by lia. subst m4.
      apply write_bytes_other. lia.
  - rewrite (read_bytes_ext _ m4).
    + subst m4. rewrite <- Hsrc at 2. rewrite read_write_bytes.
      subst src. rewrite read_bytes_u8. apply read_bytes_ext.
      intros x Hx. subst m3 m2 mem1.
      rewrite Write_U16_other, Write_U32_other, Memset_other by lia. done.
    + intros x Hx. rewrite !Write_U8_other by lia. done.
  - assert (Hzero : ∀ x, out + 74 ≤ x < out + 76 →
              Memory.Write_U8 0 (out + 73)
                (Memory.Write_U8 3 (out + 72)
                   (Memory.Write_U8 3 (out + 71)
                      (Memory.Write_U8 3 (out + 70) m4))) x = 0).
    { intros x Hx. rewrite !Write_U8_other by lia. subst m4.
      rewrite write_bytes_other by lia. subst m3 m2 mem1.
      rewrite Write_U16_other, Write_U32_other, Memset_inside by lia. done. }
    cbn [Memory.read_bytes]. unfold Memory.Read_U8.
    replace (out + 70 + 1) with (out + 71) by lia.
    replace (out + 71 + 1) with (out + 72) by lia.
    replace (out + 72 + 1) with (out + 73) by lia.
    replace (out + 73 + 1) with (out + 74) by lia.
    replace (out + 74 + 1) with (out + 75) by lia.
    rewrite (Hzero (out + 74)), (Hzero (out + 75)) by lia.
    rewrite (Write_U8_other _ _ (out + 70)), (Write_U8_other _ _ (out + 70)),
      (Write_U8_other _ _ (out + 70)) by lia.
    rewrite (Write_U8_other _ _ (out + 71)), (Write_U8_other _ _ (out + 71))
      by lia.
    rewrite (Write_U8_other _ _ (out + 72)) by lia.
    unfold Memory.Write_U8. rewrite !Z.eqb_refl. reflexivity.
Qed.

(** GET_ATTR on a valid path the host does not have answers FS_ENOENT and
    writes no record: guest memory holds nothing but the zero fill. *)
Theorem GET_ATTR_missing (request : IOSIOCtlRequest) (mem : Memory.t)
    (fs : File.FS) :
  let mem1 :=
    Memory.Memset (buffer_out request) 0 (buffer_out_size request) mem in
  let wii_path := Memory.GetString mem1 (buffer_in request) 64 in
  ioctl_of (ioctl_request request) = Some IOCTL_GET_ATTR →
  IsValidWiiPath wii_path = true →
  File.Exists fs (HLE_IPC_BuildFilename wii_path) = false →
  IOCtl request mem fs = (GetFSReply FS_ENOENT, mem1, fs).
Proof.
  intros mem1 wii_path Hop Hvalid Hex. rewrite IOCtl_unfold.
  unfold ExecuteCommand. rewrite Hop. cbv beta iota zeta.
  fold mem1. fold wii_path. rewrite Hvalid, Hex.
  unfold File.Exists, File.IsDirectory in *.
  by destruct (fs !! _).
Qed.

End ScalarMemory.

(** ** Worked examples for the scalar commands *)

Lemma invalid_path_rejected_witness :
  IOCtl (H := example_platform) (mkIOSIOCtlRequest 0x07 0x100 64 0 0)
    bad_path_memory example_fs =
  (GetFSReply (H := example_platform) FS_EINVAL,
   Memory.Memset 0 0 0 bad_path_memory, example_fs).
Proof.
  apply (invalid_path_rejected (H := example_platform)
           (mkIOSIOCtlRequest 0x07 0x100 64 0 0) bad_path_memory example_fs
           IOCTL_DELETE_FILE "tmp/a.bin");
    vm_compute; reflexivity.
Defined.

Lemma RENAME_FILE_invalid_destination_witness :
  IOCtl (H := example_platform) (mkIOSIOCtlRequest 0x08 0x100 128 0 0)
    rename_memory example_fs =
  (GetFSReply (H := example_platform) FS_EINVAL,
   Memory.Memset 0 0 0 rename_memory, example_fs).
Proof.
  apply (RENAME_FILE_invalid_destination (H := example_platform)
           (mkIOSIOCtlRequest 0x08 0x100 128 0 0) rename_memory example_fs);
    vm_compute; reflexivity.
Defined.

Lemma SET_ATTR_changes_nothing_witness :
  IOCtl (H := example_platform) (mkIOSIOCtlRequest 0x05 0x100 74 0 0)
    set_attr_memory example_fs =
  (GetFSReply (H := example_platform) IPC_SUCCESS,
   Memory.Memset 0 0 0 set_attr_memory, example_fs).
Proof.
  apply (SET_ATTR_changes_nothing (H := example_platform)
           (mkIOSIOCtlRequest 0x05 0x100 74 0 0) set_attr_memory example_fs);
    vm_compute; reflexivity.
Defined.

Lemma CREATE_DIR_always_succeeds_witness :
  IOCtl (H := example_platform) (mkIOSIOCtlRequest 0x03 0x100 74 0 0)
    create_file_memory example_fs =
  (GetFSReply (H := example_platform) IPC_SUCCESS,
   Memory.Memset 0 0 0 create_file_memory,
   CreateFullPath (Platform := example_platform) "/wii/tmp/a.bin/" example_fs).
Proof.
  apply (CREATE_DIR_always_succeeds (H := example_platform)
           (mkIOSIOCtlRequest 0x03 0x100 74 0 0) create_file_memory example_fs);
    vm_compute; reflexivity.
Defined.

Lemma DELETE_FILE_always_succeeds_witness :
  IOCtl (H := example_platform) (mkIOSIOCtlRequest 0x07 0x100 64 0 0)
    get_attr_memory example_fs =
  (GetFSReply (H := example_platform) IPC_SUCCESS,
   Memory.Memset 0 0 0 get_attr_memory, example_fs).
Proof.
  apply (DELETE_FILE_always_succeeds (H := example_platform)
           (mkIOSIOCtlRequest 0x07 0x100 64 0 0) get_attr_memory example_fs);
    vm_compute; reflexivity.
Defined.

Lemma read_only_commands_witness :
  (IOCtl (H := example_platform) (mkIOSIOCtlRequest 0x06 0x100 64 0x200 76)
     get_attr_memory example_fs).2 = example_fs.
Proof.
  apply (read_only_commands (H := example_platform)
           (mkIOSIOCtlRequest 0x06 0x100 64 0x200 76) get_attr_memory example_fs);
    vm_compute; discriminate.
Defined.

Lemma IOCtl_writes_output_buffer_only_witness :
  (IOCtl (H := example_platform) (mkIOSIOCtlRequest 0x06 0x100 64 0x200 76)
     get_attr_memory example_fs).1.2 0x100 = get_attr_memory 0x100.
Proof.
  apply (IOCtl_writes_output_buffer_only (H := example_platform)
           (mkIOSIOCtlRequest 0x06 0x100 64 0x200 76) get_attr_memory example_fs
           0x100); simpl; lia.
Defined.

Lemma GET_ATTR_record_witness :
  ∃ mem',
    IOCtl (H := example_platform) (mkIOSIOCtlRequest 0x06 0x100 64 0x200 76)
      get_attr_memory example_fs =
    (GetFSReply (H := example_platform) IPC_SUCCESS, mem', example_fs)
    ∧ Memory.Read_U32 mem' 0x200 = 0
    ∧ Memory.Read_U16 mem' (0x200 + 4) = 0x3031
    ∧ Memory.read_bytes mem' (0x200 + 6) 64
      = Memory.read_bytes get_attr_memory 0x100 64
    ∧ Memory.read_bytes mem' (0x200 + 70) 6 = [3; 3; 3; 0; 0; 0].
Proof.
  apply (GET_ATTR_record (H := example_platform)
           (mkIOSIOCtlRequest 0x06 0x100 64 0x200 76) get_attr_memory example_fs);
    try (vm_compute; reflexivity); simpl; lia.
Defined.

Lemma GET_ATTR_missing_witness :
  IOCtl (H := example_platform) (mkIOSIOCtlRequest 0x06 0x106 64 0x200 76)
    set_attr_memory example_fs =
  (GetFSReply (H := example_platform) FS_ENOENT,
   Memory.Memset 0x200 0 76 set_attr_memory, example_fs).
Proof.
  apply (GET_ATTR_missing (H := example_platform)
           (mkIOSIOCtlRequest 0x06 0x106 64 0x200 76) set_attr_memory example_fs);
    vm_compute; reflexivity.
Defined.

(** ** The vectored dispatcher: error paths and the count of READ_DIR *)

Lemma u32_u32 (z : Z) : u32 (u32 z) = u32 z.
Proof. unfold u32. apply Zmod_mod. Qed.

Lemma NoDup_listing_names (fs : File.FS) (d : string) :
  NoDup (File.listing fs d).*1.
Proof.
  eapply sublist_NoDup; [apply (NoDup_fst_map_to_list fs)|].
  apply fmap_sublist, sublist_filter.
Qed.

Lemma elem_of_listing_names (fs : File.FS) (d k : string) :
  k ∈ (File.listing fs d).*1 ↔ is_Some (fs !! k) ∧ File.dirname k = Some d.
Proof.
  rewrite list_elem_of_fmap. split.
  - intros ([k' v] & -> & [Hk Hd]%elem_of_listing). simpl in *. eauto.
  - intros [[v Hv] Hd]. exists (k, v). split; [done|]. by apply elem_of_listing.
Qed.

Section Vectored.

Context `{!Platform}.

(** READ_DIR and GETUSAGE answer FS_EINVAL for a guest path that does not
    begin with the separator, and write nothing to guest memory. *)
Theorem IOCtlV_invalid_path (request : IOSIOCtlVRequest) (mem : Memory.t)
    (fs : File.FS) (in0 : IOVector.t) :
  ioctl_of (ioctlv_request request) = Some IOCTLV_READ_DIR
  ∨ ioctl_of (ioctlv_request request) = Some IOCTLV_GETUSAGE →
  in_vectors request !! 0%nat = Some in0 →
  IsValidWiiPath
    (Memory.GetString mem (IOVector.address in0) (IOVector.size in0)) = false →
  IOCtlV request mem fs = Some (GetFSReply FS_EINVAL, mem).
Proof.
  intros Hop Hin0 Hbad. unfold IOCtlV, READ_DIR, GETUSAGE.
  destruct Hop as [-> | ->]; rewrite Hin0; cbn [mbind option_bind];
    by rewrite Hbad.
Qed.

(** READ_DIR on a valid path that is no directory writes nothing: the answer
    is FS_ENOENT when the host has no such entry and FS_EINVAL when the
    entry is a file. *)
Theorem READ_DIR_not_a_directory (request : IOSIOCtlVRequest) (mem : Memory.t)
    (fs : File.FS) (in0 : IOVector.t) :
  ioctl_of (ioctlv_request request) = Some IOCTLV_READ_DIR →
  in_vectors request !! 0%nat = Some in0 →
  let relative_path :=
    Memory.GetString mem (IOVector.address in0) (IOVector.size in0) in
  let DirName := HLE_IPC_BuildFilename relative_path in
  IsValidWiiPath relative_path = true →
  File.IsDirectory fs DirName = false →
  IOCtlV request mem fs =
  Some (GetFSReply (if File.Exists fs DirName then FS_EINVAL else FS_ENOENT),
        mem).
Proof.
  intros Hop Hin0 relative_path DirName Hvalid Hdir.
  unfold IOCtlV, READ_DIR. rewrite Hop, Hin0. cbn [mbind option_bind].
  fold relative_path. rewrite Hvalid. cbn [negb]. fold DirName.
  rewrite Hdir. by destruct (File.Exists fs DirName).
Qed.

(** READ_DIR with exactly one input and one output on a valid path of a
    directory: the number of entries directly inside the directory is stored
    in the four bytes of the output, no name is written, and the rest of
    guest memory is left alone. *)
Theorem READ_DIR_count (request : IOSIOCtlVRequest) (mem : Memory.t)
    (fs : File.FS) (in0 io0 : IOVector.t) :
  ioctl_of (ioctlv_request request) = Some IOCTLV_READ_DIR →
  in_vectors request = [in0] →
  io_vectors request = [io0] →
  let relative_path :=
    Memory.GetString mem (IOVector.address in0) (IOVector.size in0) in
  let DirName := HLE_IPC_BuildFilename relative_path in
  IsValidWiiPath relative_path = true →
  File.IsDirectory fs DirName = true →
  ∃ (names : list string) (mem' : Memory.t),
    NoDup names
    ∧ (∀ k, k ∈ names ↔ is_Some (fs !! k) ∧ File.dirname k = Some DirName)
    ∧ IOCtlV request mem fs = Some (GetFSReply IPC_SUCCESS, mem')
    ∧ Memory.Read_U32 mem' (IOVector.address io0) = u32 (Z.of_nat (length names))
    ∧ ∀ x, x < IOVector.address io0 ∨ IOVector.address io0 + 4 ≤ x →
           mem' x = mem x.
Proof.
  intros Hop Hin Hio relative_path DirName Hvalid Hdir.
  exists (File.listing fs DirName).*1. eexists.
  split; [apply NoDup_listing_names|]. split; [apply elem_of_listing_names|].
  unfold IOCtlV, READ_DIR. rewrite Hop, Hin, Hio.
  cbn [lookup list_lookup mbind option_bind length Nat.eqb andb].
  fold relative_path. rewrite Hvalid. cbn [negb]. fold DirName.
  assert (Hex : File.Exists fs DirName = true).
  { unfold File.Exists, File.IsDirectory in *. by destruct (fs !! DirName). }
  rewrite Hex, Hdir. cbn [negb mbind option_bind].
  split; [reflexivity|]. split.
  - rewrite Read_Write_U32, u32_u32. unfold File.ScanDirectoryTree.
    by rewrite scan_children, !length_map.
  - intros x Hx. by apply Write_U32_other.
Qed.

End Vectored.

(** ** Worked examples for the vectored error paths *)

Lemma IOCtlV_invalid_path_witness :
  IOCtlV (H := example_platform) usage_request (path_memory "tmp") example_fs
  = Some (GetFSReply (H := example_platform) FS_EINVAL, path_memory "tmp").
Proof.
  apply (IOCtlV_invalid_path (H := example_platform) usage_request
           (path_memory "tmp") example_fs (IOVector.mk 0x100 64));
    [right; reflexivity | reflexivity | vm_compute; reflexivity].
Defined.

Lemma READ_DIR_not_a_directory_witness :
  IOCtlV (H := example_platform) count_request (path_memory "/tmp/a.bin")
    example_fs
  = Some (GetFSReply (H := example_platform) FS_EINVAL,
          path_memory "/tmp/a.bin")
  ∧ IOCtlV (H := example_platform) count_request (path_memory "/nothing")
      example_fs
    = Some (GetFSReply (H := example_platform) FS_ENOENT,
            path_memory "/nothing").
Proof.
  split.
  - apply (READ_DIR_not_a_directory (H := example_platform) count_request
             (path_memory "/tmp/a.bin") example_fs (IOVector.mk 0x100 64));
      vm_compute; reflexivity.
  - apply (READ_DIR_not_a_directory (H := example_platform) count_request
             (path_memory "/nothing") example_fs (IOVector.mk 0x100 64));
      vm_compute; reflexivity.
Defined.

Lemma READ_DIR_count_witness :
  ∃ (names : list string) (mem' : Memory.t),
    NoDup names
    ∧ (∀ k, k ∈ names ↔
            is_Some (example_fs !! k) ∧ File.dirname k = Some "/wii/tmp"%string)
    ∧ IOCtlV (H := example_platform) count_request (path_memory "/tmp")
        example_fs
      = Some (GetFSReply (H := example_platform) IPC_SUCCESS, mem')
    ∧ Memory.Read_U32 mem' 0x200 = u32 (Z.of_nat (length names))
    ∧ ∀ x, x < 0x200 ∨ 0x200 + 4 ≤ x → mem' x = path_memory "/tmp" x.
Proof.
  apply (READ_DIR_count (H := example_platform) count_request
           (path_memory "/tmp") example_fs
           (IOVector.mk 0x100 64) (IOVector.mk 0x200 4));
    vm_compute; reflexivity.
Defined.

(** The scratch directory of the example holds two entries. *)
Example READ_DIR_count_example :
  (IOCtlV (H := example_platform) count_request (path_memory "/tmp") example_fs)
    ≫= (λ r, Some (return_value r.1, Memory.Read_U32 r.2 0x200))
  = Some (IPC_SUCCESS, 2).
Proof. vm_compute. reflexivity. Qed.

(** ** The total size of the files of a tree *)

Lemma file_sizes_unfold (e : File.FSTEntry) :
  file_sizes e =
  flat_map
    (λ entry,
       if File.isDirectory entry then file_sizes entry else [File.size entry])
    (File.children e).
Proof. by destruct e. Qed.

Lemma entry_count_children (e c : File.FSTEntry) :
  c ∈ File.children e → (entry_count c < entry_count e)%nat.
Proof.
  rewrite (entry_count_unfold e).
  induction (File.children e) as [|c' kids IH]; [by intros ?%not_elem_of_nil|].
  rewrite queue_count_cons. intros [->|Hc]%elem_of_cons; [lia|].
  specialize (IH Hc). lia.
Qed.

Lemma ComputeTotalFileSize_fuel (n : nat) (e : File.FSTEntry) :
  (entry_count e ≤ n)%nat →
  ComputeTotalFileSize e = u64 (foldr Z.add 0 (file_sizes e)).
Proof.
  revert e. induction n as [|n IH]; intros e Hn.
  { rewrite entry_count_unfold in Hn. lia. }
  rewrite ComputeTotalFileSize_unfold, file_sizes_unfold.
  assert (Hkids : ∀ c, c ∈ File.children e → (entry_count c ≤ n)%nat).
  { intros c Hc%entry_count_children. lia. }
  assert (Hfold : ∀ kids a,
            (∀ c, c ∈ kids → (entry_count c ≤ n)%nat) →
            fold_left
              (λ sizeOfFiles entry,
                 if File.isDirectory entry
                 then u64 (sizeOfFiles + ComputeTotalFileSize entry)
                 else u64 (sizeOfFiles + File.size entry)) kids (u64 a)
            = u64 (a + foldr Z.add 0
                         (flat_map
                            (λ entry,
                               if File.isDirectory entry then file_sizes entry
                               else [File.size entry]) kids))).
  { clear e Hn Hkids. induction kids as [|c kids IHk]; intros a Hkids.
    - simpl. by rewrite Z.add_0_r.
    - cbn [fold_left flat_map]. rewrite foldr_app.
      assert (Hstep : (if File.isDirectory c
                       then u64 (u64 a + ComputeTotalFileSize c)
                       else u64 (u64 a + File.size c))
                      = u64 (a + foldr Z.add 0
                                   (if File.isDirectory c then file_sizes c
                                    else [File.size c]))).
      { destruct (File.isDirectory c).
        - rewrite (IH c) by (apply Hkids, list_elem_of_here).
          by rewrite u64_add_r, u64_add_l.
        - simpl. rewrite u64_add_l, Z.add_0_r. done. }
      rewrite Hstep, IHk.
      + apply (f_equal u64). clear Hstep.
        induction (if File.isDirectory c then file_sizes c else [File.size c])
          as [|z l IHl]; simpl; lia.
      + intros c' Hc'. apply Hkids. by apply list_elem_of_further. }
  change 0 with (u64 0) at 1. by rewrite Hfold.
Qed.

(** [ComputeTotalFileSize] is the sum, modulo 2^64, of the sizes of the
    files of the tree at every depth; the size fields of the directories,
    the root's included, play no part. *)
Theorem ComputeTotalFileSize_sum (parentEntry : File.FSTEntry) :
  ComputeTotalFileSize parentEntry
  = u64 (foldr Z.add 0 (file_sizes parentEntry)).
Proof. by apply (ComputeTotalFileSize_fuel (entry_count parentEntry)). Qed.

Example ComputeTotalFileSize_example :
  file_sizes example_tree = [3; 16384; 5]
  ∧ ComputeTotalFileSize example_tree = 16392.
Proof. split; reflexivity. Qed.

(** ** Opening the device *)

(** What clearing a directory leaves under each path: nothing below the
    directory, the directory itself where it can be made, and everything
    else as it was. *)
Lemma cleared_lookup (d k : string) (fs : File.FS) :
  File.wf fs →
  File.CreateDir d (File.DeleteDirRecursively d fs) !! k =
  if decide (k = d) then
    if File.Exists fs d then fs !! d
    else if File.parent_is_directory fs d then Some File.Dir else None
  else if File.below d k then None else fs !! k.
Proof.
  intros Hwf.
  assert (Hparent : File.parent_is_directory (File.DeleteDirRecursively d fs) d
                    = File.parent_is_directory fs d).
  { unfold File.parent_is_directory. destruct (File.dirname d) as [p|] eqn:Hp;
      [|done].
    apply dirname_length in Hp as Hlen.
    assert (Hkeep : File.DeleteDirRecursively d fs !! p = fs !! p).
    { destruct (File.IsDirectory fs d) eqn:Hdir.
      - rewrite DeleteDirRecursively_lookup by done.
        rewrite decide_False by (intros ->; lia).
        assert (File.below d p = false) as ->; [|done].
        apply below_false_iff. intros Hb%below_rel_length. lia.
      - unfold File.DeleteDirRecursively. by rewrite Hdir. }
    unfold File.IsDirectory. by rewrite Hkeep. }
  unfold File.CreateDir, File.Exists at 1.
  destruct (File.IsDirectory fs d) eqn:Hdir.
  - rewrite Hparent.
    rewrite (DeleteDirRecursively_lookup d d) by done.
    rewrite decide_True by done.
    assert (Hex : File.Exists fs d = true).
    { unfold File.Exists, File.IsDirectory in *. by destruct (fs !! d). }
    assert (Hpd : File.parent_is_directory fs d = true).
    { unfold File.parent_is_directory. destruct (File.dirname d) as [p|] eqn:Hp;
        [|done].
      unfold File.IsDirectory in *. destruct (fs !! d) as [v|] eqn:Hd; [|done].
      by rewrite (Hwf d v p Hd Hp). }
    rewrite Hex, Hpd. rewrite lookup_insert. case_decide as Hk.
    + subst k. rewrite decide_True by done.
      unfold File.IsDirectory in Hdir. by destruct (fs !! d) as [[|?]|].
    + rewrite decide_False by done.
      rewrite DeleteDirRecursively_lookup by done.
      by rewrite decide_False.
  - assert (Hdel : File.DeleteDirRecursively d fs = fs).
    { unfold File.DeleteDirRecursively. by rewrite Hdir. }
    rewrite Hdel. fold (File.Exists fs d).
    assert (Hbelow : k ≠ d → File.below d k = true → fs !! k = None).
    { intros _ Hb%below_iff. destruct (fs !! k) as [v|] eqn:Hk; [|done].
      pose proof (wf_ancestor _ _ _ _ Hwf Hk Hb) as Hd.
      unfold File.IsDirectory in Hdir. by rewrite Hd in Hdir. }
    destruct (File.Exists fs d) eqn:Hex.
    + case_decide as Hk; [by subst|].
      destruct (File.below d k) eqn:Hb; [by apply Hbelow|done].
    + destruct (File.parent_is_directory fs d).
      * rewrite lookup_insert. case_decide as Hk.
        -- subst. by rewrite decide_True.
        -- rewrite decide_False by done.
           destruct (File.below d k) eqn:Hb; [by apply Hbelow|done].
      * case_decide as Hk.
        -- subst. unfold File.Exists in Hex. by destruct (fs !! d).
        -- destruct (File.below d k) eqn:Hb; [by apply Hbelow|done].
Qed.

(** Clearing a directory keeps the file system well formed. *)
Lemma cleared_wf (d : string) (fs : File.FS) :
  File.wf fs → File.wf (File.CreateDir d (File.DeleteDirRecursively d fs)).
Proof.
  intros Hwf k v p Hk Hp. apply dirname_length in Hp as Hlen.
  rewrite cleared_lookup in Hk |- * by done.
  destruct (decide (k = d)) as [->|Hkd].
  - rewrite decide_False by (intros ->; lia).
    assert (File.below d p = false) as ->.
    { apply below_false_iff. intros Hb%below_rel_length. lia. }
    destruct (File.Exists fs d) eqn:Hex.
    + eapply Hwf; eauto.
    + unfold File.parent_is_directory in Hk. rewrite Hp in Hk.
      unfold File.IsDirectory in Hk. by destruct (fs !! p) as [[|?]|].
  - destruct (File.below d k) eqn:Hb; [done|].
    assert (Hpd : p ≠ d).
    { intros ->. apply below_false_iff in Hb. apply Hb. by constructor. }
    rewrite decide_False by done.
    assert (File.below d p = false) as ->.
    { apply below_false_iff. intros Hbp. apply below_false_iff in Hb.
      apply Hb. eapply File.below_deeper; eauto. }
    eapply Hwf; eauto.
Qed.

Section Opening.

Context `{!Platform}.

(** Opening the device always succeeds and marks it active.  Of a
    well-formed file system it removes every entry below the scratch
    directory of the guest and leaves all other entries alone; the scratch
    directory itself is there afterwards, empty, whenever its parent is a
    directory and no file has taken its place. *)
Theorem Open_clears_scratch (fs : File.FS) :
  File.wf fs →
  let Path := HLE_IPC_BuildFilename "/tmp" in
  ∃ fs',
    Open fs = (IPC_SUCCESS, true, fs')
    ∧ (∀ k, File.below Path k = true → fs' !! k = None)
    ∧ (∀ k, k ≠ Path → File.below Path k = false → fs' !! k = fs !! k)
    ∧ (File.parent_is_directory fs Path = true →
       File.Exists fs Path = File.IsDirectory fs Path →
       fs' !! Path = Some File.Dir).
Proof.
  intros Hwf Path. eexists. split; [reflexivity|]. fold Path.
  split; [|split].
  - intros k Hb. rewrite cleared_lookup by done.
    rewrite decide_False, Hb; [done|].
    intros ->. apply below_iff, below_rel_irrefl in Hb. done.
  - intros k Hk Hb. rewrite cleared_lookup by done.
    by rewrite decide_False, Hb.
  - intros Hparent Hfile. rewrite cleared_lookup by done.
    rewrite decide_True by done. rewrite Hparent.
    destruct (File.Exists fs Path); [|done].
    unfold File.IsDirectory in Hfile. by destruct (fs !! Path) as [[|?]|].
Qed.

(** Opening the device a second time changes nothing more: the file system
    after two opens is the one after the first. *)
Theorem Open_idempotent (fs : File.FS) :
  File.wf fs → (Open (Open fs).2).2 = (Open fs).2.
Proof.
  intros Hwf. unfold Open. cbv zeta. cbn [snd].
  set (Path := HLE_IPC_BuildFilename "/tmp").
  set (fs1 := File.CreateDir Path (File.DeleteDirRecursively Path fs)).
  assert (Hwf1 : File.wf fs1) by by apply cleared_wf.
  assert (H1 : ∀ k, fs1 !! k =
             if decide (k = Path) then
               if File.Exists fs Path then fs !! Path
               else if File.parent_is_directory fs Path then Some File.Dir
                    else None
             else if File.below Path k then None else fs !! k).
  { intros k. by apply cleared_lookup. }
  apply map_eq. intros k. rewrite cleared_lookup by done.
  destruct (decide (k = Path)) as [->|Hk].
  - destruct (File.Exists fs1 Path) eqn:Hex1; [done|].
    unfold File.Exists in Hex1.
    destruct (fs1 !! Path) as [v|] eqn:Hfs1; [done|].
    rewrite H1, decide_True in Hfs1 by done.
    assert (Hp1 : File.parent_is_directory fs1 Path
                  = File.parent_is_directory fs Path).
    { unfold File.parent_is_directory.
      destruct (File.dirname Path) as [p|] eqn:Hp; [|done].
      apply dirname_length in Hp as Hlen. unfold File.IsDirectory.
      rewrite H1. rewrite decide_False by (intros ->; lia).
      assert (File.below Path p = false) as ->; [|done].
      apply below_false_iff. intros Hb%below_rel_length. lia. }
    rewrite Hp1. destruct (File.Exists fs Path) eqn:Hex.
    + unfold File.Exists in Hex. rewrite Hfs1 in Hex. done.
    + by destruct (File.parent_is_directory fs Path).
  - destruct (File.below Path k) eqn:Hb.
    + rewrite H1. by rewrite decide_False, Hb.
    + done.
Qed.

End Opening.

(** ** Worked examples for opening the device *)

Lemma Open_clears_scratch_witness :
  ∃ fs',
    Open (H := example_platform) stale_fs = (IPC_SUCCESS, true, fs')
    ∧ (∀ k, File.below "/wii/tmp" k = true → fs' !! k = None)
    ∧ fs' !! "/wii/tmp"%string = Some File.Dir
    ∧ fs' !! "/wii/title"%string = Some File.Dir.
Proof.
  destruct (Open_clears_scratch (H := example_platform) stale_fs)
    as (fs' & Hrun & Hbelow & Hframe & Hroot).
  { apply wf_check_correct. vm_compute. reflexivity. }
  exists fs'. split; [exact Hrun|]. split; [exact Hbelow|]. split.
  - apply Hroot; vm_compute; reflexivity.
  - rewrite Hframe; [reflexivity|discriminate|vm_compute; reflexivity].
Defined.

Lemma Open_idempotent_witness :
  (Open (H := example_platform) (Open (H := example_platform) stale_fs).2).2
  = (Open (H := example_platform) stale_fs).2.
Proof.
  apply (Open_idempotent (H := example_platform) stale_fs).
  apply wf_check_correct. vm_compute. reflexivity.
Defined.

(** ** The records of a save *)

Lemma bfs_length (fuel : nat) (todo : list File.FSTEntry) :
  (length (bfs fuel todo) ≤ queue_count todo)%nat.
Proof.
  revert todo. induction fuel as [|fuel IH]; intros todo.
  - destruct todo; simpl; lia.
  - destruct todo as [|e rest]; [simpl; lia|]. cbn [bfs length].
    specialize (IH (rest ++ if File.isDirectory e then File.children e else [])).
    rewrite queue_count_app in IH.
    rewrite queue_count_cons, entry_count_unfold.
    destruct (File.isDirectory e); [lia|]. unfold queue_count at 2 in IH.
    simpl in IH. lia.
Qed.

Lemma NoDup_entries_below_names (fs : File.FS) (d : string) :
  NoDup (File.entries_below fs d).*1.
Proof.
  eapply sublist_NoDup; [apply (NoDup_fst_map_to_list fs)|].
  apply fmap_sublist, sublist_filter.
Qed.

Section EntryCount.

Variable fs : File.FS.
Hypothesis Hwf : File.wf fs.

Lemma children_count (L : list (string * File.node))
    (f : string * File.node → File.FSTEntry) :
  Forall (λ kn, (entry_count (f kn)
                 ≤ S (length (File.entries_below fs kn.1)))%nat) L →
  (queue_count (map f L)
   ≤ length (L ≫= λ kn, kn :: File.entries_below fs kn.1))%nat.
Proof.
  induction L as [|kn L IH]; intros HL; [done|].
  apply Forall_cons in HL as [Hkn HL]. specialize (IH HL).
  rewrite bind_cons, length_app. cbn [map length].
  rewrite queue_count_cons. lia.
Qed.

Lemma scan_entry_count (n : nat) (d : string) (r : bool) :
  (entry_count (File.ScanDirectoryTree_fuel n fs d r)
   ≤ S (length (File.entries_below fs d)))%nat.
Proof.
  revert d. induction n as [|n IH]; intros d.
  all: rewrite entry_count_unfold, scan_children.
  all: rewrite (Permutation_length (entries_below_partition fs d Hwf)).
  all: apply le_n_S, children_count, Forall_forall; intros [k v] _.
  all: unfold scan_child; rewrite entry_count_unfold; cbn [File.children fst snd].
  all: rewrite <- entry_count_unfold.
  - destruct v as [|data]; [destruct r|];
      change (entry_count _) with 1%nat; lia.
  - destruct v as [|data]; [destruct r|].
    + apply IH.
    + change (entry_count _) with 1%nat. lia.
    + change (entry_count _) with 1%nat. lia.
Qed.

End EntryCount.

(** From an [ordered] list to positions: the parent of an entry is known
    beforehand or is a directory earlier in the list. *)
Lemma ordered_lookup (known : list string) (es : list File.FSTEntry) (i : nat)
    (e : File.FSTEntry) :
  ordered known es → es !! i = Some e →
  ∃ d, File.dirname (File.physicalName e) = Some d
       ∧ (d ∈ known
          ∨ ∃ j e', (j < i)%nat ∧ es !! j = Some e'
                    ∧ File.isDirectory e' = true ∧ File.physicalName e' = d).
Proof.
  revert known i. induction es as [|e0 es IH]; intros known i Hord Hi; [done|].
  destruct Hord as [(d0 & Hd0 & Hin0) Hord]. destruct i as [|i].
  - injection Hi as <-. eauto.
  - cbn in Hi. destruct (IH _ _ Hord Hi) as (d & Hd & Hcase).
    exists d. split; [done|]. destruct Hcase as [Hin|(j & e' & Hj & He' & Hdir & Hn)].
    + destruct (File.isDirectory e0) eqn:Hdir0; [|by left].
      apply elem_of_cons in Hin as [->|Hin]; [|by left].
      right. exists O, e0. split; [lia|]. done.
    + right. exists (S j), e'. split; [lia|]. done.
Qed.

Section SavedRecords.

Context `{!Session}.

Lemma scratch_covered (fs : File.FS) (k : string) (v : File.node) :
  File.wf fs → fs !! k = Some v → File.below_rel scratch_path k →
  let root := File.ScanDirectoryTree fs scratch_path true in
  ∃ e, e ∈ bfs (entry_count root) (File.children root)
       ∧ File.physicalName e = k.
Proof.
  intros Hwf Hfk Hk root.
  apply (bfs_covers fs (entry_count root) (File.children root) k v Hwf).
  - apply scratch_children_queue_ok.
  - apply scratch_queue_count.
  - done.
  - pose proof (scan_tree_ScanDirectoryTree fs scratch_path) as Hscan.
    inversion Hscan as [e0 Hcomplete _]. subst e0. fold root in Hcomplete.
    unfold root, File.ScanDirectoryTree in Hcomplete.
    rewrite scan_physicalName in Hcomplete.
    destruct (below_rel_first _ _ Hk) as (ck & Hck & Hstep).
    assert (Hckfs : ∃ cv, fs !! ck = Some cv).
    { destruct Hstep as [->|Hstep]; [eauto|].
      exists File.Dir. exact (wf_ancestor fs k ck v Hwf Hfk Hstep). }
    destruct Hckfs as [cv Hckfs].
    destruct (Hcomplete ck cv Hckfs Hck) as (c & Hc & Hcname).
    exists c. split; [done|]. rewrite Hcname.
    destruct Hstep as [->|?]; auto.
Qed.

Lemma record_of_entry_name (fs : File.FS) (e : File.FSTEntry) :
  File.below_rel scratch_path (File.physicalName e) →
  (scratch_path ++ DIR_SEP ++ record_name (record_of_entry fs scratch_path e))%string
  = File.physicalName e.
Proof.
  intros Hb. unfold record_of_entry.
  destruct (File.isDirectory e); simpl; by apply rebuilt_name.
Qed.

Lemma record_of_entry_describes (fs : File.FS) (e : File.FSTEntry) :
  entry_ok fs e →
  File.below_rel scratch_path (File.physicalName e) →
  record_describes fs scratch_path (record_of_entry fs scratch_path e).
Proof.
  intros Hok Hb. unfold record_of_entry, entry_ok in *.
  destruct (fs !! File.physicalName e) as [[|data]|] eqn:Hfs; [| |done].
  - rewrite Hok. simpl. by rewrite rebuilt_name.
  - destruct Hok as (-> & Hsize & _). simpl. rewrite rebuilt_name by done.
    exists data. split; [done|]. unfold File.IOFile_rb. rewrite Hfs, Hsize.
    rewrite u32_u64. done.
Qed.

(** A save writes one record for each entry below the scratch directory and
    no other: the names of the records, taken below the scratch directory,
    are the paths of these entries, each once, and every record is the one
    of the entry it names. *)
Theorem save_one_record_per_entry (pw : PointerWrap.t) (fs : File.FS) :
  File.wf fs →
  PointerWrap.mode (DoStateShared pw) = PointerWrap.MODE_WRITE →
  ∃ recs,
    DoState pw fs =
    Some (PointerWrap.mk PointerWrap.MODE_WRITE
            (PointerWrap.stream (DoStateShared pw)
             ++ encode (recs ++ [Sentinel])), fs)
    ∧ map (λ r, (scratch_path ++ DIR_SEP ++ record_name r)%string) recs
      ≡ₚ (File.entries_below fs scratch_path).*1
    ∧ Forall (record_describes fs scratch_path) recs.
Proof.
  intros Hwf Hmode. exists (scratch_records fs).
  split; [by apply DoState_save|].
  unfold scratch_records. cbv zeta.
  set (root := File.ScanDirectoryTree fs scratch_path true).
  set (es := bfs (entry_count root) (File.children root)).
  destruct (bfs_ordered fs scratch_path (entry_count root) _ _
              (scratch_children_pending fs)) as [Hes _].
  fold root in Hes. fold es in Hes.
  assert (Hnames : map (λ r, (scratch_path ++ DIR_SEP ++ record_name r)%string)
                     (map (record_of_entry fs scratch_path) es)
                   = map File.physicalName es).
  { rewrite map_map. apply map_ext_Forall.
    eapply Forall_impl; [exact Hes|]. intros e [_ Hb]. simpl.
    by apply record_of_entry_name. }
  split.
  - rewrite Hnames. symmetry. apply NoDup_Permutation_bis.
    + apply NoDup_ListNoDup, NoDup_entries_below_names.
    + rewrite !length_map. etrans; [apply bfs_length|].
      pose proof (scan_entry_count fs Hwf (File.depth_bound fs) scratch_path true)
        as Hcount.
      fold (File.ScanDirectoryTree fs scratch_path true) in Hcount.
      fold root in Hcount. rewrite entry_count_unfold in Hcount. lia.
    + intros k Hk%list_elem_of_In.
      apply list_elem_of_fmap in Hk as ([k' v] & -> & [Hfk Hb]%elem_of_entries_below).
      simpl in *. destruct (scratch_covered fs k' v Hwf Hfk Hb) as (e & He & Hn).
      apply list_elem_of_In, list_elem_of_fmap. exists e. split; [done|]. exact He.
  - apply Forall_fmap. eapply Forall_impl; [exact Hes|]. intros e [Hok Hb].
    simpl. by apply record_of_entry_describes.
Qed.

(** In the stream of a save every entry comes after the directory it lies
    in: the parent of a record's path is the scratch directory itself or the
    path of a directory record written earlier. *)
Theorem save_parents_first (pw : PointerWrap.t) (fs : File.FS) :
  PointerWrap.mode (DoStateShared pw) = PointerWrap.MODE_WRITE →
  ∃ recs,
    DoState pw fs =
    Some (PointerWrap.mk PointerWrap.MODE_WRITE
            (PointerWrap.stream (DoStateShared pw)
             ++ encode (recs ++ [Sentinel])), fs)
    ∧ ∀ i r, recs !! i = Some r →
        ∃ d, File.dirname (scratch_path ++ DIR_SEP ++ record_name r) = Some d
             ∧ (d = scratch_path
                ∨ ∃ j name, (j < i)%nat ∧ recs !! j = Some (Record_dir name)
                            ∧ d = (scratch_path ++ DIR_SEP ++ name)%string).
Proof.
  intros Hmode. exists (scratch_records fs).
  split; [by apply DoState_save|].
  unfold scratch_records. cbv zeta.
  set (root := File.ScanDirectoryTree fs scratch_path true).
  set (es := bfs (entry_count root) (File.children root)).
  destruct (bfs_ordered fs scratch_path (entry_count root) _ _
              (scratch_children_pending fs)) as [Hes Hord].
  fold root in Hes, Hord. fold es in Hes, Hord.
  intros i r Hi. apply list_lookup_fmap_Some in Hi as (e & -> & Hi).
  destruct (ordered_lookup _ _ _ _ Hord Hi) as (d & Hd & Hcase).
  pose proof (Forall_lookup_1 _ _ _ _ Hes Hi) as [_ Hb]. simpl in Hb.
  exists d. rewrite record_of_entry_name by done. split; [done|].
  destruct Hcase as [->%list_elem_of_singleton|(j & e' & Hj & He' & Hdir & Hn)];
    [by left|].
  right. exists j, (erase_0 (String.length scratch_path + 1) (File.physicalName e')).
  split; [done|]. split.
  - rewrite list_lookup_fmap, He'. simpl. unfold record_of_entry. by rewrite Hdir.
  - pose proof (Forall_lookup_1 _ _ _ _ Hes He') as [_ Hb']. simpl in Hb'.
    by rewrite rebuilt_name.
Qed.

End SavedRecords.

(** ** A restore after a save, whatever the sizes *)

Lemma carried_trunc32 (entry : option File.node) :
  trunc32 <$> entry = carried entry.
Proof.
  destruct entry as [[|data]|]; [done| |done]. simpl.
  by rewrite u32_u64.
Qed.

Section RestoreAfterSave.

Context `{!Session}.

(** A save followed by a restore of its stream brings back, below the
    scratch directory, every path that was saved and no other: directories
    as directories, and every file with its first (length mod 2^32) bytes,
    which is the whole file when it is shorter than 4 GiB. *)
Theorem round_trip_carried (pw : PointerWrap.t) (fs : File.FS) :
  File.wf fs →
  PointerWrap.mode (DoStateShared pw) = PointerWrap.MODE_WRITE →
  ∃ pw',
    DoState pw fs = Some (pw', fs)
    ∧ ∀ pr fs' rest,
        File.wf fs' →
        File.IsDirectory fs' WiiRoot = true →
        File.Exists fs' scratch_path = File.IsDirectory fs' scratch_path →
        PointerWrap.mode (DoStateShared pr) = PointerWrap.MODE_READ →
        PointerWrap.stream (DoStateShared pr)
        = drop (length (PointerWrap.stream (DoStateShared pw)))
            (PointerWrap.stream pw') ++ rest →
        ∃ fs'',
          DoState pr fs' = Some (PointerWrap.mk PointerWrap.MODE_READ rest, fs'')
          ∧ ∀ k, File.below scratch_path k = true →
                 fs'' !! k = carried (fs !! k).
Proof.
  intros Hwf Hw. eexists. split; [by apply DoState_save|].
  intros pr fs' rest Hwf' Hroot Hscratch Hr Hs.
  cbn [PointerWrap.stream] in Hs. rewrite drop_app_length in Hs.
  eexists. split.
  - apply DoState_restore; [done|done|].
    eapply Forall_impl; [apply scratch_records_wf|]. by intros r [? _].
  - destruct (restored_lookup fs fs' Hwf Hwf' Hroot Hscratch) as (Hbelow & _).
    intros k Hk. rewrite Hbelow by done. apply carried_trunc32.
Qed.

(** A restore of the stream of a save touches nothing outside the scratch
    directory: every other entry of the file system it runs on is there
    afterwards as before, and no entry is added. *)
Theorem restore_leaves_outside_alone (pw : PointerWrap.t) (fs : File.FS) :
  File.wf fs →
  PointerWrap.mode (DoStateShared pw) = PointerWrap.MODE_WRITE →
  ∃ pw',
    DoState pw fs = Some (pw', fs)
    ∧ ∀ pr fs' rest,
        File.wf fs' →
        File.IsDirectory fs' WiiRoot = true →
        File.Exists fs' scratch_path = File.IsDirectory fs' scratch_path →
        PointerWrap.mode (DoStateShared pr) = PointerWrap.MODE_READ →
        PointerWrap.stream (DoStateShared pr)
        = drop (length (PointerWrap.stream (DoStateShared pw)))
            (PointerWrap.stream pw') ++ rest →
        ∃ fs'',
          DoState pr fs' = Some (PointerWrap.mk PointerWrap.MODE_READ rest, fs'')
          ∧ ∀ k, k ≠ scratch_path → File.below scratch_path k = false →
                 fs'' !! k = fs' !! k.
Proof.
  intros Hwf Hw. eexists. split; [by apply DoState_save|].
  intros pr fs' rest Hwf' Hroot Hscratch Hr Hs.
  cbn [PointerWrap.stream] in Hs. rewrite drop_app_length in Hs.
  eexists. split.
  - apply DoState_restore; [done|done|].
    eapply Forall_impl; [apply scratch_records_wf|]. by intros r [? _].
  - by destruct (restored_lookup fs fs' Hwf Hwf' Hroot Hscratch) as (_ & _ & Hout).
Qed.

End RestoreAfterSave.

(** ** Worked examples for the records of a save *)

Lemma save_one_record_per_entry_witness :
  ∃ recs,
    DoState (H := example_session)
      (PointerWrap.mk PointerWrap.MODE_WRITE []) example_fs =
    Some (PointerWrap.mk PointerWrap.MODE_WRITE
            ([PointerWrap.Str "/dev/fs"] ++ encode (recs ++ [Sentinel])),
          example_fs)
    ∧ map (λ r, ("/wii/tmp" ++ DIR_SEP ++ record_name r)%string) recs
      ≡ₚ (File.entries_below example_fs "/wii/tmp").*1
    ∧ Forall (record_describes example_fs "/wii/tmp") recs.
Proof.
  apply (save_one_record_per_entry (H := example_session)
           (PointerWrap.mk PointerWrap.MODE_WRITE []) example_fs).
  - apply wf_check_correct. vm_compute. reflexivity.
  - reflexivity.
Defined.

Lemma save_parents_first_witness :
  ∃ recs,
    DoState (H := example_session)
      (PointerWrap.mk PointerWrap.MODE_WRITE []) example_fs =
    Some (PointerWrap.mk PointerWrap.MODE_WRITE
            ([PointerWrap.Str "/dev/fs"] ++ encode (recs ++ [Sentinel])),
          example_fs)
    ∧ ∀ i r, recs !! i = Some r →
        ∃ d, File.dirname ("/wii/tmp" ++ DIR_SEP ++ record_name r) = Some d
             ∧ (d = "/wii/tmp"%string
                ∨ ∃ j name, (j < i)%nat ∧ recs !! j = Some (Record_dir name)
                            ∧ d = ("/wii/tmp" ++ DIR_SEP ++ name)%string).
Proof.
  apply (save_parents_first (H := example_session)
           (PointerWrap.mk PointerWrap.MODE_WRITE []) example_fs).
  reflexivity.
Defined.

Lemma round_trip_carried_witness :
  ∃ pw' fs'',
    DoState (H := example_session)
      (PointerWrap.mk PointerWrap.MODE_WRITE []) example_fs
    = Some (pw', example_fs)
    ∧ DoState (H := example_session)
        (PointerWrap.mk PointerWrap.MODE_READ (PointerWrap.stream pw')) stale_fs
      = Some (PointerWrap.mk PointerWrap.MODE_READ [], fs'')
    ∧ ∀ k, File.below "/wii/tmp" k = true →
           fs'' !! k = carried (example_fs !! k).
Proof.
  destruct (round_trip_carried (H := example_session)
              (PointerWrap.mk PointerWrap.MODE_WRITE []) example_fs)
    as (pw' & Hsave & Hrestore).
  - apply wf_check_correct. vm_compute. reflexivity.
  - reflexivity.
  - pose proof Hsave as Hpw'.
    rewrite (DoState_save (H := example_session)) in Hpw' by reflexivity.
    injection Hpw' as Hpw'.
    destruct (Hrestore
                (PointerWrap.mk PointerWrap.MODE_READ (PointerWrap.stream pw'))
                stale_fs [])
      as (fs'' & Hrun & Hsame).
    + apply wf_check_correct. vm_compute. reflexivity.
    + vm_compute. reflexivity.
    + vm_compute. reflexivity.
    + by rewrite <- Hpw'.
    + rewrite <- Hpw'. by rewrite app_nil_r.
    + exists pw', fs''. auto.
Defined.

Lemma restore_leaves_outside_alone_witness :
  ∃ pw' fs'',
    DoState (H := example_session)
      (PointerWrap.mk PointerWrap.MODE_WRITE []) example_fs
    = Some (pw', example_fs)
    ∧ DoState (H := example_session)
        (PointerWrap.mk PointerWrap.MODE_READ (PointerWrap.stream pw')) stale_fs
      = Some (PointerWrap.mk PointerWrap.MODE_READ [], fs'')
    ∧ ∀ k, k ≠ "/wii/tmp"%string → File.below "/wii/tmp" k = false →
           fs'' !! k = stale_fs !! k.
Proof.
  destruct (restore_leaves_outside_alone (H := example_session)
              (PointerWrap.mk PointerWrap.MODE_WRITE []) example_fs)
    as (pw' & Hsave & Hrestore).
  - apply wf_check_correct. vm_compute. reflexivity.
  - reflexivity.
  - pose proof Hsave as Hpw'.
    rewrite (DoState_save (H := example_session)) in Hpw' by reflexivity.
    injection Hpw' as Hpw'.
    destruct (Hrestore
                (PointerWrap.mk PointerWrap.MODE_READ (PointerWrap.stream pw'))
                stale_fs [])
      as (fs'' & Hrun & Hsame).
    + apply wf_check_correct. vm_compute. reflexivity.
    + vm_compute. reflexivity.
    + vm_compute. reflexivity.
    + by rewrite <- Hpw'.
    + rewrite <- Hpw'. by rewrite app_nil_r.
    + exists pw', fs''. auto.
Defined.

(** ** Records of an unknown type *)

Section UnknownRecords.

Context `{!Session}.

(** The restore loop run over the records at the head of its stream. *)
Lemma restore_loop_prefix (fuel : nat) (Path : string) (recs : list record)
    (s : list PointerWrap.item) (fs : File.FS) :
  Forall record_wf recs →
  restore_loop (length recs + fuel) Path
    (PointerWrap.mk PointerWrap.MODE_READ (encode recs ++ s)) fs =
  restore_loop fuel Path (PointerWrap.mk PointerWrap.MODE_READ s)
    (fold_left (apply_record Path) recs fs).
Proof.
  revert fs. induction recs as [|r recs IH]; intros fs Hwf; [done|].
  apply Forall_cons in Hwf as [Hr Hwf].
  rewrite encode_cons. cbn [length Nat.add].
  destruct r as [name|name size payload|]; [| |done].
  - cbn [restore_loop record_items app PointerWrap.DoChar PointerWrap.DoString
         PointerWrap.mode PointerWrap.stream mbind option_bind fold_left
         apply_record].
    change (Ascii.eqb "d" NUL) with false.
    change (Ascii.eqb "d" "d") with true. cbv iota.
    by apply IH.
  - destruct Hr as [Hsize Hrange].
    cbn [restore_loop record_items app PointerWrap.DoChar PointerWrap.DoString
         PointerWrap.DoU32 PointerWrap.mode PointerWrap.stream mbind
         option_bind fold_left apply_record].
    change (Ascii.eqb "f" NUL) with false.
    change (Ascii.eqb "f" "d") with false.
    change (Ascii.eqb "f" "f") with true. cbv iota.
    rewrite (u32_small size) by done.
    destruct (File.IOFile_wb (Path ++ DIR_SEP ++ name) fs) as [fs1 good] eqn:Hwb.
    rewrite <- app_assoc.
    rewrite (restore_chunks_spec _ _ _ _ payload _ []);
      [|done|apply fresh_buf_length|unfold chunk_fuel; lia|].
    + cbn [mbind option_bind]. rewrite IH by done. do 2 f_equal.
      destruct good; [|done].
      apply IOFile_wb_good in Hwb. by rewrite (WriteArray_good _ []).
    + intros ->. by eapply IOFile_wb_good.
Qed.

Lemma restore_loop_unknown (fuel : nat) (Path : string) (c : ascii)
    (name : string) (s : list PointerWrap.item) (fs : File.FS) :
  c ≠ NUL → c ≠ "d"%char → c ≠ "f"%char →
  restore_loop (S fuel) Path
    (PointerWrap.mk PointerWrap.MODE_READ
       (PointerWrap.Char c :: PointerWrap.Str name :: s)) fs =
  restore_loop fuel Path (PointerWrap.mk PointerWrap.MODE_READ s) fs.
Proof.
  intros Hc0 Hcd Hcf.
  cbn [restore_loop PointerWrap.DoChar PointerWrap.DoString
       PointerWrap.mode PointerWrap.stream mbind option_bind].
  destruct (Ascii.eqb_spec c NUL); [done|].
  destruct (Ascii.eqb_spec c "d"); [done|].
  destruct (Ascii.eqb_spec c "f"); [done|]. done.
Qed.

(** A record whose type tag is neither 'd' nor 'f' is passed over: the
    restore reads its tag and its name, creates nothing for it and goes on
    with the next record.  The restore ends as it does on the stream
    without that record. *)
Theorem restore_skips_unknown_records (pr pr' : PointerWrap.t) (fs' : File.FS)
    (recs1 recs2 : list record) (c : ascii) (name : string)
    (rest : list PointerWrap.item) :
  c ≠ NUL → c ≠ "d"%char → c ≠ "f"%char →
  Forall record_wf recs1 → Forall record_wf recs2 →
  PointerWrap.mode (DoStateShared pr) = PointerWrap.MODE_READ →
  PointerWrap.mode (DoStateShared pr') = PointerWrap.MODE_READ →
  PointerWrap.stream (DoStateShared pr)
  = encode recs1 ++ [PointerWrap.Char c; PointerWrap.Str name]
    ++ encode (recs2 ++ [Sentinel]) ++ rest →
  PointerWrap.stream (DoStateShared pr')
  = encode recs1 ++ encode (recs2 ++ [Sentinel]) ++ rest →
  ∃ fs'',
    DoState pr fs' = Some (PointerWrap.mk PointerWrap.MODE_READ rest, fs'')
    ∧ DoState pr' fs' = Some (PointerWrap.mk PointerWrap.MODE_READ rest, fs'').
Proof.
  intros Hc0 Hcd Hcf Hwf1 Hwf2 Hr Hr' Hs Hs'.
  exists (fold_left (apply_record scratch_path) (recs1 ++ recs2) (wiped fs')).
  split.
  - unfold DoState, PointerWrap.GetMode.
    destruct (DoStateShared pr) as [m s]. simpl in Hr, Hs. subst m s.
    cbv zeta. cbn [PointerWrap.mode PointerWrap.stream].
    fold (wiped fs').
    pose proof (encode_length recs1) as Hlen1.
    pose proof (encode_length recs2) as Hlen2.
    set (tail := encode (recs2 ++ [Sentinel]) ++ rest).
    assert (Htail : (length recs2 < length tail)%nat).
    { subst tail. rewrite encode_app, !length_app. simpl. lia. }
    replace (S (length (encode recs1
                        ++ PointerWrap.Char c :: PointerWrap.Str name :: tail)))
      with (length recs1
            + S (S (length (encode recs1) - length recs1 + S (length tail))))%nat
      by (rewrite !length_app; simpl; lia).
    rewrite restore_loop_prefix by done.
    rewrite restore_loop_unknown by done.
    subst tail. rewrite encode_app, <- app_assoc.
    change (encode [Sentinel] ++ rest) with (PointerWrap.Char NUL :: rest).
    rewrite fold_left_app. apply restore_loop_spec; [done|].
    rewrite !length_app. simpl. lia.
  - apply DoState_restore; [done| |by apply Forall_app].
    rewrite Hs'. rewrite !encode_app. by rewrite <- !app_assoc.
Qed.

End UnknownRecords.

(** A stream with a record of type 'x' between a directory and a file of
    that directory. *)
Lemma restore_skips_unknown_records_witness :
  ∃ fs'',
    DoState (H := example_session)
      (PointerWrap.mk PointerWrap.MODE_READ
         ([PointerWrap.Str "/dev/fs"] ++ encode [Record_dir "sub"]
          ++ [PointerWrap.Char "x"; PointerWrap.Str "other"]
          ++ encode ([Record_file "sub/b.bin" 1 [Byte.x04]] ++ [Sentinel]) ++ []))
      stale_fs
    = Some (PointerWrap.mk PointerWrap.MODE_READ [], fs'')
    ∧ DoState (H := example_session)
        (PointerWrap.mk PointerWrap.MODE_READ
           ([PointerWrap.Str "/dev/fs"] ++ encode [Record_dir "sub"]
            ++ encode ([Record_file "sub/b.bin" 1 [Byte.x04]] ++ [Sentinel]) ++ []))
        stale_fs
      = Some (PointerWrap.mk PointerWrap.MODE_READ [], fs'').
Proof.
  apply (restore_skips_unknown_records (H := example_session) _ _ stale_fs
           [Record_dir "sub"] [Record_file "sub/b.bin" 1 [Byte.x04]]
           "x" "other" []);
    try discriminate; try reflexivity.
  - repeat constructor.
  - repeat constructor; simpl; lia.
Defined.

(** ** The zero fill of the output buffer *)

(** Whatever a scalar command other than GET_STATS and GET_ATTR does and
    however it ends, the output buffer of the request is all zero bytes
    afterwards. *)
Theorem IOCtl_zero_fills_output `{!Platform} (request : IOSIOCtlRequest)
    (mem : Memory.t) (fs : File.FS) (x : Z) :
  ioctl_of (ioctl_request request) ≠ Some IOCTL_GET_STATS →
  ioctl_of (ioctl_request request) ≠ Some IOCTL_GET_ATTR →
  buffer_out request ≤ x < buffer_out request + buffer_out_size request →
  (IOCtl request mem fs).1.2 x = 0.
Proof.
  intros Hstats Hattr Hx. rewrite IOCtl_unfold. cbv zeta. cbn [fst snd].
  rewrite <- (Memset_inside (buffer_out request) 0 (buffer_out_size request) x mem)
    at 2 by done.
  set (mem1 := Memory.Memset _ _ _ mem). unfold ExecuteCommand.
  destruct (ioctl_of (ioctl_request request)) as [[]|]; try done.
  - by destruct (negb _).
  - by destruct (negb _).
  - destruct (negb _); [done|]. destruct (Delete _ _) as [[|] ?]; [done|].
    by destruct (DeleteDir _ _).
  - set (source := Memory.GetString mem1 (u32 (buffer_in request + 0)) 64).
    set (destination := Memory.GetString mem1 (u32 (buffer_in request + 64)) 64).
    destruct (IsValidWiiPath source); [|done].
    destruct (IsValidWiiPath destination); [|done]. cbn [negb].
    by destruct (Rename _ _ _) as [[|] ?].
  - destruct (negb _); [done|]. destruct (File.Exists _ _); [done|].
    by destruct (CreateEmptyFile _ _) as [[|] ?].
Qed.

Lemma IOCtl_zero_fills_output_witness :
  (IOCtl (H := example_platform) (mkIOSIOCtlRequest 0x09 0x100 76 0x100 8)
     create_file_memory example_fs).1.2 0x106 = 0.
Proof.
  apply (IOCtl_zero_fills_output (H := example_platform)
           (mkIOSIOCtlRequest 0x09 0x100 76 0x100 8) create_file_memory
           example_fs 0x106);
    [vm_compute; discriminate | vm_compute; discriminate | simpl; lia].
Defined.

(** ** The order of start-up and shutdown *)

(** [HW::Shutdown] shuts the subsystems down in the reverse of the order in
    which [HW::Init] initialised them, whatever the configuration: the
    subsystems shut down are those initialised, without VideoInterface,
    ProcessorInterface and GPFifo, last first. *)
Theorem Shutdown_reverses_Init (config : HW.SConfig) (g_want_determinism : bool) :
  let shut := map HW.target (HW.Shutdown config) in
  shut = rev (filter (λ s, s ∈ shut)
                (HW.initialised (HW.Init config g_want_determinism)))
  ∧ Forall (λ c, HW.action c = HW.CallShutdown) (HW.Shutdown config)
  ∧ filter (λ s, s ∉ shut) (HW.initialised (HW.Init config g_want_determinism))
    = [HW.VideoInterface; HW.ProcessorInterface; HW.GPFifo].
Proof.
  destruct config as [hle core []]; cbv zeta; split; [|split| |split];
    try (vm_compute; reflexivity); repeat constructor.
Qed.

(** ** Restoring twice *)

Section RestoreTwice.

Context `{!Session}.

(** What a restore leaves is well formed again. *)
Lemma restored_wf (fs fs' fs'' : File.FS) :
  File.wf fs → File.wf fs' →
  File.IsDirectory fs' WiiRoot = true →
  (∀ k, File.below scratch_path k = true → fs'' !! k = trunc32 <$> fs !! k) →
  fs'' !! scratch_path = Some File.Dir →
  (∀ k, k ≠ scratch_path → File.below scratch_path k = false →
        fs'' !! k = fs' !! k) →
  File.wf fs'' ∧ File.IsDirectory fs'' WiiRoot = true.
Proof.
  intros Hwf Hwf' Hroot Hbelow Hdir Hout.
  assert (Hwii : fs'' !! WiiRoot = Some File.Dir).
  { rewrite Hout.
    - unfold File.IsDirectory in Hroot. by destruct (fs' !! WiiRoot) as [[|?]|].
    - intros Heq. pose proof scratch_path_below_WiiRoot as Hb.
      rewrite Heq in Hb. by apply below_rel_irrefl in Hb.
    - apply below_false_iff. intros Hb%below_rel_length.
      pose proof scratch_path_below_WiiRoot as Hb'%below_rel_length. lia. }
  split; [|by unfold File.IsDirectory; rewrite Hwii].
  intros path entry parent Hpath Hparent.
  destruct (File.below scratch_path path) eqn:Hb.
  - rewrite Hbelow in Hpath by done.
    destruct (fs !! path) as [v|] eqn:Hfs; [|done].
    pose proof (Hwf _ _ _ Hfs Hparent) as Hp.
    apply below_iff in Hb. inversion Hb as [? Hd|? p Hd Hbp]; subst.
    + rewrite Hparent in Hd. by injection Hd as ->.
    + rewrite Hparent in Hd. injection Hd as ->.
      rewrite Hbelow by by apply below_iff. by rewrite Hp.
  - destruct (decide (path = scratch_path)) as [->|Hne].
    + rewrite scratch_path_dirname in Hparent. by injection Hparent as <-.
    + rewrite Hout in Hpath by done.
      pose proof (Hwf' _ _ _ Hpath Hparent) as Hp.
      apply below_false_iff in Hb. rewrite Hout; [done| |].
      * intros ->. apply Hb. by constructor.
      * apply below_false_iff. intros Hbp. apply Hb.
        eapply File.below_deeper; eauto.
Qed.

(** Restoring the stream of a save a second time changes nothing: the file
    system after the second restore is the one after the first. *)
Theorem restore_twice (pw : PointerWrap.t) (fs : File.FS) :
  File.wf fs →
  PointerWrap.mode (DoStateShared pw) = PointerWrap.MODE_WRITE →
  ∃ pw',
    DoState pw fs = Some (pw', fs)
    ∧ ∀ pr fs' rest,
        File.wf fs' →
        File.IsDirectory fs' WiiRoot = true →
        File.Exists fs' scratch_path = File.IsDirectory fs' scratch_path →
        PointerWrap.mode (DoStateShared pr) = PointerWrap.MODE_READ →
        PointerWrap.stream (DoStateShared pr)
        = drop (length (PointerWrap.stream (DoStateShared pw)))
            (PointerWrap.stream pw') ++ rest →
        ∃ fs'',
          DoState pr fs' = Some (PointerWrap.mk PointerWrap.MODE_READ rest, fs'')
          ∧ DoState pr fs'' = Some (PointerWrap.mk PointerWrap.MODE_READ rest, fs'').
Proof.
  intros Hwf Hw. eexists. split; [by apply DoState_save|].
  intros pr fs' rest Hwf' Hroot Hscratch Hr Hs.
  cbn [PointerWrap.stream] in Hs. rewrite drop_app_length in Hs.
  assert (Hrecs : Forall record_wf (scratch_records fs)).
  { eapply Forall_impl; [apply scratch_records_wf|]. by intros r [? _]. }
  eexists. split; [by apply DoState_restore|].
  destruct (restored_lookup fs fs' Hwf Hwf' Hroot Hscratch)
    as (Hbelow & Hdir & Hout).
  set (fs'' := fold_left (apply_record scratch_path) (scratch_records fs)
                 (wiped fs')) in *.
  destruct (restored_wf fs fs' fs'' Hwf Hwf' Hroot Hbelow Hdir Hout)
    as [Hwf'' Hroot''].
  assert (Hscratch'' : File.Exists fs'' scratch_path
                       = File.IsDirectory fs'' scratch_path).
  { unfold File.Exists, File.IsDirectory. by rewrite Hdir. }
  destruct (restored_lookup fs fs'' Hwf Hwf'' Hroot'' Hscratch'')
    as (Hbelow2 & Hdir2 & Hout2).
  rewrite (DoState_restore pr fs'' (scratch_records fs) rest) by done.
  do 2 f_equal. apply map_eq. intros k.
  destruct (decide (k = scratch_path)) as [->|Hne]; [by rewrite Hdir2, Hdir|].
  destruct (File.below scratch_path k) eqn:Hb.
  - by rewrite Hbelow2, Hbelow.
  - by rewrite Hout2.
Qed.

End RestoreTwice.

Lemma restore_twice_witness :
  ∃ pw' fs'',
    DoState (H := example_session)
      (PointerWrap.mk PointerWrap.MODE_WRITE []) example_fs
    = Some (pw', example_fs)
    ∧ DoState (H := example_session)
        (PointerWrap.mk PointerWrap.MODE_READ (PointerWrap.stream pw')) stale_fs
      = Some (PointerWrap.mk PointerWrap.MODE_READ [], fs'')
    ∧ DoState (H := example_session)
        (PointerWrap.mk PointerWrap.MODE_READ (PointerWrap.stream pw')) fs''
      = Some (PointerWrap.mk PointerWrap.MODE_READ [], fs'').
Proof.
  destruct (restore_twice (H := example_session)
              (PointerWrap.mk PointerWrap.MODE_WRITE []) example_fs)
    as (pw' & Hsave & Hrestore).
  - apply wf_check_correct. vm_compute. reflexivity.
  - reflexivity.
  - pose proof Hsave as Hpw'.
    rewrite (DoState_save (H := example_session)) in Hpw' by reflexivity.
    injection Hpw' as Hpw'.
    destruct (Hrestore
                (PointerWrap.mk PointerWrap.MODE_READ (PointerWrap.stream pw'))
                stale_fs [])
      as (fs'' & Hrun & Hagain).
    + apply wf_check_correct. vm_compute. reflexivity.
    + vm_compute. reflexivity.
    + vm_compute. reflexivity.
    + by rewrite <- Hpw'.
    + rewrite <- Hpw'. by rewrite app_nil_r.
    + exists pw', fs''. auto.
Defined.

(** ** The cap of READ_DIR *)

Lemma IsValidWiiPath_first (path : string) :
  IsValidWiiPath path = true → ∃ rest, path = String "/" rest.
Proof.
  unfold IsValidWiiPath, compare_0. rewrite is_Eq_compare.
  destruct path as [|c rest]; [done|]. simpl.
  destruct rest; intros [= ->]; eauto.
Qed.

Lemma valid_path_first_byte (mem : Memory.t) (a size : Z) :
  IsValidWiiPath (Memory.GetString mem a size) = true →
  Memory.Read_U8 mem a = 47.
Proof.
  intros [rest Hpath]%IsValidWiiPath_first. revert Hpath.
  unfold Memory.GetString. destruct (Z.to_nat size) as [|n]; [done|].
  cbn [Memory.GetString_aux]. destruct (Memory.Read_U8 mem a =? 0); [done|].
  intros [= Hc _]. unfold ascii_of_byte in Hc. fold (Memory.Read_U8 mem a) in Hc.
  pose proof (u8_range (mem a)) as Hrange. fold (Memory.Read_U8 mem a) in Hrange.
  apply (f_equal N_of_ascii) in Hc.
  rewrite N_ascii_embedding in Hc by lia.
  change (N_of_ascii "/") with 47%N in Hc. lia.
Qed.

Section ReadDirCap.

Context `{!Platform}.

(** The number READ_DIR takes for the cap on the entries is the word at the
    address of its first input, which is where the guest path stands: for
    every valid path it begins with the byte of the separator, so it is at
    least 0x2F000000.  In listing mode, on a directory with no more entries
    than that, the names of all entries are stored, in order, and their
    number goes to the second output: no cap given by the caller takes
    effect. *)
Theorem READ_DIR_lists_all (request : IOSIOCtlVRequest) (mem : Memory.t)
    (fs : File.FS) (in0 io0 io1 : IOVector.t) :
  ioctl_of (ioctlv_request request) = Some IOCTLV_READ_DIR →
  in_vectors request !! 0%nat = Some in0 →
  io_vectors request !! 0%nat = Some io0 →
  io_vectors request !! 1%nat = Some io1 →
  let relative_path :=
    Memory.GetString mem (IOVector.address in0) (IOVector.size in0) in
  let DirName := HLE_IPC_BuildFilename relative_path in
  let N := Z.of_nat (length (child_names fs DirName)) in
  IsValidWiiPath relative_path = true →
  File.IsDirectory fs DirName = true →
  Forall no_NUL (child_names fs DirName) →
  N ≤ 0x2F000000 →
  0x2F000000 ≤ Memory.Read_U32 mem (IOVector.address in0)
  ∧ ∃ sorted mem',
      sorted ≡ₚ child_names fs DirName
      ∧ StronglySorted String.le sorted
      ∧ IOCtlV request mem fs = Some (GetFSReply IPC_SUCCESS, mem')
      ∧ ∀ x,
          mem' x =
          Memory.Write_U32 N (IOVector.address io1)
            (Memory.write_bytes (IOVector.address io0) (packed sorted)
               (Memory.Memset (IOVector.address io0) 0 (IOVector.size io0) mem))
            x.
Proof.
  intros Hop Hin0 Hio0 Hio1 relative_path DirName N Hvalid Hdir Hnames HN.
  assert (Hcap : 0x2F000000 ≤ Memory.Read_U32 mem (IOVector.address in0)).
  { apply valid_path_first_byte in Hvalid. unfold Memory.Read_U32.
    rewrite Hvalid.
    pose proof (u8_range (mem (IOVector.address in0 + 1))).
    pose proof (u8_range (mem (IOVector.address in0 + 2))).
    pose proof (u8_range (mem (IOVector.address in0 + 3))).
    unfold Memory.Read_U8. lia. }
  split; [exact Hcap|].
  set (MaxEntries := Memory.Read_U32 mem (IOVector.address in0)) in *.
  set (kids := std_sort
         (map (λ child, set_virtualName (UnescapeFileName (File.virtualName child)) child)
            (File.children (File.ScanDirectoryTree fs DirName false)))).
  assert (Hkids : map File.virtualName kids ≡ₚ child_names fs DirName).
  { subst kids. rewrite std_sort_perm. unfold File.ScanDirectoryTree.
    rewrite scan_children. unfold child_names.
    rewrite !map_map. done. }
  assert (Hlen : length kids = length (child_names fs DirName)).
  { by rewrite <- (Permutation_length Hkids), length_map. }
  exists (map File.virtualName kids).
  unfold IOCtlV, READ_DIR. rewrite Hop, Hin0. cbn [mbind option_bind].
  fold relative_path. rewrite Hvalid. cbn [negb]. fold DirName.
  assert (Hex : File.Exists fs DirName = true).
  { unfold File.Exists, File.IsDirectory in *. by destruct (fs !! DirName). }
  rewrite Hex, Hdir. cbn [negb].
  assert (Hmode : (length (io_vectors request) =? 1)%nat = false).
  { apply Nat.eqb_neq. apply lookup_lt_Some in Hio1. lia. }
  rewrite Hmode, andb_false_r, Hio0. cbn [mbind option_bind]. fold kids.
  fold MaxEntries.
  pose proof (pack_names_spec kids 0 MaxEntries 0 (IOVector.address io0)
                (Memory.Memset (IOVector.address io0) 0 (IOVector.size io0) mem))
    as Hpack.
  destruct (pack_names kids 0 MaxEntries 0 (IOVector.address io0) _)
    as [[numFiles pFilename] mem1].
  destruct Hpack as [Hnum Hmem].
  { eapply Forall_forall. intros name Hname.
    eapply Forall_forall in Hnames; [exact Hnames|]. by rewrite <- Hkids. }
  simpl in Hnum, Hmem. rewrite Hio1. cbn [mbind option_bind].
  assert (Hmin : Nat.min (Z.to_nat (MaxEntries - 0)) (length kids) = length kids).
  { subst N. rewrite Hlen. lia. }
  rewrite Hmin in Hnum, Hmem.
  eexists. split; [done|]. split; [apply std_sort_sorted|].
  split; [reflexivity|]. intros x.
  rewrite Hnum, Z.add_0_l, Hlen. fold N. rewrite u32_small by (subst N; lia).
  apply Write_U32_ext. intros y. rewrite Hmem.
  rewrite <- (length_map File.virtualName kids), firstn_all. done.
Qed.

(** C5 (the code at a READ_DIR listing request).  On a valid path of a
    directory whose unescaped names hold no NUL the names buffer is
    zero-filled, the names are stored in lexicographic order, each followed
    by a NUL, and their number goes to the second output; but the cap the
    caller names is never read.  The loop is bounded by the word at the
    address of the first input, where the path stands, and that word is at
    least 0x2F000000: on a directory of N entries, N no more than that, all N
    names are stored and the count is N, whatever the second input holds, and
    so more names than the cap whenever the cap is below N. *)
Theorem READ_DIR_ignores_cap (request : IOSIOCtlVRequest) (mem : Memory.t)
    (fs : File.FS) (in0 in1 io0 io1 : IOVector.t) :
  ioctl_of (ioctlv_request request) = Some IOCTLV_READ_DIR →
  in_vectors request = [in0; in1] →
  io_vectors request = [io0; io1] →
  let relative_path :=
    Memory.GetString mem (IOVector.address in0) (IOVector.size in0) in
  let DirName := HLE_IPC_BuildFilename relative_path in
  let maxEntries := Memory.Read_U32 mem (IOVector.address in1) in
  let N := Z.of_nat (length (child_names fs DirName)) in
  IsValidWiiPath relative_path = true →
  File.IsDirectory fs DirName = true →
  Forall no_NUL (child_names fs DirName) →
  N ≤ 0x2F000000 →
  ∃ sorted mem',
    sorted ≡ₚ child_names fs DirName
    ∧ StronglySorted String.le sorted
    ∧ IOCtlV request mem fs = Some (GetFSReply IPC_SUCCESS, mem')
    ∧ (∀ x,
         mem' x =
         Memory.Write_U32 N (IOVector.address io1)
           (Memory.write_bytes (IOVector.address io0) (packed sorted)
              (Memory.Memset (IOVector.address io0) 0 (IOVector.size io0) mem))
           x)
    ∧ (maxEntries < N → Z.min maxEntries N < Z.of_nat (length sorted)).
Proof.
  intros Hop Hin Hio relative_path DirName maxEntries N Hvalid Hdir Hnames HN.
  assert (Hcap : 0x2F000000 ≤ Memory.Read_U32 mem (IOVector.address in0)).
  { apply valid_path_first_byte in Hvalid. unfold Memory.Read_U32.
    rewrite Hvalid.
    pose proof (u8_range (mem (IOVector.address in0 + 1))).
    pose proof (u8_range (mem (IOVector.address in0 + 2))).
    pose proof (u8_range (mem (IOVector.address in0 + 3))).
    unfold Memory.Read_U8. lia. }
  destruct (READ_DIR_run request mem fs in0 io0 io1 Hop)
    as (sorted & mem' & Hperm & Hsorted & Hrun & Hmem);
    [by rewrite Hin|by rewrite Hio|by rewrite Hio|done|done|done|].
  fold relative_path DirName N in Hperm, Hmem.
  assert (Hlen : Z.of_nat (length sorted) = N).
  { subst N. by rewrite (Permutation_length Hperm). }
  exists sorted, mem'. split; [done|]. split; [done|]. split; [done|]. split.
  - intros x. rewrite Hmem.
    rewrite Z.min_r by lia. rewrite <- Hlen at 2.
    by rewrite Nat2Z.id, firstn_all.
  - lia.
Qed.

End ReadDirCap.

Lemma READ_DIR_lists_all_witness :
  0x2F000000 ≤ Memory.Read_U32 (path_memory "/tmp") 0x100
  ∧ ∃ sorted mem',
      sorted ≡ₚ child_names (H := example_platform) listing_fs "/wii/tmp"
      ∧ StronglySorted String.le sorted
      ∧ IOCtlV (H := example_platform) listing_request (path_memory "/tmp")
          listing_fs
        = Some (GetFSReply (H := example_platform) IPC_SUCCESS, mem')
      ∧ ∀ x,
          mem' x =
          Memory.Write_U32 4 0x300
            (Memory.write_bytes 0x200 (packed sorted)
               (Memory.Memset 0x200 0 64 (path_memory "/tmp"))) x.
Proof.
  apply (READ_DIR_lists_all (H := example_platform) listing_request
           (path_memory "/tmp") listing_fs
           (IOVector.mk 0x100 64) (IOVector.mk 0x200 64) (IOVector.mk 0x300 4));
    try reflexivity.
  - vm_compute. repeat constructor.
  - vm_compute. discriminate.
Defined.


Lemma READ_DIR_ignores_cap_witness :
  Memory.Read_U32 capped_memory 0x180 = 2
  ∧ ∃ sorted mem',
      sorted ≡ₚ child_names (H := example_platform) listing_fs "/wii/tmp"
      ∧ StronglySorted String.le sorted
      ∧ IOCtlV (H := example_platform) capped_request capped_memory listing_fs
        = Some (GetFSReply (H := example_platform) IPC_SUCCESS, mem')
      ∧ (∀ x,
           mem' x =
           Memory.Write_U32 4 0x300
             (Memory.write_bytes 0x200 (packed sorted)
                (Memory.Memset 0x200 0 64 capped_memory)) x)
      ∧ (2 < 4 → Z.min 2 4 < Z.of_nat (length sorted)).
Proof.
  split; [reflexivity|].
  apply (READ_DIR_ignores_cap (H := example_platform) capped_request
           capped_memory listing_fs
           (IOVector.mk 0x100 64) (IOVector.mk 0x180 4)
           (IOVector.mk 0x200 64) (IOVector.mk 0x300 4));
    try reflexivity.
  - vm_compute. repeat constructor.
  - vm_compute. discriminate.
Defined.

(** The request names the cap 2 and the directory holds four entries: the
    four names are stored and the count is 4. *)
Example READ_DIR_cap_example :
  Memory.Read_U32 capped_memory 0x180 = 2
  ∧ listing_reply (H := example_platform) capped_request capped_memory
      listing_fs 32
    = Some (IPC_SUCCESS,
            bytes_of_string "alpha" ++ [0] ++ bytes_of_string "bravo" ++ [0]
            ++ bytes_of_string "charlie" ++ [0] ++ bytes_of_string "delta" ++ [0]
            ++ [0; 0; 0; 0; 0; 0],
            4).
Proof. split; vm_compute; reflexivity. Qed.
